(** * Momentum backend: calendar synchronisation

    Shallow embedding of the two handlers of [src/api/index.js] that
    make up the synchronisation engine,

      - [POST /api/sync-calendar]  (one user's sync), and
      - [GET  /api/sync-all-users] (the cron fan-out),

    together with the fragment of JavaScript they rely on: dynamic
    values with truthiness and string conversion, the regular
    expression used for event identifiers, and [Date] parsing in the
    ECMAScript date-time string format.

    The way an account gets connected is embedded as well: the
    identity guard [verifyFirebaseToken], [GET /api/get-auth-url], the
    OAuth callback [GET /api/callback] with the merge-write of the
    credential record, and the first version of that callback in
    [src/index.js]; and so are the turns in which one process serves
    several requests around its one OAuth client. *)

From Stdlib Require Import ZArith Ascii String List Bool Lia.
From stdpp Require Import base strings gmap list pretty.

Set Warnings "-register-all".
Local Open Scope Z_scope.

(** ** JavaScript values *)

Module Js.

(** Values as Firestore documents and JSON bodies deliver them.
    Numbers are restricted to the integers that a double holds
    exactly, up to 2^53 in magnitude (no NaN, no fractions). An
    object is its list of own properties, first binding wins. *)
Inductive JsVal : Type :=
| JUndefined
| JNull
| JBool (b : bool)
| JNum (n : Z)
| JStr (s : string)
| JArr (elems : list JsVal)
| JObj (fields : list (string * JsVal)).

(** What a [throw] carries. [TypeError] and [RangeError] are raised
    by the language itself; [ApiError] is a rejection coming from a
    collaborator, with the [code] and [message] properties that the
    handlers read. *)
Inductive Exn : Type :=
| TypeError
| RangeError
| ApiError (code : JsVal) (message : JsVal).

(** Pure computations that may throw. *)
Definition Result (A : Type) : Type := Exn + A.

Definition ok {A} (a : A) : Result A := inr a.
Definition throw {A} (e : Exn) : Result A := inl e.

#[export] Instance result_ret : MRet Result := fun _ a => inr a.
#[export] Instance result_bind : MBind Result := fun _ _ f m =>
  match m with
  | inl e => inl e
  | inr a => f a
  end.

(** ToBoolean *)
Definition to_boolean (v : JsVal) : bool :=
  match v with
  | JUndefined | JNull => false
  | JBool b => b
  | JNum n => negb (n =? 0)
  | JStr s => negb (String.eqb s "")
  | JArr _ | JObj _ => true
  end.

(** ToString, as a template literal applies it. A number is written
    with all its digits, as JavaScript writes the integers up to 2^53
    in magnitude; beyond them, which [JNum] is not meant for, it
    rounds, and from 10^21 on it writes an exponent. *)
Fixpoint to_string (v : JsVal) : string :=
  match v with
  | JUndefined => "undefined"
  | JNull => "null"
  | JBool true => "true"
  | JBool false => "false"
  | JNum n => pretty n
  | JStr s => s
  | JArr elems =>
      let elem x :=
        match x with
        | JUndefined | JNull => ""
        | _ => to_string x
        end in
      (fix join (l : list JsVal) : string :=
         match l with
         | [] => ""
         | [x] => elem x
         | x :: r => elem x +:+ "," +:+ join r
         end) elems
  | JObj _ => "[object Object]"
  end.

(** [a || b] and [!a] *)
Definition js_or (a b : JsVal) : JsVal := if to_boolean a then a else b.
Definition js_not (a : JsVal) : bool := negb (to_boolean a).

Fixpoint lookup_field (fields : list (string * JsVal)) (name : string) : JsVal :=
  match fields with
  | [] => JUndefined
  | (k, v) :: rest => if String.eqb k name then v else lookup_field rest name
  end.

(** Property read [v.name], for the data property names the handlers
    use (none of them lives on a prototype): reading from [undefined]
    or [null] throws, reading from any other non-object gives
    [undefined]. *)
Definition get (v : JsVal) (name : string) : Result JsVal :=
  match v with
  | JUndefined | JNull => throw TypeError
  | JObj fields => ok (lookup_field fields name)
  | _ => ok JUndefined
  end.

(** [e.code], [e.message] of a caught error. *)
Definition exn_code (e : Exn) : JsVal :=
  match e with
  | ApiError code _ => code
  | _ => JUndefined
  end.

(** [v === n] for a number literal [n]. *)
Definition strict_eq_num (v : JsVal) (n : Z) : bool :=
  match v with
  | JNum m => m =? n
  | _ => false
  end.

(** [v === s] for a string [s]. *)
Definition strict_eq_str (v : JsVal) (s : string) : bool :=
  match v with
  | JStr t => String.eqb t s
  | _ => false
  end.

End Js.
Export Js.

(** ** The regular expression [/[^a-zA-Z0-9]/g] *)

Module Regex.

(** A character class: inclusive ranges, possibly negated. *)
Record CharClass : Type := mkClass {
  negated : bool;
  ranges : list (ascii * ascii)
}.

Definition in_range (c : ascii) (r : ascii * ascii) : bool :=
  Ascii.leb (fst r) c && Ascii.leb c (snd r).

Definition class_matches (cls : CharClass) (c : ascii) : bool :=
  xorb (negated cls) (existsb (in_range c) (ranges cls)).

(** [s.replace(/cls/g, by)]: every character matching the class is
    replaced, left to right. *)
Fixpoint replace_all (cls : CharClass) (by_ : string) (s : string) : string :=
  match s with
  | EmptyString => EmptyString
  | String c rest =>
      if class_matches cls c
      then by_ +:+ replace_all cls by_ rest
      else String c (replace_all cls by_ rest)
  end.

(** [[^a-zA-Z0-9]] *)
Definition not_alnum : CharClass :=
  mkClass true [("a"%char, "z"%char); ("A"%char, "Z"%char); ("0"%char, "9"%char)].

(** [v.replace(re, by)] on a dynamic value: only strings have the
    method ([undefined.replace], [(5).replace(...)] throw). *)
Definition replace (v : JsVal) (cls : CharClass) (by_ : string) : Result string :=
  match v with
  | JStr s => ok (replace_all cls by_ s)
  | _ => throw TypeError
  end.

End Regex.

(** ** [Date]: parsing and [toISOString] *)

Module JsDate.

(** Fields read from a string in the ECMAScript date-time string format
    [YYYY[-MM[-DD]][THH:mm[:ss[.sss]][Z|±HH:mm]]] (also [±YYYYYY] years),
    with what V8, the engine under Node.js, takes besides in that
    format: [t] and [z] in lower case, an offset written [±HHmm], any
    number of digits after the decimal point.
    [time_part] tells a date-time form from a date-only form, [offset]
    is the UTC offset in minutes when the string carries one. *)
Record Fields : Type := mkFields {
  year : Z; month : Z; day : Z;
  time_part : bool;
  hour : Z; minute : Z; second : Z; millis : Z;
  offset : option Z
}.

Definition digit_of (c : ascii) : option Z :=
  if Ascii.leb "0" c && Ascii.leb c "9"
  then Some (Z.of_nat (nat_of_ascii c) - 48)
  else None.

(** Exactly [n] decimal digits. *)
Fixpoint read_digits (n : nat) (acc : Z) (cs : list ascii) : option (Z * list ascii) :=
  match n with
  | O => Some (acc, cs)
  | S n' =>
      match cs with
      | c :: rest =>
          match digit_of c with
          | Some d => read_digits n' (10 * acc + d) rest
          | None => None
          end
      | [] => None
      end
  end.

(** A run of digits as V8's scanner reads it: leading zeros are
    skipped and the next nine digits make the number, whatever
    follows them; the length is that of the whole run. *)
Fixpoint skip_zeros (len : nat) (cs : list ascii) : nat * list ascii :=
  match cs with
  | "0"%char :: rest => skip_zeros (S len) rest
  | _ => (len, cs)
  end.

Fixpoint read_significant (taken len : nat) (acc : Z) (cs : list ascii)
    : Z * nat * list ascii :=
  match cs with
  | c :: rest =>
      match digit_of c with
      | Some d =>
          read_significant (S taken) (S len)
            (if (taken <? 9)%nat then 10 * acc + d else acc) rest
      | None => (acc, len, cs)
      end
  | [] => (acc, len, cs)
  end.

Definition read_numeral (cs : list ascii) : Z * nat * list ascii :=
  let (len, rest) := skip_zeros 0 cs in read_significant 0 len 0 rest.

(** The milliseconds of the digits after the decimal point of the
    seconds, a run of [len] digits that reads as [number]: V8 takes
    any number of digits and keeps three. *)
Definition milliseconds (number : Z) (len : nat) : Z :=
  match len with
  | 1%nat => number * 100
  | 2%nat => number * 10
  | 3%nat => number
  | _ => number / 10 ^ (Z.of_nat (Nat.min len 9) - 3)
  end.

Definition read_year (cs : list ascii) : option (Z * list ascii) :=
  match cs with
  | "+"%char :: rest => read_digits 6 0 rest
  | "-"%char :: rest =>
      match read_digits 6 0 rest with
      | Some (0, _) => None
      | Some (y, rest') => Some (- y, rest')
      | None => None
      end
  | _ => read_digits 4 0 cs
  end.

(** [-NN], when the input goes on with a hyphen. *)
Definition read_dash2 (default : Z) (cs : list ascii) : option (bool * Z * list ascii) :=
  match cs with
  | "-"%char :: rest =>
      match read_digits 2 0 rest with
      | Some (v, rest') => Some (true, v, rest')
      | None => None
      end
  | _ => Some (false, default, cs)
  end.

(** The zone: nothing (local time), [Z], or a signed offset written
    [HH:mm] or, as V8 also takes it, [HHmm]; V8 reads the letters [T]
    and [Z] in either case. The result is the offset in minutes. *)
Definition signed_offset (sign : ascii) (h m : Z) : option (option Z) :=
  if (h <=? 23) && (m <=? 59)
  then Some (Some ((if Ascii.eqb sign "-" then -1 else 1) * (60 * h + m)))
  else None.

Definition read_offset (cs : list ascii) : option (option Z) :=
  match cs with
  | [] => Some None
  | [c] => if Ascii.eqb c "Z" || Ascii.eqb c "z" then Some (Some 0) else None
  | sign :: rest =>
      if Ascii.eqb sign "+" || Ascii.eqb sign "-" then
        match read_digits 4 0 rest with
        | Some (hm, []) => signed_offset sign (hm / 100) (hm mod 100)
        | Some (_, _ :: _) => None
        | None =>
            match read_digits 2 0 rest with
            | Some (h, ":"%char :: rest') =>
                match read_digits 2 0 rest' with
                | Some (m, []) => signed_offset sign h m
                | _ => None
                end
            | _ => None
            end
        end
      else None
  end.

(** [:ss[.sss]]: the seconds, the milliseconds, and the number the
    digits after the point read as. *)
Definition read_seconds (cs : list ascii) : option (Z * Z * Z * list ascii) :=
  match cs with
  | ":"%char :: rest =>
      match read_digits 2 0 rest with
      | Some (s, "."%char :: c :: rest') =>
          match digit_of c with
          | Some _ =>
              let '(number, len, rest'') := read_numeral (c :: rest') in
              Some (s, milliseconds number len, number, rest'')
          | None => None
          end
      | Some (s, rest') => Some (s, 0, 0, rest')
      | None => None
      end
  | _ => Some (0, 0, 0, cs)
  end.

(** Hour 24 stands for the end of the day and goes with zeros only. *)
Definition valid_time (h mi s fraction : Z) : bool :=
  ((h <=? 23) || ((h =? 24) && (mi =? 0) && (s =? 0) && (fraction =? 0)))
  && (mi <=? 59) && (s <=? 59).

Definition read_time (y mo d : Z) (cs : list ascii) : option Fields :=
  match cs with
  | [] => Some (mkFields y mo d false 0 0 0 0 None)
  | c :: rest =>
      if Ascii.eqb c "T" || Ascii.eqb c "t" then
        match read_digits 2 0 rest with
        | Some (h, ":"%char :: rest1) =>
            match read_digits 2 0 rest1 with
            | Some (mi, rest2) =>
                match read_seconds rest2 with
                | Some (s, ms, fraction, rest3) =>
                    match read_offset rest3 with
                    | Some off =>
                        if valid_time h mi s fraction
                        then Some (mkFields y mo d true h mi s ms off)
                        else None
                    | None => None
                    end
                | None => None
                end
            | None => None
            end
        | _ => None
        end
      else None
  end.

(** The whole format. Month 01..12 and day 01..31 are checked here; a
    day past the end of its month is carried into the next month by
    [make_day], as V8 (the engine under Node.js) does. *)
Definition read_fields (cs : list ascii) : option Fields :=
  match read_year cs with
  | Some (y, rest) =>
      match read_dash2 1 rest with
      | Some (has_month, mo, rest1) =>
          match (if has_month then read_dash2 1 rest1 else Some (false, 1, rest1)) with
          | Some (_, d, rest2) =>
              if (1 <=? mo) && (mo <=? 12) && (1 <=? d) && (d <=? 31)
              then read_time y mo d rest2
              else None
          | None => None
          end
      | None => None
      end
  | None => None
  end.

(** Days since 1970-01-01 of a proleptic Gregorian date. *)
Definition make_day (y mo d : Z) : Z :=
  let y' := if mo <=? 2 then y - 1 else y in
  let era := y' / 400 in
  let yoe := y' - era * 400 in
  let mp := (mo + 9) mod 12 in
  let doy := (153 * mp + 2) / 5 + d - 1 in
  let doe := yoe * 365 + yoe / 4 - yoe / 100 + doy in
  era * 146097 + doe - 719468.

Definition ms_per_day : Z := 86400000.

Definition make_time (h mi s ms : Z) : Z :=
  h * 3600000 + mi * 60000 + s * 1000 + ms.

(** The inverse of [make_day]: year, month and day of a day number. *)
Definition civil_of_day (z : Z) : Z * Z * Z :=
  let z' := z + 719468 in
  let era := z' / 146097 in
  let doe := z' - era * 146097 in
  let yoe := (doe - doe / 1460 + doe / 36524 - doe / 146096) / 365 in
  let doy := doe - (365 * yoe + yoe / 4 - yoe / 100) in
  let mp := (5 * doy + 2) / 153 in
  let d := doy - (153 * mp + 2) / 5 + 1 in
  let mo := if mp <? 10 then mp + 3 else mp - 9 in
  let y := yoe + era * 400 in
  ((if mo <=? 2 then y + 1 else y), mo, d).

(** TimeClip *)
Definition time_clip (t : Z) : option Z :=
  if Z.abs t <=? 8640000000000000 then Some t else None.

(** [Date.parse]: the time value (milliseconds since the epoch, UTC) or
    [None] for NaN. [tza] is the host's local time zone adjustment: the
    offset from UTC, in milliseconds, in force at a given local time.
    A date-time form without offset is local time, a date-only form is
    UTC. Outside the format ECMA-262 leaves the result to the engine.
    V8 answers NaN once it has read the date and the [T] of the format
    and cannot go on, and so does the model; for a text that leaves the
    format before that, V8 tries its older, looser reading, which the
    model does not follow: it answers NaN there. *)
Definition parse (tza : Z -> Z) (s : string) : option Z :=
  match read_fields (list_ascii_of_string s) with
  | Some f =>
      let t := make_day (year f) (month f) (day f) * ms_per_day
               + make_time (hour f) (minute f) (second f) (millis f) in
      match offset f with
      | Some off => time_clip (t - off * 60000)
      | None => if time_part f then time_clip (t - tza t) else time_clip t
      end
  | None => None
  end.

(** Decimal digits of [n], left-padded with zeros to [width]. *)
Definition pad (width : nat) (n : Z) : string :=
  let digits := pretty (Z.to_N n) in
  string_of_list_ascii (repeat "0"%char (width - String.length digits)) +:+ digits.

Definition iso_year (y : Z) : string :=
  if (0 <=? y) && (y <=? 9999) then pad 4 y
  else (if y <? 0 then "-" else "+") +:+ pad 6 (Z.abs y).

(** [Date.prototype.toISOString] of a valid time value. *)
Definition iso_of_time (t : Z) : string :=
  let '(y, mo, d) := civil_of_day (t / ms_per_day) in
  let r := t mod ms_per_day in
  iso_year y +:+ "-" +:+ pad 2 mo +:+ "-" +:+ pad 2 d +:+ "T"
  +:+ pad 2 (r / 3600000) +:+ ":" +:+ pad 2 (r / 60000 mod 60) +:+ ":"
  +:+ pad 2 (r / 1000 mod 60) +:+ "." +:+ pad 3 (r mod 1000) +:+ "Z".

(** [new Date(s).toISOString()]: a [RangeError] on an invalid date. *)
Definition new_Date_toISOString (tza : Z -> Z) (s : string) : Result string :=
  match parse tza s with
  | Some t => ok (iso_of_time t)
  | None => throw RangeError
  end.

(** [civil_of_day] undoes [make_day] on the [n] days from [z] on. *)
Fixpoint days_agree (n : nat) (z : Z) : bool :=
  match n with
  | O => true
  | S n' =>
      (let '(y, mo, d) := civil_of_day z in make_day y mo d =? z)
      && days_agree n' (z + 1)
  end.

End JsDate.

(** ** Collaborators: what the handlers exchange with them *)

Module Calendar.

Record EventTime : Type := mkEventTime {
  dateTime : string;
  timeZone : string
}.

(** The [resource] of [calendar.events.insert]. *)
Record CalEvent : Type := mkCalEvent {
  summary : JsVal;
  description : string;
  start : EventTime;
  end_ : EventTime;
  id : string
}.

End Calendar.
Export Calendar.

Module Firestore.

(** A reference is the list of its path segments, collections and
    documents alternating: [users/u1/settings/integrations] is
    [["users"; "u1"; "settings"; "integrations"]]. *)
Definition Ref : Type := list string.

(** [ref.parent]: [null] at the root. *)
Definition parent (r : Ref) : option Ref :=
  match r with
  | [] | [_] => None
  | _ => Some (removelast r)
  end.

(** [ref.id] *)
Definition ref_id (r : Ref) : string := List.last r ""%string.

Definition is_slash (c : ascii) : bool := Ascii.eqb c "/".

(** What stands between the slashes of a path. *)
Fixpoint split_slash (cur : list ascii) (cs : list ascii) : list (list ascii) :=
  match cs with
  | [] => [rev cur]
  | c :: rest =>
      if is_slash c then rev cur :: split_slash [] rest
      else split_slash (c :: cur) rest
  end.

Fixpoint has_double_slash (cs : list ascii) : bool :=
  match cs with
  | a :: (b :: _) as rest => (is_slash a && is_slash b) || has_double_slash rest
  | _ => false
  end.

(** The paths [db.doc(path)] takes: a string that is not empty, has no
    [//], and has an even number of segments, so that it names a
    document and not a collection. On any other path the call throws. *)
Definition document_path (path : string) : bool :=
  let cs := list_ascii_of_string path in
  negb (String.eqb path "") && negb (has_double_slash cs)
  && Nat.even (length (List.filter (fun seg => negb (Nat.eqb (length seg) 0))
                                   (split_slash [] cs))).

(** The identifiers the store takes for a document: not empty, at
    most 1500 bytes, without a slash, neither [.] nor [..], and not of
    the form [__..__]. *)
Definition document_id (id : string) : bool :=
  let cs := list_ascii_of_string id in
  negb (String.eqb id "") && (length cs <=? 1500)%nat
  && forallb (fun c => negb (is_slash c)) cs
  && negb (String.eqb id ".") && negb (String.eqb id "..")
  && negb ((4 <=? length cs)%nat
           && match cs with
              | a :: b :: _ => Ascii.eqb a "_" && Ascii.eqb b "_"
              | _ => false
              end
           && match rev cs with
              | a :: b :: _ => Ascii.eqb a "_" && Ascii.eqb b "_"
              | _ => false
              end).

End Firestore.

Module Http.

Record Response : Type := mkResponse {
  status : Z;
  body : string
}.

(** The second argument of [fetch]. *)
Record FetchInit : Type := mkFetchInit {
  method : string;
  headers : list (string * string);
  fetch_body : string
}.

Definition hex_digit (n : N) : ascii :=
  match n with
  | 0%N => "0" | 1%N => "1" | 2%N => "2" | 3%N => "3" | 4%N => "4"
  | 5%N => "5" | 6%N => "6" | 7%N => "7" | 8%N => "8" | 9%N => "9"
  | 10%N => "a" | 11%N => "b" | 12%N => "c" | 13%N => "d" | 14%N => "e"
  | _ => "f"
  end%char.

(** JSON escape of one character of a string. *)
Definition json_escape (c : ascii) : string :=
  let n := N_of_ascii c in
  if (n =? 34)%N then String "\" (String (ascii_of_N 34) "")
  else if (n =? 92)%N then "\\"
  else if (n =? 8)%N then "\b"
  else if (n =? 12)%N then "\f"
  else if (n =? 10)%N then "\n"
  else if (n =? 13)%N then "\r"
  else if (n =? 9)%N then "\t"
  else if (n <? 32)%N
       then "\u00" +:+ String (hex_digit (n / 16)) (String (hex_digit (n mod 16)) "")
  else String c "".

Fixpoint json_chars (s : string) : string :=
  match s with
  | EmptyString => EmptyString
  | String c rest => json_escape c +:+ json_chars rest
  end.

(** [JSON.stringify(s)] of a string *)
Definition json_string (s : string) : string :=
  String (ascii_of_N 34) (json_chars s) +:+ String (ascii_of_N 34) "".

Definition hex_value (c : ascii) : N :=
  let n := N_of_ascii c in
  if (48 <=? n)%N && (n <=? 57)%N then (n - 48)%N
  else if (97 <=? n)%N && (n <=? 102)%N then (n - 87)%N
  else if (65 <=? n)%N && (n <=? 70)%N then (n - 55)%N
  else 0%N.

(** The character a two-character escape stands for. *)
Definition unescape_letter (k : ascii) : ascii :=
  if Ascii.eqb k "b" then ascii_of_N 8
  else if Ascii.eqb k "f" then ascii_of_N 12
  else if Ascii.eqb k "n" then ascii_of_N 10
  else if Ascii.eqb k "r" then ascii_of_N 13
  else if Ascii.eqb k "t" then ascii_of_N 9
  else k.

(** The characters of a JSON string read back, as the body parser of
    the receiving handler does. *)
Fixpoint json_unescape (s : string) : string :=
  match s with
  | EmptyString => EmptyString
  | String c rest =>
      if Ascii.eqb c "\" then
        match rest with
        | EmptyString => EmptyString
        | String k rest' =>
            if Ascii.eqb k "u" then
              match rest' with
              | String _ (String _ (String h1 (String h0 rest''))) =>
                  String (ascii_of_N (16 * hex_value h1 + hex_value h0))
                         (json_unescape rest'')
              | _ => EmptyString
              end
            else String (unescape_letter k) (json_unescape rest')
        end
      else String c (json_unescape rest)
  end.

End Http.
Export Http.

(** ** Handler programs *)

Module Effects.

(** A pending [fetch], numbered in the order of creation. *)
Definition Promise : Type := nat.

(** The calls a handler makes, indexed by what they answer.
    [await f(..)] is one call whose answer is the settled value (a
    rejection is an [inl]); [fetch(..)] that is not awaited answers
    with the promise alone, and only [Await] looks at how a promise
    settled. *)
Inductive Call : Type -> Type :=
| DocGet (path : string) : Call (option (list (string * JsVal)))
| SettingsQuery : Call (list Firestore.Ref)
| SetCredentials (tokens : JsVal) : Call unit
| EventsInsert (calendarId : string) (resource : CalEvent) : Call (Result unit)
| ConsoleError (prefix : string) (e : Exn) : Call unit
| ConsoleLog (line : string) : Call unit
| Fetch (url : string) (init : FetchInit) : Call Promise
| Await (p : Promise) : Call (Result JsVal).

Inductive Prog (R : Type) : Type :=
| Ret (r : R)
| Throw (e : Exn)
| Vis (A : Type) (c : Call A) (k : A -> Prog R).

Arguments Ret {R} r.
Arguments Throw {R} e.
Arguments Vis {R A} c k.

Fixpoint bind {A B} (p : Prog A) (f : A -> Prog B) : Prog B :=
  match p with
  | Ret a => f a
  | Throw e => Throw e
  | Vis c k => Vis c (fun x => bind (k x) f)
  end.

#[export] Instance prog_ret : MRet Prog := fun _ a => Ret a.
#[export] Instance prog_bind : MBind Prog := fun _ _ f p => bind p f.

Definition call {A} (c : Call A) : Prog A := Vis c Ret.

(** A pure computation inside a handler. *)
Definition lift {A} (r : Result A) : Prog A :=
  match r with
  | inl e => Throw e
  | inr a => Ret a
  end.

(** [await c] *)
Definition await {A} (c : Call (Result A)) : Prog A :=
  Vis c lift.

(** [try { p } catch (e) { h e }] *)
Fixpoint try_catch {R} (p : Prog R) (h : Exn -> Prog R) : Prog R :=
  match p with
  | Ret r => Ret r
  | Throw e => h e
  | Vis c k => Vis c (fun x => try_catch (k x) h)
  end.

(** What an observer of the process sees, in order. *)
Inductive Effect : Type :=
| EGet (path : string)
| EQuery
| ESetCredentials (tokens : JsVal)
| EInsert (calendarId : string) (resource : CalEvent) (answer : Result unit)
| EConsoleError (prefix : string) (e : Exn)
| EConsoleLog (line : string)
| EFetch (url : string) (init : FetchInit) (p : Promise)
| EAwait (p : Promise).

Inductive Outcome (R : Type) : Type :=
| Returned (r : R)
| Threw (e : Exn)
| Stuck.

Arguments Returned {R} r.
Arguments Threw {R} e.
Arguments Stuck {R}.

Section Run.

(** The calendar provider: any state machine answering an insert. *)
Context {CalState : Type}.
Context (events_insert : CalState -> string -> CalEvent -> Result unit * CalState).

Record World : Type := mkWorld {
  docs : gmap string (list (string * JsVal));
  settings_hits : list Firestore.Ref;
  cal : CalState;
  settle : Promise -> option (Result JsVal);
  next_promise : Promise;
  trace : list Effect
}.

Definition emit (ev : Effect) (w : World) : World :=
  mkWorld (docs w) (settings_hits w) (cal w) (settle w) (next_promise w)
          (trace w ++ [ev]).

Definition set_cal (c : CalState) (w : World) : World :=
  mkWorld (docs w) (settings_hits w) c (settle w) (next_promise w) (trace w).

Definition fresh_promise (w : World) : World :=
  mkWorld (docs w) (settings_hits w) (cal w) (settle w) (S (next_promise w))
          (trace w).

(** One call against the world; [None] when the handler waits on a
    promise that never settles. A read is made at the path as given
    and does not fail: [db.doc] throws on a path that names no
    document ([Firestore.document_path]), which is not followed here,
    so a run is that of the code for a user whose id the store takes
    ([Firestore.document_id]). *)
Definition perform {A} (c : Call A) (w : World) : option A * World :=
  match c in Call T return option T * World with
  | DocGet path => (Some (docs w !! path), emit (EGet path) w)
  | SettingsQuery => (Some (settings_hits w), emit EQuery w)
  | SetCredentials tokens => (Some tt, emit (ESetCredentials tokens) w)
  | EventsInsert calendarId resource =>
      let (answer, c') := events_insert (cal w) calendarId resource in
      (Some answer, emit (EInsert calendarId resource answer) (set_cal c' w))
  | ConsoleError prefix e => (Some tt, emit (EConsoleError prefix e) w)
  | ConsoleLog line => (Some tt, emit (EConsoleLog line) w)
  | Fetch url init =>
      (Some (next_promise w), emit (EFetch url init (next_promise w)) (fresh_promise w))
  | Await p => (settle w p, emit (EAwait p) w)
  end.

Fixpoint run {R} (p : Prog R) (w : World) : Outcome R * World :=
  match p with
  | Ret r => (Returned r, w)
  | Throw e => (Threw e, w)
  | Vis c k =>
      match perform c w with
      | (Some a, w') => run (k a) w'
      | (None, w') => (Stuck, w')
      end
  end.

End Run.

Arguments World CalState : clear implicits.

End Effects.
Export Effects.

(** ** The handlers of [src/api/index.js] *)

Module Api.

(** The process environment. [local_tza] is the host's time zone (see
    [JsDate.parse]); the two variables are [process.env] entries,
    [JUndefined] when unset. *)
Record Host : Type := mkHost {
  local_tza : Z -> Z;
  CRON_SECRET : JsVal;
  VERCEL_URL : JsVal
}.

(** *** [POST /api/sync-calendar] *)

(** The callback of [allTasks.filter]:
    [task.startTime && task.endTime && !task.completed], converted to
    a boolean by [filter]. *)
Definition is_eligible (task : JsVal) : Result bool :=
  startTime ← get task "startTime";
  if to_boolean startTime then
    endTime ← get task "endTime";
    if to_boolean endTime then
      completed ← get task "completed";
      mret (js_not completed)
    else mret false
  else mret false.

(** [Array.prototype.filter] with a callback that may throw. *)
Fixpoint filter_list (cb : JsVal -> Result bool) (l : list JsVal) : Result (list JsVal) :=
  match l with
  | [] => mret []
  | x :: rest =>
      keep ← cb x;
      rest' ← filter_list cb rest;
      mret (if (keep : bool) then x :: rest' else rest')
  end.

(** [v.filter(cb)]: only arrays have the method. *)
Definition array_filter (cb : JsVal -> Result bool) (v : JsVal) : Result (list JsVal) :=
  match v with
  | JArr elems => filter_list cb elems
  | _ => throw TypeError
  end.

(** [tasksDoc.data().list || []] filtered. *)
Definition tasksToSync (data : list (string * JsVal)) : Result (list JsVal) :=
  list_ ← get (JObj data) "list";
  let allTasks := js_or list_ (JArr []) in
  array_filter is_eligible allTasks.

(** [`momentum${task.id.replace(/[^a-zA-Z0-9]/g, "")}`] *)
Definition eventId (task : JsVal) : Result string :=
  id ← get task "id";
  stripped ← Regex.replace id Regex.not_alnum "";
  mret ("momentum" +:+ stripped).

(** [{ dateTime: new Date(`${task.dueDate}T${time}`).toISOString(),
       timeZone: "Asia/Kolkata" }] *)
Definition event_time (h : Host) (task : JsVal) (field : string) : Result EventTime :=
  dueDate ← get task "dueDate";
  time ← get task field;
  iso ← JsDate.new_Date_toISOString (local_tza h)
          (to_string dueDate +:+ "T" +:+ to_string time);
  mret (mkEventTime iso "Asia/Kolkata").

(** The [event] object built for one task, fields in source order. *)
Definition to_event (h : Host) (task : JsVal) : Result CalEvent :=
  eid ← eventId task;
  text ← get task "text";
  category ← get task "category";
  start_ ← event_time h task "startTime";
  end' ← event_time h task "endTime";
  mret (mkCalEvent text
          ("Synced from Momentum: " +:+ to_string (js_or category (JStr "Normal")) +:+ " Task")
          start_ end' eid).

(** The [catch (e)] of one insert. *)
Definition on_insert_error (task : JsVal) (syncedCount : Z) (e : Exn) : Prog Z :=
  if strict_eq_num (exn_code e) 409 then mret syncedCount
  else
    id ← lift (get task "id");
    call (ConsoleError ("Error syncing task " +:+ to_string id +:+ ":") e);;
    mret syncedCount.

(** [for (const task of tasksToSync) { ... }], threading [syncedCount]. *)
Fixpoint sync_loop (h : Host) (tasks : list JsVal) (syncedCount : Z) : Prog Z :=
  match tasks with
  | [] => mret syncedCount
  | task :: rest =>
      event ← lift (to_event h task);
      syncedCount' ←
        try_catch
          (await (EventsInsert "primary" event);;
           mret (syncedCount + 1))
          (on_insert_error task syncedCount);
      sync_loop h rest syncedCount'
  end.

Definition integrations_path (uid : JsVal) : string :=
  "users/" +:+ to_string uid +:+ "/settings/integrations".

Definition tasks_path (uid : JsVal) : string :=
  "users/" +:+ to_string uid +:+ "/data/tasks".

(** The [try] block of the handler. *)
Definition sync_calendar_body (h : Host) (uid : JsVal) : Prog Response :=
  tokenDoc ← call (DocGet (integrations_path uid));
  match tokenDoc with
  | None => mret (mkResponse 404 "User has not connected Google Calendar.")
  | Some tokenData =>
      tokens ← lift (get (JObj tokenData) "googleCalendar");
      if negb (to_boolean tokens)
      then mret (mkResponse 404 "User has not connected Google Calendar.")
      else
        call (SetCredentials tokens);;
        tasksDoc ← call (DocGet (tasks_path uid));
        match tasksDoc with
        | None => mret (mkResponse 200 "No tasks to sync.")
        | Some data =>
            tasks ← lift (tasksToSync data);
            syncedCount ← sync_loop h tasks 0;
            mret (mkResponse 200
                    ("Sync complete for " +:+ to_string uid +:+ ". "
                     +:+ pretty syncedCount +:+ " new events created."))
        end
  end.

(** [app.post("/api/sync-calendar", ...)], with [uid] the [uid]
    property of the request body. *)
Definition sync_calendar (h : Host) (uid : JsVal) : Prog Response :=
  if negb (to_boolean uid) then mret (mkResponse 400 "No user ID provided.")
  else
    try_catch (sync_calendar_body h uid)
      (fun error =>
         call (ConsoleError ("Sync failed for " +:+ to_string uid +:+ ":") error);;
         mret (mkResponse 500 "Sync failed.")).

(** *** [GET /api/sync-all-users] *)

(** [doc.ref.parent.parent.id] *)
Definition owner_id (ref : Firestore.Ref) : Result string :=
  match Firestore.parent ref with
  | None => throw TypeError
  | Some collection =>
      match Firestore.parent collection with
      | None => throw TypeError
      | Some user => mret (Firestore.ref_id user)
      end
  end.

(** [snapshot.docs.map(doc => doc.ref.parent.parent.id)] *)
Fixpoint map_owner_id (refs : list Firestore.Ref) : Result (list string) :=
  match refs with
  | [] => mret []
  | ref :: rest =>
      uid ← owner_id ref;
      uids ← map_owner_id rest;
      mret (uid :: uids)
  end.

(** [Set.prototype.add] on a set kept in insertion order. *)
Definition set_add (s : list string) (x : string) : list string :=
  if decide (x ∈ s) then s else s ++ [x].

(** [[...new Set(userIds)]] *)
Definition spread_new_Set (userIds : list string) : list string :=
  fold_left set_add userIds [].

Definition sync_url (h : Host) : string :=
  to_string (VERCEL_URL h) +:+ "/api/sync-calendar".

(** [{ method: "POST", headers: {...}, body: JSON.stringify({ uid: uid }) }] *)
Definition trigger_init (uid : string) : FetchInit :=
  mkFetchInit "POST" [("Content-Type", "application/json")]
    ("{" +:+ json_string "uid" +:+ ":" +:+ json_string uid +:+ "}").

(** [for (const uid of uniqueUserIds) { fetch(...); }] *)
Fixpoint trigger_all (h : Host) (uniqueUserIds : list string) : Prog unit :=
  match uniqueUserIds with
  | [] => mret tt
  | uid :: rest =>
      call (Fetch (sync_url h) (trigger_init uid));;
      trigger_all h rest
  end.

(** The loop as it would read with [await fetch(...)]; the handler
    does not use it, it is the yardstick for what not awaiting means. *)
Fixpoint trigger_all_awaiting (h : Host) (uniqueUserIds : list string) : Prog unit :=
  match uniqueUserIds with
  | [] => mret tt
  | uid :: rest =>
      p ← call (Fetch (sync_url h) (trigger_init uid));
      await (Await p);;
      trigger_all_awaiting h rest
  end.

Definition users_line (prefix : string) (n : nat) (suffix : string) : string :=
  prefix +:+ pretty n +:+ suffix.

Definition sync_all_users_body
    (trigger : Host -> list string -> Prog unit) (h : Host) : Prog Response :=
  refs ← call SettingsQuery;
  match refs with
  | [] => mret (mkResponse 200 "No users to sync.")
  | _ =>
      userIds ← lift (map_owner_id refs);
      let uniqueUserIds := spread_new_Set userIds in
      call (ConsoleLog (users_line "CRON: Found " (length uniqueUserIds) " users to sync."));;
      trigger h uniqueUserIds;;
      mret (mkResponse 200
              (users_line "Sync triggered for " (length uniqueUserIds) " users."))
  end.

Definition sync_all_users_with
    (trigger : Host -> list string -> Prog unit)
    (h : Host) (authorization : JsVal) : Prog Response :=
  if negb (strict_eq_str authorization ("Bearer " +:+ to_string (CRON_SECRET h)))
  then mret (mkResponse 401 "Unauthorized")
  else
    try_catch (sync_all_users_body trigger h)
      (fun error =>
         call (ConsoleError "Cron job failed:" error);;
         mret (mkResponse 500 "Cron job failed")).

(** [app.get("/api/sync-all-users", ...)], with [authorization] the
    request header of that name. *)
Definition sync_all_users : Host -> JsVal -> Prog Response :=
  sync_all_users_with trigger_all.

End Api.
Export Api.

(** ** Calendar providers to run the handlers against *)

Module Providers.

(** A calendar that keeps what it is given and refuses an identifier it
    already holds with a 409 conflict. *)
Definition mem_insert (events : gmap string CalEvent) (calendarId : string)
    (resource : CalEvent) : Result unit * gmap string CalEvent :=
  match events !! id resource with
  | Some _ =>
      (throw (ApiError (JNum 409) (JStr "The requested identifier already exists.")),
       events)
  | None => (ok tt, <[id resource := resource]> events)
  end.

(** A provider that plays back a list of answers, one per insert, and
    accepts once the list is used up. *)
Definition scripted_insert (answers : list (Result unit)) (calendarId : string)
    (resource : CalEvent) : Result unit * list (Result unit) :=
  match answers with
  | [] => (ok tt, [])
  | a :: rest => (a, rest)
  end.

End Providers.

(** ** Reading a trace *)

Module Trace.

Definition insert_of (ev : Effect) : option (CalEvent * Result unit) :=
  match ev with
  | EInsert _ resource answer => Some (resource, answer)
  | _ => None
  end.

(** The insert attempts of a trace, each with its answer. *)
Definition inserts (tr : list Effect) : list (CalEvent * Result unit) :=
  omap insert_of tr.

Definition console_error_of (ev : Effect) : option (string * Exn) :=
  match ev with
  | EConsoleError prefix e => Some (prefix, e)
  | _ => None
  end.

(** What was written with [console.error]. *)
Definition console_errors (tr : list Effect) : list (string * Exn) :=
  omap console_error_of tr.

Definition read_of (ev : Effect) : option string :=
  match ev with
  | EGet path => Some path
  | _ => None
  end.

(** The document paths read. *)
Definition reads (tr : list Effect) : list string := omap read_of tr.

Definition fetch_of (ev : Effect) : option (string * FetchInit) :=
  match ev with
  | EFetch url init _ => Some (url, init)
  | _ => None
  end.

(** The [fetch] calls issued. *)
Definition fetches (tr : list Effect) : list (string * FetchInit) :=
  omap fetch_of tr.

Definition is_await (ev : Effect) : bool :=
  match ev with
  | EAwait _ => true
  | _ => false
  end.

End Trace.

(** ** Vocabulary of the statements *)

Module Spec.

(** [v.name] when the read does not throw. *)
Definition field (v : JsVal) (name : string) : JsVal :=
  match get v name with
  | inr x => x
  | inl _ => JUndefined
  end.

Definition is_object (v : JsVal) : Prop := ∃ fields, v = JObj fields.

(** The specification's [sanitize]: the characters of [A-Za-z0-9], by
    their codes, are kept and every other character is dropped. *)
Definition is_alnum (c : ascii) : bool :=
  let n := N_of_ascii c in
  ((48 <=? n) && (n <=? 57) || (65 <=? n) && (n <=? 90)
   || (97 <=? n) && (n <=? 122))%N.

Definition sanitize (s : string) : string :=
  string_of_list_ascii (List.filter is_alnum (list_ascii_of_string s)).

(** The specification's eligibility, read by presence: both times are
    properties of the task and [completed] is [false]. *)
Definition eligible_by_presence (task : JsVal) : Prop :=
  ∃ fields, task = JObj fields
    ∧ "startTime" ∈ fields.*1 ∧ "endTime" ∈ fields.*1
    ∧ lookup_field fields "completed" = JBool false.

(** Eligibility as the filter callback decides it: both times truthy
    (present and, for a string, not empty) and [completed] falsy
    ([false] or absent). *)
Definition eligible (task : JsVal) : bool :=
  to_boolean (field task "startTime") && to_boolean (field task "endTime")
  && negb (to_boolean (field task "completed")).

(** A time that is absent or a non-empty string. *)
Definition time_or_absent (fields : list (string * JsVal)) (name : string) : Prop :=
  name ∉ fields.*1 ∨ ∃ s, lookup_field fields name = JStr s ∧ s ≠ ""%string.

(** The task of the data model, as far as the filter looks at it: an
    object whose times are absent or a time of day (a string that is
    not empty) and whose [completed] flag is a boolean. *)
Definition typed_task (task : JsVal) : Prop :=
  ∃ fields b, task = JObj fields
    ∧ time_or_absent fields "startTime" ∧ time_or_absent fields "endTime"
    ∧ lookup_field fields "completed" = JBool b.

(** A user of the data model: a string that the store takes as the id
    of the user's document. *)
Definition user_id (uid : JsVal) : Prop :=
  ∃ s, uid = JStr s ∧ Firestore.document_id s = true.

(** A due date written [YYYY-MM-DD]: year, month and day as written. *)
Definition date_text (s : string) : option (Z * Z * Z) :=
  match JsDate.read_digits 4 0 (list_ascii_of_string s) with
  | Some (y, "-"%char :: rest) =>
      match JsDate.read_digits 2 0 rest with
      | Some (mo, "-"%char :: rest') =>
          match JsDate.read_digits 2 0 rest' with
          | Some (d, []) => Some (y, mo, d)
          | _ => None
          end
      | _ => None
      end
  | _ => None
  end.

(** A time of day written [HH:MM]: hour and minute as written. *)
Definition clock_text (s : string) : option (Z * Z) :=
  match JsDate.read_digits 2 0 (list_ascii_of_string s) with
  | Some (h, ":"%char :: rest) =>
      match JsDate.read_digits 2 0 rest with
      | Some (m, []) => Some (h, m)
      | _ => None
      end
  | _ => None
  end.

(** Month 1 to 12 and day 1 to 31, whatever the month. *)
Definition in_calendar (date : Z * Z * Z) : bool :=
  let '(_, mo, d) := date in (1 <=? mo) && (mo <=? 12) && (1 <=? d) && (d <=? 31).

(** 00:00 to 23:59, and 24:00 for the end of the day. *)
Definition on_clock (time : Z * Z) : bool :=
  let (h, m) := time in ((h <=? 23) && (m <=? 59)) || ((h =? 24) && (m =? 0)).

(** The instant at which the host's clock shows the given date and
    time of day. *)
Definition local_instant (tza : Z -> Z) (date : Z * Z * Z) (time : Z * Z) : Z :=
  let '(y, mo, d) := date in
  let (h, m) := time in
  let t := JsDate.make_day y mo d * JsDate.ms_per_day + JsDate.make_time h m 0 0 in
  t - tza t.

(** A task with the scheduling fields of the data model: the due date
    written [YYYY-MM-DD], both times written [HH:MM] (the numbers may
    be any), and a category that is a string or absent. *)
Definition scheduled_task (task : JsVal) : Prop :=
  ∃ fields d s e,
    task = JObj fields
    ∧ lookup_field fields "dueDate" = JStr d ∧ is_Some (date_text d)
    ∧ lookup_field fields "startTime" = JStr s ∧ is_Some (clock_text s)
    ∧ lookup_field fields "endTime" = JStr e ∧ is_Some (clock_text e)
    ∧ (lookup_field fields "category" = JUndefined
       ∨ ∃ c, lookup_field fields "category" = JStr c).

(** A host whose clock is at most a day away from UTC, as every time
    zone is. *)
Definition zone_within_a_day (tza : Z -> Z) : Prop :=
  ∀ t, Z.abs (tza t) <= JsDate.ms_per_day.

(** An insert that created its event. *)
Definition accepted (answer : Result unit) : bool :=
  match answer with
  | inr _ => true
  | inl _ => false
  end.

(** A rejection with [code === 409]. *)
Definition conflict (answer : Result unit) : bool :=
  match answer with
  | inr _ => false
  | inl e => strict_eq_num (exn_code e) 409
  end.

(** The [console.error] entry an answer leaves for its task, if any. *)
Definition reported (task : JsVal) (answer : Result unit) : option (string * Exn) :=
  match answer with
  | inr _ => None
  | inl e =>
      if strict_eq_num (exn_code e) 409 then None
      else Some ("Error syncing task " +:+ to_string (field task "id") +:+ ":", e)
  end.

(** The effects of one pass through the loop body. *)
Definition attempt_effects (task : JsVal) (event : CalEvent) (answer : Result unit)
    : list Effect :=
  EInsert "primary" event answer ::
  match reported task answer with
  | Some (prefix, e) => [EConsoleError prefix e]
  | None => []
  end.

Section Play.

Context {CalState : Type}.
Context (events_insert : CalState -> string -> CalEvent -> Result unit * CalState).

(** The provider fed with the events in order: its answers and its
    final state. *)
Fixpoint play (c : CalState) (events : list CalEvent) : list (Result unit) * CalState :=
  match events with
  | [] => ([], c)
  | event :: rest =>
      let (answer, c') := events_insert c "primary" event in
      let (answers, c'') := play c' rest in
      (answer :: answers, c'')
  end.

Definition emit_all (evs : list Effect) (w : World CalState) : World CalState :=
  mkWorld (docs w) (settings_hits w) (cal w) (settle w) (next_promise w)
          (trace w ++ evs).

End Play.

Fixpoint loop_effects (tasks : list JsVal) (events : list CalEvent)
    (answers : list (Result unit)) : list Effect :=
  match tasks, events, answers with
  | task :: tasks', event :: events', answer :: answers' =>
      attempt_effects task event answer ++ loop_effects tasks' events' answers'
  | _, _, _ => []
  end.

(** The effect of each trigger, promises numbered from [p]. *)
Fixpoint trigger_effects (h : Host) (p : Promise) (uids : list string) : list Effect :=
  match uids with
  | [] => []
  | uid :: rest => EFetch (sync_url h) (trigger_init uid) p :: trigger_effects h (S p) rest
  end.

(** A world in which [n] more promises were handed out. *)
Definition advance_promises {CalState} (n : nat) (w : World CalState) : World CalState :=
  mkWorld (docs w) (settings_hits w) (cal w) (settle w) (n + next_promise w)%nat
          (trace w).

(** The response of a sync that ran to the end with [n] events created. *)
Definition sync_complete (uid : JsVal) (n : Z) : Response :=
  mkResponse 200
    ("Sync complete for " +:+ to_string uid +:+ ". " +:+ pretty n
     +:+ " new events created.").

(** What a sync does before its loop: it reads the credential record,
    hands the tokens to the OAuth client and reads the task document. *)
Definition prologue (uid : JsVal) (tokens : JsVal) : list Effect :=
  [EGet (integrations_path uid); ESetCredentials tokens; EGet (tasks_path uid)].

(** The same world with another fate for the promises. *)
Definition with_settle {CalState} (f : Promise -> option (Result JsVal))
    (w : World CalState) : World CalState :=
  mkWorld (docs w) (settings_hits w) (cal w) f (next_promise w) (trace w).

(** Asia/Kolkata: UTC+05:30 the whole year. *)
Definition kolkata (_ : Z) : Z := 19800000.

(** A host whose local time is UTC. *)
Definition utc (_ : Z) : Z := 0.

(** The instant an event time denotes: its [dateTime] carries a UTC
    designator, which fixes the instant whatever [timeZone] says. *)
Definition instant (t : EventTime) : option Z := JsDate.parse utc (dateTime t).

End Spec.
Export Spec.

(** ** Sample data *)

Module Examples.

Definition host_utc : Host :=
  mkHost utc (JStr "s3cret") (JStr "https://momentum.example").

Definition host_kolkata : Host :=
  mkHost kolkata (JStr "s3cret") (JStr "https://momentum.example").

Definition mk_task (id dueDate startTime endTime : string) : JsVal :=
  JObj [("id", JStr id); ("text", JStr "Write report"); ("dueDate", JStr dueDate);
        ("startTime", JStr startTime); ("endTime", JStr endTime);
        ("category", JStr "Work"); ("completed", JBool false)].

(** The task of the end-to-end scenario. *)
Definition t1 : JsVal :=
  JObj [("id", JStr "t1"); ("dueDate", JStr "2024-01-01");
        ("startTime", JStr "09:00"); ("endTime", JStr "10:00");
        ("completed", JBool false)].

Definition t2_bad_date : JsVal := mk_task "t2" "tomorrow" "11:00" "12:00".
Definition t3 : JsVal := mk_task "t3" "2024-01-02" "14:00" "15:30".

(** A task that is done, and one without times. *)
Definition t_done : JsVal :=
  JObj [("id", JStr "t5"); ("dueDate", JStr "2024-01-01");
        ("startTime", JStr "09:00"); ("endTime", JStr "10:00");
        ("completed", JBool true)].

(** A task due on a day that its month does not have. *)
Definition t_leap : JsVal :=
  JObj [("id", JStr "t7"); ("dueDate", JStr "2024-02-30");
        ("startTime", JStr "09:00"); ("endTime", JStr "24:00");
        ("completed", JBool false)].

(** A task that starts at an hour the clock does not have. *)
Definition t_off_clock : JsVal := mk_task "t8" "2024-01-02" "25:00" "26:00".

Definition t_untimed : JsVal :=
  JObj [("id", JStr "t6"); ("dueDate", JStr "2024-01-01");
        ("completed", JBool false)].

(** The event a task maps to on a host (a blank event if it maps to none). *)
Definition event_of (h : Host) (task : JsVal) : CalEvent :=
  match to_event h task with
  | inr event => event
  | inl _ => mkCalEvent JUndefined "" (mkEventTime "" "") (mkEventTime "" "") ""
  end.

Definition credentials : list (string * JsVal) :=
  [("googleCalendar",
    JObj [("email", JStr "u1@example.com"); ("access_token", JStr "ya29.token");
          ("refresh_token", JStr "1//refresh"); ("expiry_date", JNum 1704067200000)])].

(** User [u1] connected, with the given task document; nobody else. *)
Definition store (tasksDoc : list (string * JsVal)) : gmap string (list (string * JsVal)) :=
  <["users/u1/settings/integrations" := credentials]>
    (<["users/u1/data/tasks" := tasksDoc]> ∅).

Definition world {CalState} (c : CalState) (tasksDoc : list (string * JsVal))
    : World CalState :=
  mkWorld (store tasksDoc) [] c (fun _ => None) 0%nat [].

(** Two credential documents of [u1], one of [u2]. *)
Definition three_hits : list Firestore.Ref :=
  [["users"; "u1"; "settings"; "integrations"];
   ["users"; "u2"; "settings"; "integrations"];
   ["users"; "u1"; "settings"; "backup"]]%string.

Definition cron_world (hits : list Firestore.Ref)
    (settle : Promise -> option (Result JsVal)) : World unit :=
  mkWorld ∅ hits tt settle 0%nat [].

(** A provider that is never called. *)
Definition no_calendar (c : unit) (calendarId : string) (resource : CalEvent)
    : Result unit * unit := (ok tt, tt).

Definition backend_error : Exn := ApiError (JNum 500) (JStr "Backend Error").
Definition already_exists : Exn :=
  ApiError (JNum 409) (JStr "The requested identifier already exists.").

End Examples.


(** ** Strings, [null] and indexing *)

Module JsString.

(** [v?.[0]] after the null check: the first element. *)
Definition index0 (v : JsVal) : JsVal :=
  match v with
  | JArr (x :: _) => x
  | JObj fields => lookup_field fields "0"
  | JStr (String c _) => JStr (String c EmptyString)
  | _ => JUndefined
  end.

Definition is_nullish (v : JsVal) : bool :=
  match v with
  | JUndefined | JNull => true
  | _ => false
  end.


(** What is left of [s] after the prefix [p], if [s] starts with it. *)
Fixpoint strip_prefix (p s : string) : option string :=
  match p with
  | EmptyString => Some s
  | String a p' =>
      match s with
      | String b s' => if Ascii.eqb a b then strip_prefix p' s' else None
      | EmptyString => None
      end
  end.

(** [s.startsWith(p)] *)
Definition startsWith (s p : string) : bool :=
  match strip_prefix p s with
  | Some _ => true
  | None => false
  end.

(** The first occurrence of [sep] in [s]: what stands before it and
    what stands after it. *)
Fixpoint cut (sep s : string) : option (string * string) :=
  match strip_prefix sep s with
  | Some after => Some (EmptyString, after)
  | None =>
      match s with
      | EmptyString => None
      | String c rest =>
          match cut sep rest with
          | Some (before, after) => Some (String c before, after)
          | None => None
          end
      end
  end.

Fixpoint split_fuel (fuel : nat) (sep s : string) : list string :=
  match fuel with
  | O => [s]
  | S fuel' =>
      match cut sep s with
      | None => [s]
      | Some (before, after) => before :: split_fuel fuel' sep after
      end
  end.

(** [s.split(sep)] for a separator that is not empty: every cut
    shortens the string, so the fuel is never used up. *)
Definition split (s sep : string) : list string :=
  split_fuel (S (String.length s)) sep s.

(** [arr[i]] on an array of strings *)
Definition at_index (arr : list string) (i : nat) : JsVal :=
  match arr !! i with
  | Some x => JStr x
  | None => JUndefined
  end.

End JsString.
Export JsString.

(** ** The identity guard of [src/api/index.js] *)

Module Auth.

Inductive AuthEffect : Type :=
| AVerify (idToken : JsVal)
| AConsoleError (prefix : string) (e : Exn).

(** How a middleware ends: it calls [next()] with [req.uid] set, it
    answers itself, or it throws with nothing there to catch. *)
Inductive Guard : Type :=
| Next (uid : JsVal)
| Answered (r : Response)
| Uncaught (e : Exn).

(** [verifyFirebaseToken], with [verifyIdToken] the identity
    verifier ([auth.verifyIdToken], awaited) and [authHeader] the
    request's [authorization] header. *)
Definition verifyFirebaseToken (verifyIdToken : JsVal -> Result JsVal)
    (authHeader : JsVal) : Guard * list AuthEffect :=
  if negb (to_boolean authHeader)
  then (Answered (mkResponse 403 "Unauthorized: No token provided."), [])
  else
    match authHeader with
    | JStr header =>
        if negb (JsString.startsWith header "Bearer ")
        then (Answered (mkResponse 403 "Unauthorized: No token provided."), [])
        else
          let idToken := JsString.at_index (JsString.split header "Bearer ") 1 in
          match (decodedToken ← verifyIdToken idToken; get decodedToken "uid") with
          | inr uid => (Next uid, [AVerify idToken])
          | inl error =>
              (Answered (mkResponse 403 "Unauthorized: Invalid token."),
               [AVerify idToken; AConsoleError "Error verifying token:" error])
          end
    | _ => (Uncaught TypeError, [])
    end.

(** The argument of [oauth2Client.generateAuthUrl]. *)
Record AuthUrlOptions : Type := mkAuthUrlOptions {
  access_type : string;
  prompt : string;
  scope : list string;
  state : JsVal
}.

(** [res.json({ authUrl: url })] *)
Definition auth_url_json (url : string) : Response :=
  mkResponse 200 ("{" +:+ json_string "authUrl" +:+ ":" +:+ json_string url +:+ "}").

(** The handler of [GET /api/get-auth-url], behind the guard;
    [generateAuthUrl] is the OAuth client's. *)
Definition get_auth_url (generateAuthUrl : AuthUrlOptions -> string)
    (uid : JsVal) : Response :=
  let scopes := ["https://www.googleapis.com/auth/calendar"%string] in
  let url := generateAuthUrl (mkAuthUrlOptions "offline" "consent" scopes uid) in
  auth_url_json url.

(** [app.get("/api/get-auth-url", verifyFirebaseToken, handler)] *)
Definition get_auth_url_route (verifyIdToken : JsVal -> Result JsVal)
    (generateAuthUrl : AuthUrlOptions -> string) (authHeader : JsVal)
    : Guard * list AuthEffect :=
  match verifyFirebaseToken verifyIdToken authHeader with
  | (Next uid, effects) => (Answered (get_auth_url generateAuthUrl uid), effects)
  | other => other
  end.

End Auth.

(** ** Writing documents *)

Module Store.

(** Whether [undefined] occurs in a value, at any depth. *)
Fixpoint has_undefined (v : JsVal) : bool :=
  match v with
  | JUndefined => true
  | JArr elems =>
      (fix any (l : list JsVal) : bool :=
         match l with
         | [] => false
         | x :: r => has_undefined x || any r
         end) elems
  | JObj fields =>
      (fix any (l : list (string * JsVal)) : bool :=
         match l with
         | [] => false
         | (_, x) :: r => has_undefined x || any r
         end) fields
  | _ => false
  end.

(** The binding of [k] replaced in place, or added at the end. *)
Fixpoint upsert (k : string) (v : JsVal) (fields : list (string * JsVal))
    : list (string * JsVal) :=
  match fields with
  | [] => [(k, v)]
  | (k', v') :: rest =>
      if String.eqb k' k then (k, v) :: rest else (k', v') :: upsert k v rest
  end.

(** What [set(data, { merge: true })] leaves where [old] was: a map
    with entries written over a map is merged entry by entry; anything
    else, an empty map too, replaces what was there. *)
Fixpoint merge_value (old new : JsVal) {struct new} : JsVal :=
  match new with
  | JObj ((_ :: _) as new_fields) =>
      match old with
      | JObj old_fields =>
          JObj ((fix go (l : list (string * JsVal)) (acc : list (string * JsVal))
                   : list (string * JsVal) :=
                   match l with
                   | [] => acc
                   | (k, v) :: r => go r (upsert k (merge_value (lookup_field acc k) v) acc)
                   end) new_fields old_fields)
      | _ => new
      end
  | _ => new
  end.

(** The same for the document itself; writing no entry leaves it as
    it was. *)
Definition merge_fields (old new : list (string * JsVal)) : list (string * JsVal) :=
  match new with
  | [] => old
  | _ :: _ =>
      match merge_value (JObj old) (JObj new) with
      | JObj fields => fields
      | _ => new
      end
  end.

(** The client refuses a document that holds [undefined]. *)
Definition invalid_document : Exn :=
  ApiError JUndefined (JStr "Cannot use undefined as a Firestore value").

(** What [db.doc] throws on a path that names no document. *)
Definition invalid_path : Exn :=
  ApiError JUndefined (JStr "Value for argument documentPath must point to a document").

(** [db.doc(path)] *)
Definition doc (path : string) : Result string :=
  if Firestore.document_path path then ok path else throw invalid_path.

(** [db.doc(path).set(data)] *)
Definition set (docs : gmap string (list (string * JsVal))) (path : string)
    (data : list (string * JsVal)) : Result (gmap string (list (string * JsVal))) :=
  if has_undefined (JObj data) then throw invalid_document
  else ok (<[path := data]> docs).

(** [db.doc(path).set(data, { merge: true })] *)
Definition set_merge (docs : gmap string (list (string * JsVal))) (path : string)
    (data : list (string * JsVal)) : Result (gmap string (list (string * JsVal))) :=
  if has_undefined (JObj data) then throw invalid_document
  else
    match docs !! path with
    | Some old => ok (<[path := merge_fields old data]> docs)
    | None => ok (<[path := data]> docs)
    end.

End Store.

(** ** Connecting a Google account *)

Module OAuth.

(** Google's side of the exchange: the token endpoint, the People API
    read of [people/me] made with the given credentials, and the time
    the store's server puts where [serverTimestamp()] stands. *)
Record Google : Type := mkGoogle {
  getToken : JsVal -> Result JsVal;
  people_get : JsVal -> Result JsVal;
  server_time : JsVal
}.

(** What a callback does to the outside; [OConsoleError] is
    [console.error(prefix, err)] and [OConsoleErrorMessage] is
    [console.error(prefix, err.message)]. *)
Inductive OEffect : Type :=
| OGetToken (code : JsVal)
| OSetCredentials (tokens : JsVal)
| OPeopleGet (tokens : JsVal)
| OSet (path : string) (data : list (string * JsVal)) (merge : bool)
| OConsoleError (prefix : string) (e : Exn)
| OConsoleErrorMessage (prefix : string) (e : Exn).

Inductive Reply : Type :=
| Sent (r : Response)
| Redirected (url : string).

(** [profile.data.emailAddresses?.[0]?.value || "Google User"] *)
Definition userEmail (profile : JsVal) : Result JsVal :=
  data ← get profile "data";
  emailAddresses ← get data "emailAddresses";
  value ←
    (if is_nullish emailAddresses then mret JUndefined
     else
       let first := index0 emailAddresses in
       if is_nullish first then mret JUndefined else get first "value");
  mret (js_or value (JStr "Google User")).

(** The document written by the callback: the [googleCalendar] map. *)
Definition integration_record (now : JsVal) (email tokens : JsVal)
    : Result (list (string * JsVal)) :=
  access_token ← get tokens "access_token";
  refresh_token ← get tokens "refresh_token";
  expiry_date ← get tokens "expiry_date";
  mret [("googleCalendar",
         JObj [("email", email); ("access_token", access_token);
               ("refresh_token", refresh_token); ("expiry_date", expiry_date);
               ("created_at", now)])].

Definition failed (docs : gmap string (list (string * JsVal)))
    (effects : list OEffect) (e : Exn)
    : Reply * gmap string (list (string * JsVal)) * list OEffect :=
  (Sent (mkResponse 500 "Error connecting Google account."), docs,
   effects ++ [OConsoleErrorMessage "Error in /api/callback:" e]).

(** [app.get("/api/callback", ...)] of [src/api/index.js], with [code]
    and [uid] the [code] and [state] parameters of the query. *)
Definition callback (g : Google) (code uid : JsVal)
    (docs : gmap string (list (string * JsVal)))
    : Reply * gmap string (list (string * JsVal)) * list OEffect :=
  if negb (to_boolean code) then (Sent (mkResponse 400 "Missing code."), docs, [])
  else if negb (to_boolean uid)
  then (Sent (mkResponse 400 "Missing user state."), docs, [])
  else
    match (response ← getToken g code; get response "tokens") with
    | inl e => failed docs [OGetToken code] e
    | inr tokens =>
        let contacted := [OGetToken code; OSetCredentials tokens; OPeopleGet tokens] in
        match (profile ← people_get g tokens;
               email ← userEmail profile;
               integrationRef ← Store.doc (integrations_path uid);
               data ← integration_record (server_time g) email tokens;
               mret (integrationRef, data)) with
        | inl e => failed docs contacted e
        | inr (integrationRef, data) =>
            let written := contacted ++ [OSet integrationRef data true] in
            match Store.set_merge docs integrationRef data with
            | inl e => failed docs written e
            | inr docs' =>
                (Redirected "http://localhost:3000/settings?google-connected=true",
                 docs', written)
            end
        end
    end.

(** The record of the first version of the callback. *)
Definition private_record (now : JsVal) (tokens : JsVal)
    : Result (list (string * JsVal)) :=
  access_token ← get tokens "access_token";
  refresh_token ← get tokens "refresh_token";
  expiry_date ← get tokens "expiry_date";
  mret [("access_token", access_token); ("refresh_token", refresh_token);
        ("expiry_date", expiry_date); ("created_at", now)].

(** [db.collection("users").doc(uid).collection("private").doc("googleAuth")]
    for [const uid = "testUser"] *)
Definition private_path : string := "users/testUser/private/googleAuth".

(** [app.get("/api/callback", ...)] of [src/index.js]: the signed-in
    user plays no part, the record goes to a fixed place. *)
Definition callback_v1 (g : Google) (code : JsVal)
    (docs : gmap string (list (string * JsVal)))
    : Reply * gmap string (list (string * JsVal)) * list OEffect :=
  if negb (to_boolean code) then (Sent (mkResponse 400 "Missing code."), docs, [])
  else
    let failed1 effects e :=
      (Sent (mkResponse 500 "Error connecting Google account."), docs,
       effects ++ [OConsoleError "Error:" e]) in
    match (response ← getToken g code;
           tokens ← get response "tokens";
           private_record (server_time g) tokens) with
    | inl e => failed1 [OGetToken code] e
    | inr data =>
        let written := [OGetToken code; OSet private_path data false] in
        match Store.set docs private_path data with
        | inl e => failed1 written e
        | inr docs' =>
            (Sent (mkResponse 200 "✅ Google Calendar connected successfully!"),
             docs', written)
        end
    end.

End OAuth.

(** ** What a handler may do *)

Module Discipline.


(** The effects the fan-out is allowed: the discovery query, log
    lines, and POST requests to the sync endpoint. *)
Definition fan_out_effect_ok (h : Host) (ev : Effect) : Prop :=
  match ev with
  | EQuery => True
  | EConsoleLog _ => True
  | EConsoleError _ _ => True
  | EFetch url init _ =>
      url = sync_url h ∧ method init = "POST"%string
      ∧ headers init = [("Content-Type", "application/json")]%string
  | _ => False
  end.

(** The status codes a handler may answer with. *)
Definition status_in (codes : list Z) {R} (o : Outcome R) (status_of : R -> Z) : Prop :=
  match o with
  | Returned r => In (status_of r) codes
  | _ => False
  end.


(** What the guard takes for the token: the text after "Bearer " up to
    the next "Bearer ", if there is one. *)
Definition bearer_token_of (rest : string) : string :=
  match cut "Bearer " rest with
  | Some (before, _) => before
  | None => rest
  end.

(** A value that is no map. *)
Definition leaf (v : JsVal) : Prop := ∀ fields, v ≠ JObj fields.

(** The world a sync meets when the store holds [docs]. *)
Definition world_of (docs : gmap string (list (string * JsVal))) : World unit :=
  mkWorld docs [] tt (fun _ => None) 0%nat [].

(** Whether the credential record of [uid] holds a truthy
    [googleCalendar] entry. *)
Definition connected (docs : gmap string (list (string * JsVal))) (uid : JsVal) : bool :=
  to_boolean (lookup_field (default [] (docs !! integrations_path uid)) "googleCalendar").

End Discipline.
Export Discipline.

(** ** Sample accounts *)

Module Accounts.

Definition tokens_full : JsVal :=
  JObj [("access_token", JStr "ya29.token"); ("refresh_token", JStr "1//refresh");
        ("expiry_date", JNum 1704067200000)].

(** What Google answers when it issues no refresh token. *)
Definition tokens_no_refresh : JsVal :=
  JObj [("access_token", JStr "ya29.token"); ("expiry_date", JNum 1704067200000)].

Definition profile_of (emailAddresses : JsVal) : JsVal :=
  JObj [("data", JObj [("emailAddresses", emailAddresses)])].

(** A Google that trades the code "4/code" for [tokens] and knows the
    user by [emailAddresses]. *)
Definition google (tokens emailAddresses : JsVal) : OAuth.Google :=
  OAuth.mkGoogle
    (fun code =>
       if strict_eq_str code "4/code" then ok (JObj [("tokens", tokens)])
       else throw (ApiError (JNum 400) (JStr "invalid_grant")))
    (fun _ => ok (profile_of emailAddresses))
    (JNum 1704067200000).

Definition one_address : JsVal := JArr [JObj [("value", JStr "u1@example.com")]].

(** A store in which [u1] has connected another service and has one
    task. *)
Definition store : gmap string (list (string * JsVal)) :=
  <["users/u1/settings/integrations" := [("notion", JObj [("token", JStr "secret_n")])]]>
    (<["users/u1/data/tasks" := [("list", JArr [Examples.t1])]]> ∅).

(** A store in which [u1] is connected and has no task document. *)
Definition connected_only : gmap string (list (string * JsVal)) :=
  <["users/u1/settings/integrations" := Examples.credentials]> ∅.

(** Two connected users; [u1] has one task. *)
Definition two_users : gmap string (list (string * JsVal)) :=
  <["users/u2/settings/integrations" :=
      [("googleCalendar",
        JObj [("email", JStr "u2@example.com"); ("access_token", JStr "ya29.other");
              ("refresh_token", JStr "1//other"); ("expiry_date", JNum 1704067200000)])]]>
    (Examples.store [("list", JArr [Examples.t1])]).

Definition code : JsVal := JStr "4/code".

(** What connecting [u1] makes of [store]. *)
Definition connecting :=
  OAuth.callback (google tokens_full one_address) code (JStr "u1") store.

End Accounts.


(** ** Requests served side by side *)

Module Interleaving.

(** The calls a handler [await]s: while the answer is on its way the
    process serves its other requests. [setCredentials],
    [console.error], [console.log] and a [fetch] that is not awaited
    return at once. *)
Definition awaited {A} (c : Call A) : bool :=
  match c with
  | DocGet _ | SettingsQuery | EventsInsert _ _ | Await _ => true
  | _ => false
  end.

(** A request being served: what is left of its handler, or how the
    handler ended. *)
Inductive Thread (R : Type) : Type :=
| Running (p : Prog R)
| Done (o : Outcome R).

Arguments Running {R} p.
Arguments Done {R} o.

Section Turns.

Context {CalState : Type}.
Context (events_insert : CalState -> string -> CalEvent -> Result unit * CalState).

(** One turn of a handler: it runs up to its next awaited call, which
    it makes, and gives way. *)
Fixpoint turn {R} (p : Prog R) (w : World CalState) : Thread R * World CalState :=
  match p with
  | Ret r => (Done (Returned r), w)
  | Throw e => (Done (Threw e), w)
  | Vis c k =>
      match perform events_insert c w with
      | (Some a, w') => if awaited c then (Running (k a), w') else turn (k a) w'
      | (None, w') => (Done Stuck, w')
      end
  end.

Definition resume {R} (t : Thread R) (w : World CalState) : Thread R * World CalState :=
  match t with
  | Running p => turn p w
  | Done o => (Done o, w)
  end.

(** A request served alone, for a number of turns. *)
Fixpoint turns {R} (n : nat) (t : Thread R) (w : World CalState)
    : Thread R * World CalState :=
  match n with
  | O => (t, w)
  | S n' => let (t', w') := resume t w in turns n' t' w'
  end.

(** Two requests in one process; the schedule says whose turn it is,
    [true] for the first. *)
Fixpoint interleave {R} (schedule : list bool) (a b : Thread R) (w : World CalState)
    : Thread R * Thread R * World CalState :=
  match schedule with
  | [] => (a, b, w)
  | true :: rest => let (a', w') := resume a w in interleave rest a' b w'
  | false :: rest => let (b', w') := resume b w in interleave rest a b' w'
  end.

End Turns.

(** The credentials on the one OAuth client of the process after the
    effects [effects], [cur] being those before. *)
Fixpoint client_credentials (cur : option JsVal) (effects : list Effect) : option JsVal :=
  match effects with
  | [] => cur
  | ESetCredentials tokens :: rest => client_credentials (Some tokens) rest
  | _ :: rest => client_credentials cur rest
  end.

(** Every insert among [effects] is made while the client holds
    [tokens]. *)
Fixpoint inserts_use (tokens : JsVal) (cur : option JsVal) (effects : list Effect) : Prop :=
  match effects with
  | [] => True
  | ESetCredentials t :: rest => inserts_use tokens (Some t) rest
  | EInsert _ _ _ :: rest => cur = Some tokens ∧ inserts_use tokens cur rest
  | _ :: rest => inserts_use tokens cur rest
  end.

(** The stored credentials of a user, [undefined] when there are none. *)
Definition stored_tokens (docs : gmap string (list (string * JsVal))) (uid : JsVal) : JsVal :=
  lookup_field (default [] (docs !! integrations_path uid)) "googleCalendar".

End Interleaving.
Export Interleaving.
(** ** Running programs *)

Section RunLemmas.

Context {CalState : Type}.
Context (events_insert : CalState -> string -> CalEvent -> Result unit * CalState).

Local Abbreviation exec := (run events_insert).

Lemma run_bind {A B} (p : Prog A) (f : A -> Prog B) (w : World CalState) :
  exec (p ≫= f) w =
  match exec p w with
  | (Returned a, w') => exec (f a) w'
  | (Threw e, w') => (Threw e, w')
  | (Stuck, w') => (Stuck, w')
  end.
Proof.
  revert w. induction p as [a | e | T c k IH]; intros w; try reflexivity.
  change (exec (Vis c (fun x => k x ≫= f)) w = let (o, w') := exec (Vis c k) w in
          match o with
          | Returned a => exec (f a) w'
          | Threw e => (Threw e, w')
          | Stuck => (Stuck, w')
          end).
  simpl. destruct (perform events_insert c w) as [[x |] w']; [apply IH | reflexivity].
Qed.

Lemma run_try_catch {R} (p : Prog R) (h : Exn -> Prog R) (w : World CalState) :
  exec (try_catch p h) w =
  match exec p w with
  | (Threw e, w') => exec (h e) w'
  | other => other
  end.
Proof.
  revert w. induction p as [a | e | T c k IH]; intros w; simpl.
  - reflexivity.
  - destruct (exec (h e) w); reflexivity.
  - destruct (perform events_insert c w) as [[x |] w']; [apply IH | reflexivity].
Qed.

Lemma run_lift {A} (r : Result A) (w : World CalState) :
  exec (lift r) w =
  match r with
  | inr a => (Returned a, w)
  | inl e => (Threw e, w)
  end.
Proof. destruct r; reflexivity. Qed.

Lemma run_call {A} (c : Call A) (w : World CalState) :
  exec (call c) w =
  match perform events_insert c w with
  | (Some a, w') => (Returned a, w')
  | (None, w') => (Stuck, w')
  end.
Proof. simpl. destruct (perform events_insert c w) as [[a |] w']; reflexivity. Qed.

End RunLemmas.

(** ** The per-task loop *)

Lemma result_bind_inr {A B} (m : Result A) (f : A -> Result B) (b : B) :
  m ≫= f = inr b -> ∃ a, m = inr a ∧ f a = inr b.
Proof. destruct m as [e | a]; [discriminate | eauto]. Qed.

Lemma to_event_inr (h : Host) (task : JsVal) (event : CalEvent) :
  to_event h task = inr event ->
  ∃ s, get task "id" = inr (JStr s)
       ∧ id event = "momentum" +:+ Regex.replace_all Regex.not_alnum "" s.
Proof.
  unfold to_event. intros H.
  apply result_bind_inr in H as (eid & Heid & H).
  apply result_bind_inr in H as (text & _ & H).
  apply result_bind_inr in H as (category & _ & H).
  apply result_bind_inr in H as (start_ & _ & H).
  apply result_bind_inr in H as (end' & _ & H).
  injection H as <-. simpl.
  unfold eventId in Heid.
  apply result_bind_inr in Heid as (v & Hv & Heid).
  apply result_bind_inr in Heid as (stripped & Hs & Heid).
  injection Heid as <-.
  destruct v; try discriminate. injection Hs as <-. eauto.
Qed.

Lemma field_of_get (v x : JsVal) (name : string) :
  get v name = inr x -> field v name = x.
Proof. unfold field. intros ->. reflexivity. Qed.

Section LoopLemmas.

Context {CalState : Type}.
Context (events_insert : CalState -> string -> CalEvent -> Result unit * CalState).

Local Abbreviation exec := (run events_insert).

(** One pass through the loop body, for a task that maps to an event. *)
Lemma sync_loop_step (h : Host) (task : JsVal) (rest : list JsVal) (n : Z)
    (event : CalEvent) (answer : Result unit) (c' : CalState) (w : World CalState) :
  to_event h task = inr event ->
  events_insert (cal w) "primary" event = (answer, c') ->
  exec (sync_loop h (task :: rest) n) w =
  exec (sync_loop h rest (if accepted answer then n + 1 else n))
       (emit_all (attempt_effects task event answer) (set_cal c' w)).
Proof.
  intros Hev Hins.
  destruct (to_event_inr _ _ _ Hev) as (s & Hid & _).
  cbn [sync_loop]. rewrite run_bind, Hev, run_lift, run_bind, run_try_catch.
  rewrite run_bind. unfold await. cbn [run perform]. rewrite Hins.
  unfold attempt_effects, reported. rewrite (field_of_get _ _ _ Hid).
  destruct answer as [e | []]; cbn [lift run accepted].
  - unfold on_insert_error.
    destruct (strict_eq_num (exn_code e) 409) eqn:Hcode.
    + reflexivity.
    + rewrite run_bind, Hid, run_lift, run_bind, run_call. cbn.
      unfold emit_all, emit. cbn. rewrite <- app_assoc. reflexivity.
  - reflexivity.
Qed.

(** A task that does not map to an event ends the loop with its
    exception, before any insert for it. *)
Lemma sync_loop_throw (h : Host) (task : JsVal) (rest : list JsVal) (n : Z)
    (e : Exn) (w : World CalState) :
  to_event h task = inl e ->
  exec (sync_loop h (task :: rest) n) w = (Threw e, w).
Proof. intros Hev. cbn [sync_loop]. rewrite run_bind, Hev. reflexivity. Qed.

(** The whole loop over tasks that all map to an event. *)
Lemma sync_loop_run (h : Host) (tasks : list JsVal) (events : list CalEvent) :
  Forall2 (fun task event => to_event h task = inr event) tasks events ->
  ∀ (n : Z) (w : World CalState),
    exec (sync_loop h tasks n) w =
    (Returned (n + Z.of_nat (length (List.filter accepted (play events_insert (cal w) events).1))),
     emit_all (loop_effects tasks events (play events_insert (cal w) events).1)
              (set_cal (play events_insert (cal w) events).2 w)).
Proof.
  induction 1 as [| task event tasks events Hev _ IH]; intros n w.
  - cbn. rewrite Z.add_0_r. destruct w; unfold emit_all, set_cal; cbn.
    rewrite app_nil_r. reflexivity.
  - cbn [play].
    destruct (events_insert (cal w) "primary" event) as [answer c'] eqn:Hins.
    rewrite (sync_loop_step _ _ _ _ _ _ _ _ Hev Hins), IH. cbn [cal emit_all set_cal].
    destruct (play events_insert c' events) as [answers c''] eqn:Hplay.
    cbn [fst snd loop_effects]. f_equal.
    + f_equal. cbn [List.filter]. destruct (accepted answer); cbn [length]; lia.
    + unfold emit_all, set_cal. cbn [docs settings_hits cal settle next_promise trace].
      rewrite <- app_assoc. reflexivity.
Qed.

Lemma play_length (c : CalState) (events : list CalEvent) :
  length (play events_insert c events).1 = length events.
Proof.
  revert c. induction events as [| event events IH]; intros c; cbn; [reflexivity |].
  destruct (events_insert c "primary" event) as [answer c'].
  specialize (IH c'). destruct (play events_insert c' events). cbn in *. lia.
Qed.

End LoopLemmas.

Lemma inserts_app (l1 l2 : list Effect) :
  Trace.inserts (l1 ++ l2) = Trace.inserts l1 ++ Trace.inserts l2.
Proof. apply omap_app. Qed.

Lemma console_errors_app (l1 l2 : list Effect) :
  Trace.console_errors (l1 ++ l2) = Trace.console_errors l1 ++ Trace.console_errors l2.
Proof. apply omap_app. Qed.

Lemma inserts_loop_effects (tasks : list JsVal) (events : list CalEvent)
    (answers : list (Result unit)) :
  length tasks = length events -> length answers = length events ->
  Trace.inserts (loop_effects tasks events answers) = zip events answers.
Proof.
  revert events answers.
  induction tasks as [| task tasks IH]; intros [| event events] [| answer answers];
    cbn; try discriminate; try reflexivity.
  intros Ht Ha. unfold attempt_effects.
  destruct (reported task answer) as [[prefix e] |]; cbn; f_equal; apply IH; lia.
Qed.

Lemma console_errors_loop_effects (tasks : list JsVal) (events : list CalEvent)
    (answers : list (Result unit)) :
  length tasks = length events -> length answers = length events ->
  Trace.console_errors (loop_effects tasks events answers)
  = omap (fun ta => reported ta.1 ta.2) (zip tasks answers).
Proof.
  revert events answers.
  induction tasks as [| task tasks IH]; intros [| event events] [| answer answers];
    cbn; try discriminate; try reflexivity.
  intros Ht Ha. unfold attempt_effects.
  destruct (reported task answer) as [[prefix e] |]; cbn; [f_equal |]; apply IH; lia.
Qed.

(** ** One user's sync *)

Section SyncLemmas.

Context {CalState : Type}.
Context (events_insert : CalState -> string -> CalEvent -> Result unit * CalState).

Local Abbreviation exec := (run events_insert).

(** A connected user with a task document: the handler is its
    prologue, the loop, and the response that fits the loop's end. *)
Lemma sync_calendar_connected (h : Host) (uid : JsVal) (w : World CalState)
    (tokenData data : list (string * JsVal)) (tasks : list JsVal) :
  to_boolean uid = true ->
  docs w !! integrations_path uid = Some tokenData ->
  to_boolean (lookup_field tokenData "googleCalendar") = true ->
  docs w !! tasks_path uid = Some data ->
  tasksToSync data = inr tasks ->
  exec (sync_calendar h uid) w =
  match exec (sync_loop h tasks 0)
             (emit_all (prologue uid (lookup_field tokenData "googleCalendar")) w) with
  | (Returned n, w') => (Returned (sync_complete uid n), w')
  | (Threw e, w') =>
      (Returned (mkResponse 500 "Sync failed."),
       emit (EConsoleError ("Sync failed for " +:+ to_string uid +:+ ":") e) w')
  | (Stuck, w') => (Stuck, w')
  end.
Proof.
  intros Huid Hcred Htok Htasks Hfilter.
  unfold sync_calendar. rewrite Huid. cbn [negb].
  rewrite run_try_catch. unfold sync_calendar_body.
  rewrite run_bind, run_call. cbn [perform]. rewrite Hcred.
  rewrite run_bind. cbn [get ok lift run]. rewrite Htok. cbn [negb].
  rewrite run_bind, run_call. cbn [perform].
  rewrite run_bind, run_call. cbn [perform docs emit]. rewrite Htasks.
  rewrite run_bind, Hfilter. cbn [lift run]. rewrite run_bind.
  replace (emit (EGet (tasks_path uid)) _)
    with (emit_all (prologue uid (lookup_field tokenData "googleCalendar")) w).
  2:{ unfold emit_all, emit, prologue. cbn. rewrite <- !app_assoc. reflexivity. }
  destruct (exec (sync_loop h tasks 0) _) as [[n | e |] w']; reflexivity.
Qed.

(** When every task to sync maps to an event the sync runs to its end. *)
Lemma sync_calendar_mapped (h : Host) (uid : JsVal) (w : World CalState)
    (tokenData data : list (string * JsVal)) (tasks : list JsVal)
    (events : list CalEvent) :
  to_boolean uid = true ->
  docs w !! integrations_path uid = Some tokenData ->
  to_boolean (lookup_field tokenData "googleCalendar") = true ->
  docs w !! tasks_path uid = Some data ->
  tasksToSync data = inr tasks ->
  Forall2 (fun task event => to_event h task = inr event) tasks events ->
  exec (sync_calendar h uid) w =
  (Returned (sync_complete uid
     (Z.of_nat (length (List.filter accepted (play events_insert (cal w) events).1)))),
   emit_all (prologue uid (lookup_field tokenData "googleCalendar")
             ++ loop_effects tasks events (play events_insert (cal w) events).1)
            (set_cal (play events_insert (cal w) events).2 w)).
Proof.
  intros Huid Hcred Htok Htasks Hfilter Hmap.
  rewrite (sync_calendar_connected h uid w tokenData data tasks) by assumption.
  rewrite (sync_loop_run events_insert h tasks events Hmap). cbn [cal emit_all].
  rewrite Z.add_0_l. f_equal.
  unfold emit_all, set_cal. cbn [docs settings_hits cal settle next_promise trace].
  rewrite <- app_assoc. reflexivity.
Qed.

End SyncLemmas.

(** ** Event identifiers *)

Lemma class_not_alnum (c : ascii) :
  Regex.class_matches Regex.not_alnum c = negb (is_alnum c).
Proof. destruct c as [[] [] [] [] [] [] [] []]; reflexivity. Qed.

Lemma replace_all_sanitize (s : string) :
  Regex.replace_all Regex.not_alnum "" s = sanitize s.
Proof.
  unfold sanitize. induction s as [| c s IH]; [reflexivity |].
  cbn [Regex.replace_all list_ascii_of_string List.filter].
  rewrite class_not_alnum, IH.
  destruct (is_alnum c); reflexivity.
Qed.

(** C1. For a task whose id is the string [s], the event identifier is
    "momentum" followed by [s] with every character outside
    [A-Za-z0-9] removed; it is the identifier of the event the sync
    builds for the task, and it depends on the task's id alone, so
    deriving it again gives the same string. *)
Theorem event_id_is_momentum_sanitized (task : JsVal) (s : string)
    (Hid : get task "id" = inr (JStr s)) :
  eventId task = inr ("momentum" +:+ sanitize s)
  ∧ (∀ h event, to_event h task = inr event -> id event = "momentum" +:+ sanitize s)
  ∧ (∀ task', get task' "id" = inr (JStr s) -> eventId task' = eventId task).
Proof.
  assert (Hgen : ∀ t, get t "id" = inr (JStr s) ->
                      eventId t = inr ("momentum" +:+ sanitize s)).
  { intros t Ht. unfold eventId. rewrite Ht. cbn. rewrite replace_all_sanitize.
    reflexivity. }
  split; [auto | split].
  - intros h event Hev. destruct (to_event_inr _ _ _ Hev) as (s' & Hs' & ->).
    rewrite Hid in Hs'. injection Hs' as <-. rewrite replace_all_sanitize. reflexivity.
  - intros task' Hid'. rewrite (Hgen task Hid), (Hgen task' Hid'). reflexivity.
Qed.

(** The task id "abc-123!@#" gives the event id "momentumabc123". *)
Lemma event_id_abc123 :
  eventId (JObj [("id", JStr "abc-123!@#")]) = inr "momentumabc123".
Proof.
  exact (proj1 (event_id_is_momentum_sanitized
                  (JObj [("id", JStr "abc-123!@#")]) "abc-123!@#" eq_refl)).
Defined.

(** ** The task filter *)

Lemma is_eligible_object (fields : list (string * JsVal)) :
  is_eligible (JObj fields) = inr (eligible (JObj fields)).
Proof.
  unfold is_eligible, eligible, field, js_not. cbn.
  destruct (to_boolean (lookup_field fields "startTime")); [| reflexivity].
  destruct (to_boolean (lookup_field fields "endTime")); reflexivity.
Qed.

Lemma filter_list_objects (tasks : list JsVal) :
  Forall is_object tasks ->
  filter_list is_eligible tasks = inr (List.filter eligible tasks).
Proof.
  induction 1 as [| task tasks [fields ->] _ IH]; [reflexivity |].
  cbn [filter_list List.filter]. rewrite is_eligible_object, IH. cbn.
  destruct (eligible (JObj fields)); reflexivity.
Qed.

Lemma filter_sublist {A} (f : A -> bool) (l : list A) : List.filter f l `sublist_of` l.
Proof.
  induction l as [| x l IH]; cbn; [constructor |].
  destruct (f x); [apply sublist_skip | apply sublist_cons]; exact IH.
Qed.

Lemma lookup_field_absent (fields : list (string * JsVal)) (name : string) :
  name ∉ fields.*1 -> lookup_field fields name = JUndefined.
Proof.
  induction fields as [| [k v] fields IH]; cbn; [reflexivity |].
  intros Hnot. destruct (String.eqb_spec k name) as [-> | Hne].
  - exfalso. apply Hnot. left.
  - apply IH. intros Hin. apply Hnot. right. exact Hin.
Qed.

Lemma lookup_field_truthy_present (fields : list (string * JsVal)) (name : string) :
  to_boolean (lookup_field fields name) = true -> name ∈ fields.*1.
Proof.
  intros Htrue. destruct (decide (name ∈ fields.*1)) as [Hin | Hnot]; [exact Hin |].
  rewrite (lookup_field_absent _ _ Hnot) in Htrue. discriminate.
Qed.

(** On tasks whose times are absent or non-empty strings and whose
    [completed] is a boolean, the filter's test is the test by presence. *)
Lemma eligible_iff_presence_on_typed_tasks (fields : list (string * JsVal)) (b : bool) :
  time_or_absent fields "startTime" ->
  time_or_absent fields "endTime" ->
  lookup_field fields "completed" = JBool b ->
  eligible (JObj fields) = true ↔ eligible_by_presence (JObj fields).
Proof.
  intros Hstart Hend Hdone. unfold eligible, eligible_by_presence, field. cbn.
  rewrite !andb_true_iff, negb_true_iff. split.
  - intros [[Hs He] Hb]. exists fields.
    split; [reflexivity |]. split; [| split].
    + apply lookup_field_truthy_present. exact Hs.
    + apply lookup_field_truthy_present. exact He.
    + rewrite Hdone in Hb |- *. cbn in Hb. rewrite Hb. reflexivity.
  - intros (fields' & Heq & Hs & He & Hb). injection Heq as <-.
    rewrite Hb. split; [split |]; [| | reflexivity].
    + destruct Hstart as [Habs | (s & -> & Hne)]; [contradiction |].
      cbn. apply negb_true_iff, String.eqb_neq. exact Hne.
    + destruct Hend as [Habs | (s & -> & Hne)]; [contradiction |].
      cbn. apply negb_true_iff, String.eqb_neq. exact Hne.
Qed.

(** C2. On a list of tasks of the data model the filter returns
    exactly the subsequence of the tasks that have a start time, have
    an end time and whose [completed] is [false]: a task is kept if
    and only if it is one of those, the kept tasks stand in their
    original order, and the empty list gives the empty list. *)
Theorem task_filter_keeps_present_times (tasks : list JsVal)
    (Htyped : Forall typed_task tasks) :
  array_filter is_eligible (JArr tasks) = inr (List.filter eligible tasks)
  ∧ (∀ task, In task tasks -> (eligible task = true ↔ eligible_by_presence task))
  ∧ (∀ task, In task (List.filter eligible tasks)
             ↔ In task tasks ∧ eligible_by_presence task)
  ∧ List.filter eligible tasks `sublist_of` tasks
  ∧ array_filter is_eligible (JArr []) = inr [].
Proof.
  assert (Hsame : ∀ task, In task tasks
                          -> (eligible task = true ↔ eligible_by_presence task)).
  { intros task Hin. rewrite Forall_forall in Htyped.
    destruct (Htyped task (proj2 (list_elem_of_In _ _) Hin))
      as (fields & b & -> & Hstart & Hend & Hdone).
    exact (eligible_iff_presence_on_typed_tasks fields b Hstart Hend Hdone). }
  split; [| split; [exact Hsame | split; [| split]]].
  - apply filter_list_objects. eapply Forall_impl; [exact Htyped |].
    intros task (fields & b & -> & _). eexists. reflexivity.
  - intros task. rewrite filter_In. split.
    + intros [Hin Hel]. split; [exact Hin | apply (Hsame task Hin), Hel].
    + intros [Hin Hpr]. split; [exact Hin | apply (Hsame task Hin), Hpr].
  - apply filter_sublist.
  - reflexivity.
Qed.

Lemma task_filter_keeps_present_times_witness :
  let tasks := [Examples.t1; Examples.t_done; Examples.t_untimed; Examples.t3] in
  array_filter is_eligible (JArr tasks) = inr [Examples.t1; Examples.t3]
  ∧ (∀ task, In task tasks -> (eligible task = true ↔ eligible_by_presence task)).
Proof.
  intros tasks.
  assert (H : Forall typed_task tasks).
  { repeat constructor.
    - eexists _, false. split; [reflexivity |].
      split; [right; eexists; split; [reflexivity | discriminate] |].
      split; [right; eexists; split; [reflexivity | discriminate] | reflexivity].
    - eexists _, true. split; [reflexivity |].
      split; [right; eexists; split; [reflexivity | discriminate] |].
      split; [right; eexists; split; [reflexivity | discriminate] | reflexivity].
    - eexists _, false. split; [reflexivity |].
      split; [left; cbn; intros Hin; repeat (apply elem_of_cons in Hin as [Hin | Hin];
                [discriminate |]); inversion Hin |].
      split; [left; cbn; intros Hin; repeat (apply elem_of_cons in Hin as [Hin | Hin];
                [discriminate |]); inversion Hin | reflexivity].
    - eexists _, false. split; [reflexivity |].
      split; [right; eexists; split; [reflexivity | discriminate] |].
      split; [right; eexists; split; [reflexivity | discriminate] | reflexivity]. }
  pose proof (task_filter_keeps_present_times tasks H) as (Hrun & Hsame & _).
  split; [exact Hrun | exact Hsame].
Defined.

(** ** Sync without work *)

Lemma string_length_app (s1 s2 : string) :
  String.length (s1 +:+ s2) = (String.length s1 + String.length s2)%nat.
Proof. induction s1 as [| c s1 IH]; simpl; [reflexivity | f_equal; exact IH]. Qed.

(** The credential record and the task document never share a path. *)
Lemma integrations_path_not_tasks_path (uid : JsVal) :
  integrations_path uid ≠ tasks_path uid.
Proof.
  intros Heq. apply (f_equal String.length) in Heq.
  unfold integrations_path, tasks_path in Heq.
  rewrite !string_length_app in Heq. cbn in Heq. lia.
Qed.

(** A user id of the data model is a string that is not empty. *)
Lemma user_id_truthy (uid : JsVal) : user_id uid -> to_boolean uid = true.
Proof.
  intros (s & -> & Hid). destruct s as [| c s]; [discriminate | reflexivity].
Qed.

Section NoWork.

Context {CalState : Type}.
Context (events_insert : CalState -> string -> CalEvent -> Result unit * CalState).

Local Abbreviation exec := (run events_insert).

(** C6. For a user of the data model, whose id the store takes for a
    document: when the credential record of the user is absent, or
    has no truthy [googleCalendar] entry, the sync answers 404 and the
    read of that record is its only effect: the task document, which
    lives at another path, is not read. *)
Theorem no_credential_is_404_without_task_read (h : Host) (uid : JsVal)
    (w : World CalState)
    (Hid : user_id uid)
    (Hcred : docs w !! integrations_path uid = None
             ∨ ∃ tokenData, docs w !! integrations_path uid = Some tokenData
                 ∧ to_boolean (lookup_field tokenData "googleCalendar") = false) :
  exec (sync_calendar h uid) w =
    (Returned (mkResponse 404 "User has not connected Google Calendar."),
     emit (EGet (integrations_path uid)) w)
  ∧ Trace.reads (trace (exec (sync_calendar h uid) w).2)
    = Trace.reads (trace w) ++ [integrations_path uid]
  ∧ integrations_path uid ≠ tasks_path uid.
Proof.
  assert (Hrun : exec (sync_calendar h uid) w =
    (Returned (mkResponse 404 "User has not connected Google Calendar."),
     emit (EGet (integrations_path uid)) w)).
  { pose proof (user_id_truthy uid Hid) as Huid.
    unfold sync_calendar. rewrite Huid. cbn [negb].
    rewrite run_try_catch. unfold sync_calendar_body.
    rewrite run_bind, run_call. cbn [perform].
    destruct Hcred as [-> | (tokenData & -> & Htok)]; [reflexivity |].
    rewrite run_bind. cbn [get ok lift run]. rewrite Htok. reflexivity. }
  split; [exact Hrun | split].
  - rewrite Hrun. cbn. unfold Trace.reads. rewrite omap_app. reflexivity.
  - apply integrations_path_not_tasks_path.
Qed.

(** C10. A connected user whose task document has no [list] entry:
    the sync runs to its end with status 200 and zero events created,
    it makes no insert and writes nothing to the error log. *)
Theorem missing_list_is_empty_sync (h : Host) (uid : JsVal) (w : World CalState)
    (tokenData data : list (string * JsVal))
    (Huid : to_boolean uid = true)
    (Hcred : docs w !! integrations_path uid = Some tokenData)
    (Htok : to_boolean (lookup_field tokenData "googleCalendar") = true)
    (Htasks : docs w !! tasks_path uid = Some data)
    (Hlist : "list" ∉ data.*1) :
  (exec (sync_calendar h uid) w).1 = Returned (sync_complete uid 0)
  ∧ Trace.inserts (trace (exec (sync_calendar h uid) w).2) = Trace.inserts (trace w)
  ∧ Trace.console_errors (trace (exec (sync_calendar h uid) w).2)
    = Trace.console_errors (trace w).
Proof.
  assert (Hfilter : tasksToSync data = inr []).
  { unfold tasksToSync. cbn [get ok]. rewrite (lookup_field_absent _ _ Hlist).
    reflexivity. }
  rewrite (sync_calendar_mapped events_insert h uid w tokenData data [] [])
    by (assumption || constructor).
  cbn [play fst snd loop_effects List.filter length emit_all trace].
  rewrite inserts_app, console_errors_app, app_nil_r. cbn.
  rewrite !app_nil_r. auto.
Qed.

End NoWork.

Lemma no_credential_is_404_without_task_read_witness :
  (run Providers.mem_insert (sync_calendar Examples.host_utc (JStr "u2"))
       (Examples.world ∅ [("list", JArr [Examples.t1])])).1
  = Returned (mkResponse 404 "User has not connected Google Calendar.").
Proof.
  refine (f_equal fst (proj1 (no_credential_is_404_without_task_read
    Providers.mem_insert Examples.host_utc (JStr "u2")
    (Examples.world ∅ [("list", JArr [Examples.t1])]) _ _))).
  - exists "u2"%string. split; reflexivity.
  - left. vm_compute. reflexivity.
Defined.

Lemma missing_list_is_empty_sync_witness :
  (run Providers.mem_insert (sync_calendar Examples.host_utc (JStr "u1"))
       (Examples.world ∅ [("updatedAt", JNum 1704067200000)])).1
  = Returned (mkResponse 200 "Sync complete for u1. 0 new events created.").
Proof.
  refine (proj1 (missing_list_is_empty_sync Providers.mem_insert Examples.host_utc
    (JStr "u1") (Examples.world ∅ [("updatedAt", JNum 1704067200000)])
    Examples.credentials [("updatedAt", JNum 1704067200000)] eq_refl _ eq_refl _ _)).
  - vm_compute. reflexivity.
  - vm_compute. reflexivity.
  - cbn. apply not_elem_of_cons. split; [discriminate | apply not_elem_of_nil].
Defined.

(** ** Insert outcomes *)

Section InsertOutcomes.

Context {CalState : Type}.
Context (events_insert : CalState -> string -> CalEvent -> Result unit * CalState).

Local Abbreviation exec := (run events_insert).

(** A task that maps to no event stops the loop: the tasks before it
    were attempted, the task itself and those after it are not. *)
Lemma sync_loop_stops_at_unmapped_task (h : Host) (before after : list JsVal)
    (bad : JsVal) (e : Exn) (events : list CalEvent) :
  Forall2 (fun task event => to_event h task = inr event) before events ->
  to_event h bad = inl e ->
  ∀ (n : Z) (w : World CalState),
    exec (sync_loop h (before ++ bad :: after) n) w =
    (Threw e,
     emit_all (loop_effects before events (play events_insert (cal w) events).1)
              (set_cal (play events_insert (cal w) events).2 w)).
Proof.
  intros Hmap Hbad. induction Hmap as [| task event before events Hev _ IH]; intros n w.
  - cbn [app]. rewrite (sync_loop_throw events_insert h bad after n e w Hbad).
    cbn. destruct w; unfold emit_all, set_cal; cbn. rewrite app_nil_r. reflexivity.
  - cbn [app play].
    destruct (events_insert (cal w) "primary" event) as [answer c'] eqn:Hins.
    rewrite (sync_loop_step _ _ _ _ _ _ _ _ _ Hev Hins), IH. cbn [cal emit_all set_cal].
    destruct (play events_insert c' events) as [answers c''].
    cbn [fst snd loop_effects]. f_equal.
    unfold emit_all, set_cal. cbn [docs settings_hits cal settle next_promise trace].
    rewrite <- app_assoc. reflexivity.
Qed.

(** The same at the level of the handler: the sync answers 500, and
    the inserts it made are those of the tasks before the bad one. *)
Lemma sync_calendar_aborts_at_unmapped_task (h : Host) (uid : JsVal)
    (w : World CalState) (tokenData data : list (string * JsVal))
    (before after : list JsVal) (bad : JsVal) (e : Exn) (events : list CalEvent) :
  to_boolean uid = true ->
  docs w !! integrations_path uid = Some tokenData ->
  to_boolean (lookup_field tokenData "googleCalendar") = true ->
  docs w !! tasks_path uid = Some data ->
  tasksToSync data = inr (before ++ bad :: after) ->
  Forall2 (fun task event => to_event h task = inr event) before events ->
  to_event h bad = inl e ->
  let out := exec (sync_calendar h uid) w in
  out.1 = Returned (mkResponse 500 "Sync failed.")
  ∧ Trace.inserts (trace out.2)
    = Trace.inserts (trace w) ++ zip events (play events_insert (cal w) events).1.
Proof.
  intros Huid Hcred Htok Htasks Hfilter Hmap Hbad out. subst out.
  assert (Hlen : length before = length events) by (eapply Forall2_length; eassumption).
  pose proof (play_length events_insert (cal w) events) as Hans.
  rewrite (sync_calendar_connected events_insert h uid w tokenData data
             (before ++ bad :: after)) by assumption.
  rewrite (sync_loop_stops_at_unmapped_task h before after bad e events Hmap Hbad).
  cbn [fst snd cal emit_all emit set_cal trace]. split; [reflexivity |].
  rewrite !inserts_app, inserts_loop_effects by assumption.
  change (Trace.inserts [EConsoleError ("Sync failed for " +:+ to_string uid +:+ ":") e])
    with (@nil (CalEvent * Result unit)).
  change (Trace.inserts (prologue uid (lookup_field tokenData "googleCalendar")))
    with (@nil (CalEvent * Result unit)).
  rewrite !app_nil_r. reflexivity.
Qed.

(** C4, amended. An insert that fails with anything but code 409 is
    written to the error log, with the task's id and the error, the
    count of created events stays as it was and the loop goes on with
    the next task. In a sync whose tasks all map to an event the
    failure is no part of the response, which carries the number of
    created events alone; every task is attempted once, in the filter's
    order, whatever the earlier answers were, and the sync ends with
    status 200. *)
Theorem insert_failure_is_logged_and_sync_goes_on (h : Host) (uid : JsVal)
    (w : World CalState) (tokenData data : list (string * JsVal))
    (tasks : list JsVal) (events : list CalEvent)
    (Huid : to_boolean uid = true)
    (Hcred : docs w !! integrations_path uid = Some tokenData)
    (Htok : to_boolean (lookup_field tokenData "googleCalendar") = true)
    (Htasks : docs w !! tasks_path uid = Some data)
    (Hfilter : tasksToSync data = inr tasks)
    (Hmap : Forall2 (fun task event => to_event h task = inr event) tasks events) :
  let answers := (play events_insert (cal w) events).1 in
  let out := exec (sync_calendar h uid) w in
  out.1 = Returned (sync_complete uid (Z.of_nat (length (List.filter accepted answers))))
  ∧ length answers = length tasks
  ∧ Trace.inserts (trace out.2) = Trace.inserts (trace w) ++ zip events answers
  ∧ Trace.console_errors (trace out.2)
    = Trace.console_errors (trace w)
      ++ omap (fun ta => reported ta.1 ta.2) (zip tasks answers)
  ∧ (∀ i task e,
       tasks !! i = Some task -> answers !! i = Some (inl e) ->
       strict_eq_num (exn_code e) 409 = false ->
       ("Error syncing task " +:+ to_string (field task "id") +:+ ":", e)
         ∈ Trace.console_errors (trace out.2))
  ∧ (∀ task event rest n w0 e c',
       to_event h task = inr event ->
       events_insert (cal w0) "primary" event = (inl e, c') ->
       strict_eq_num (exn_code e) 409 = false ->
       exec (sync_loop h (task :: rest) n) w0 =
       exec (sync_loop h rest n)
            (emit_all
               [EInsert "primary" event (inl e);
                EConsoleError
                  ("Error syncing task " +:+ to_string (field task "id") +:+ ":") e]
               (set_cal c' w0))).
Proof.
  intros answers out.
  assert (Hlen : length tasks = length events) by (eapply Forall2_length; eassumption).
  assert (Hans : length answers = length events) by apply play_length.
  assert (Herr : Trace.console_errors (trace out.2)
    = Trace.console_errors (trace w)
      ++ omap (fun ta => reported ta.1 ta.2) (zip tasks answers)).
  { subst out.
    rewrite (sync_calendar_mapped events_insert h uid w tokenData data tasks events)
      by assumption.
    cbn [snd emit_all trace]. rewrite !console_errors_app.
    rewrite console_errors_loop_effects by assumption. reflexivity. }
  split; [| split; [| split; [| split; [| split]]]].
  - subst out.
    rewrite (sync_calendar_mapped events_insert h uid w tokenData data tasks events)
      by assumption.
    reflexivity.
  - lia.
  - subst out.
    rewrite (sync_calendar_mapped events_insert h uid w tokenData data tasks events)
      by assumption.
    cbn [snd emit_all trace]. rewrite !inserts_app.
    rewrite inserts_loop_effects by assumption. reflexivity.
  - exact Herr.
  - intros i task e Hi Ha Hcode. rewrite Herr. apply elem_of_app. right.
    apply list_elem_of_omap. exists (task, inl e). split.
    + apply list_elem_of_lookup. exists i. apply lookup_zip_Some. auto.
    + cbn. rewrite Hcode. reflexivity.
  - intros task event rest n w0 e c' Hev Hins Hcode.
    rewrite (sync_loop_step events_insert h task rest n event (inl e) c' w0 Hev Hins).
    unfold attempt_effects, reported. rewrite Hcode. reflexivity.
Qed.

(** C5. An insert answered with a 409 conflict leaves one insert in the
    trace and nothing else: the count of created events stays as it
    was, nothing is logged and the loop goes on with the next task. So
    in a sync whose tasks all map to an event, when the provider
    answers every insert with a conflict the sync ends with status 200
    and zero events created, the error log is as it was, and each
    event was tried exactly once. *)
Theorem conflicts_are_silent_successes (h : Host) (uid : JsVal)
    (w : World CalState) (tokenData data : list (string * JsVal))
    (tasks : list JsVal) (events : list CalEvent)
    (Huid : to_boolean uid = true)
    (Hcred : docs w !! integrations_path uid = Some tokenData)
    (Htok : to_boolean (lookup_field tokenData "googleCalendar") = true)
    (Htasks : docs w !! tasks_path uid = Some data)
    (Hfilter : tasksToSync data = inr tasks)
    (Hmap : Forall2 (fun task event => to_event h task = inr event) tasks events)
    (Hconflict : Forall (fun answer => conflict answer = true)
                        (play events_insert (cal w) events).1) :
  let out := exec (sync_calendar h uid) w in
  out.1 = Returned (sync_complete uid 0)
  ∧ Trace.console_errors (trace out.2) = Trace.console_errors (trace w)
  ∧ (Trace.inserts (trace out.2)).*1 = (Trace.inserts (trace w)).*1 ++ events
  ∧ (∀ task event rest n w0 e c',
       to_event h task = inr event ->
       events_insert (cal w0) "primary" event = (inl e, c') ->
       strict_eq_num (exn_code e) 409 = true ->
       exec (sync_loop h (task :: rest) n) w0 =
       exec (sync_loop h rest n)
            (emit (EInsert "primary" event (inl e)) (set_cal c' w0))).
Proof.
  intros out. subst out.
  assert (Hstep : ∀ task event rest n w0 e c',
       to_event h task = inr event ->
       events_insert (cal w0) "primary" event = (inl e, c') ->
       strict_eq_num (exn_code e) 409 = true ->
       exec (sync_loop h (task :: rest) n) w0 =
       exec (sync_loop h rest n)
            (emit (EInsert "primary" event (inl e)) (set_cal c' w0))).
  { intros task event rest n w0 e c' Hev Hins Hcode.
    rewrite (sync_loop_step events_insert h task rest n event (inl e) c' w0 Hev Hins).
    unfold attempt_effects, reported. rewrite Hcode. reflexivity. }
  assert (Hlen : length tasks = length events) by (eapply Forall2_length; eassumption).
  pose proof (play_length events_insert (cal w) events) as Hans.
  rewrite (sync_calendar_mapped events_insert h uid w tokenData data tasks events)
    by assumption.
  cbn [fst snd emit_all trace].
  rewrite !console_errors_app, !inserts_app.
  rewrite console_errors_loop_effects, inserts_loop_effects by assumption.
  set (answers := (play events_insert (cal w) events).1) in *.
  assert (Hnone : List.filter accepted answers = []).
  { clear -Hconflict. induction Hconflict as [| [e | []] answers Hc _ IH]; cbn;
      [reflexivity | exact IH | discriminate]. }
  assert (Hquiet : omap (fun ta : JsVal * Result unit => reported ta.1 ta.2)
                        (zip tasks answers) = []).
  { clear -Hconflict. revert tasks.
    induction Hconflict as [| [e | []] answers Hc _ IH]; intros [| task tasks]; cbn;
      try reflexivity; try discriminate.
    cbn in Hc. rewrite Hc. apply IH. }
  rewrite Hnone, Hquiet. cbn. rewrite !app_nil_r, fmap_app.
  split; [reflexivity | split; [reflexivity | split; [| exact Hstep]]].
  f_equal. apply fst_zip. lia.
Qed.

End InsertOutcomes.

Lemma insert_failure_is_logged_and_sync_goes_on_witness :
  let out := run Providers.scripted_insert
               (sync_calendar Examples.host_utc (JStr "u1"))
               (Examples.world [inl Examples.backend_error]
                  [("list", JArr [Examples.t1; Examples.t3])]) in
  out.1 = Returned (mkResponse 200 "Sync complete for u1. 1 new events created.")
  ∧ Trace.console_errors (trace out.2)
    = [("Error syncing task t1:", Examples.backend_error)].
Proof.
  pose proof (insert_failure_is_logged_and_sync_goes_on Providers.scripted_insert
    Examples.host_utc (JStr "u1")
    (Examples.world [inl Examples.backend_error]
       [("list", JArr [Examples.t1; Examples.t3])])
    Examples.credentials [("list", JArr [Examples.t1; Examples.t3])]
    [Examples.t1; Examples.t3]
    [Examples.event_of Examples.host_utc Examples.t1;
     Examples.event_of Examples.host_utc Examples.t3]
    eq_refl eq_refl eq_refl eq_refl eq_refl
    ltac:(repeat constructor))
    as (Hresp & _ & _ & Herr & _).
  split; [exact Hresp | exact Herr].
Defined.

(** C4 as worded fails: the response of a sync in which an insert
    failed with code 500 is the response of a sync in which that
    insert met a conflict; the failure is in the error log only. *)
Lemma insert_failure_is_absent_from_response :
  let failed := run Providers.scripted_insert
                  (sync_calendar Examples.host_utc (JStr "u1"))
                  (Examples.world [inl Examples.backend_error]
                     [("list", JArr [Examples.t1])]) in
  let conflicted := run Providers.scripted_insert
                      (sync_calendar Examples.host_utc (JStr "u1"))
                      (Examples.world [inl Examples.already_exists]
                         [("list", JArr [Examples.t1])]) in
  failed.1 = Returned (mkResponse 200 "Sync complete for u1. 0 new events created.")
  ∧ conflicted.1 = failed.1
  ∧ Trace.console_errors (trace failed.2)
    = [("Error syncing task t1:", Examples.backend_error)]
  ∧ Trace.console_errors (trace conflicted.2) = [].
Proof. vm_compute. auto. Qed.

Lemma conflicts_are_silent_successes_witness :
  let first := run Providers.mem_insert
                 (sync_calendar Examples.host_utc (JStr "u1"))
                 (Examples.world ∅ [("list", JArr [Examples.t1; Examples.t3])]) in
  let again := run Providers.mem_insert
                 (sync_calendar Examples.host_utc (JStr "u1"))
                 (Examples.world (cal first.2)
                    [("list", JArr [Examples.t1; Examples.t3])]) in
  first.1 = Returned (mkResponse 200 "Sync complete for u1. 2 new events created.")
  ∧ again.1 = Returned (mkResponse 200 "Sync complete for u1. 0 new events created.")
  ∧ Trace.console_errors (trace again.2) = [].
Proof.
  intros first again.
  pose proof (conflicts_are_silent_successes Providers.mem_insert
    Examples.host_utc (JStr "u1")
    (Examples.world (cal first.2) [("list", JArr [Examples.t1; Examples.t3])])
    Examples.credentials [("list", JArr [Examples.t1; Examples.t3])]
    [Examples.t1; Examples.t3]
    [Examples.event_of Examples.host_utc Examples.t1;
     Examples.event_of Examples.host_utc Examples.t3]
    eq_refl eq_refl eq_refl eq_refl eq_refl
    ltac:(repeat constructor) ltac:(repeat constructor))
    as (Hresp & Herr & _).
  split; [vm_compute; reflexivity | split; [exact Hresp | exact Herr]].
Defined.

(** ** Tasks that do not map to an event *)

(** C3 does not hold of the code. Of three tasks to sync the
    second has the due date "tomorrow". Building its event throws a
    [RangeError] outside the per-insert [try], so the sync answers 500;
    only the first task's event was sent, the third task is never
    attempted, and the one log entry names the user, not the task. *)
Theorem unparseable_due_date_aborts_sync :
  let tasks := [Examples.t1; Examples.t2_bad_date; Examples.t3] in
  let out := run Providers.mem_insert
               (sync_calendar Examples.host_utc (JStr "u1"))
               (Examples.world ∅ [("list", JArr tasks)]) in
  tasksToSync [("list", JArr tasks)] = inr tasks
  ∧ to_event Examples.host_utc Examples.t2_bad_date = inl RangeError
  ∧ (∃ event, to_event Examples.host_utc Examples.t3 = inr event)
  ∧ out.1 = Returned (mkResponse 500 "Sync failed.")
  ∧ (Trace.inserts (trace out.2)).*1 = [Examples.event_of Examples.host_utc Examples.t1]
  ∧ Trace.console_errors (trace out.2) = [("Sync failed for u1:", RangeError)].
Proof.
  vm_compute. repeat split; try reflexivity. eexists. reflexivity.
Qed.

(** ** Event times and the host's time zone *)

(** C7 does not hold of the code on every host. Take the scenario's
    task on a host whose local time is UTC: one insert is made, with
    id "momentumt1", and one event is reported created; but the start
    and end are the instants 09:00 and 10:00 UTC, labelled
    Asia/Kolkata, which is five and a half hours after 09:00 and 10:00
    Kolkata time. *)
Theorem scenario_on_utc_host_is_shifted :
  let out := run Providers.mem_insert
               (sync_calendar Examples.host_utc (JStr "u1"))
               (Examples.world ∅ [("list", JArr [Examples.t1])]) in
  out.1 = Returned (mkResponse 200 "Sync complete for u1. 1 new events created.")
  ∧ ∃ event,
      Trace.inserts (trace out.2) = [(event, inr tt)]
      ∧ id event = "momentumt1"
      ∧ start event = mkEventTime "2024-01-01T09:00:00.000Z" "Asia/Kolkata"
      ∧ end_ event = mkEventTime "2024-01-01T10:00:00.000Z" "Asia/Kolkata"
      ∧ JsDate.parse kolkata "2024-01-01T09:00" = Some 1704079800000
      ∧ instant (start event) = Some (1704079800000 + 19800000)
      ∧ JsDate.parse kolkata "2024-01-01T10:00" = Some 1704083400000
      ∧ instant (end_ event) = Some (1704083400000 + 19800000).
Proof.
  split; [vm_compute; reflexivity |].
  eexists. repeat split; vm_compute; reflexivity.
Qed.

(** On a host whose local time is Kolkata time the scenario holds. *)
Lemma scenario_on_kolkata_host :
  let out := run Providers.mem_insert
               (sync_calendar Examples.host_kolkata (JStr "u1"))
               (Examples.world ∅ [("list", JArr [Examples.t1])]) in
  out.1 = Returned (mkResponse 200 "Sync complete for u1. 1 new events created.")
  ∧ ∃ event,
      Trace.inserts (trace out.2) = [(event, inr tt)]
      ∧ id event = "momentumt1"
      ∧ start event = mkEventTime "2024-01-01T03:30:00.000Z" "Asia/Kolkata"
      ∧ end_ event = mkEventTime "2024-01-01T04:30:00.000Z" "Asia/Kolkata"
      ∧ instant (start event) = JsDate.parse kolkata "2024-01-01T09:00"
      ∧ instant (end_ event) = JsDate.parse kolkata "2024-01-01T10:00".
Proof.
  split; [vm_compute; reflexivity |].
  eexists. repeat split; vm_compute; reflexivity.
Qed.

(** ** The body of a trigger *)

Lemma json_unescape_escape (c : ascii) (rest : string) :
  json_unescape (json_escape c +:+ rest) = String c (json_unescape rest).
Proof. destruct c as [[] [] [] [] [] [] [] []]; reflexivity. Qed.

(** Reading back the escaped characters of a string gives the string. *)
Lemma json_unescape_json_chars (s : string) : json_unescape (json_chars s) = s.
Proof.
  induction s as [| c s IH]; [reflexivity |].
  cbn [json_chars]. rewrite json_unescape_escape, IH. reflexivity.
Qed.

Lemma string_app_inv_tail (s1 s2 t : string) : s1 +:+ t = s2 +:+ t -> s1 = s2.
Proof.
  revert s2. induction s1 as [| c s1 IH]; intros [| c' s2] Heq.
  - reflexivity.
  - apply (f_equal String.length) in Heq.
    rewrite !string_length_app in Heq. simpl in Heq. lia.
  - apply (f_equal String.length) in Heq.
    rewrite !string_length_app in Heq. simpl in Heq. lia.
  - change (String c (s1 +:+ t) = String c' (s2 +:+ t)) in Heq.
    injection Heq as -> Heq. f_equal. apply IH, Heq.
Qed.

(** Two triggers with the same body are triggers of the same user. *)
Lemma trigger_body_inj (uid1 uid2 : string) :
  fetch_body (trigger_init uid1) = fetch_body (trigger_init uid2) -> uid1 = uid2.
Proof.
  unfold trigger_init, json_string. cbn [fetch_body]. intros Heq.
  cbn in Heq. injection Heq as Heq.
  do 2 apply string_app_inv_tail in Heq.
  apply (f_equal json_unescape) in Heq.
  rewrite !json_unescape_json_chars in Heq. exact Heq.
Qed.

(** ** Calendar arithmetic *)

(** The two directions of the calendar arithmetic agree, checked day
    by day from 1942 to 2052; the epoch is day 0 and 2024-01-01 is day
    19723. *)
Lemma civil_of_day_make_day_checked :
  JsDate.days_agree (Z.to_nat 40000) (-10000) = true
  ∧ JsDate.make_day 1970 1 1 = 0
  ∧ JsDate.civil_of_day 19723 = (2024, 1, 1).
Proof. vm_compute. auto. Qed.


(** ** The fan-out *)

Lemma fold_set_add_elem (l acc : list string) (x : string) :
  x ∈ fold_left set_add l acc ↔ x ∈ acc ∨ x ∈ l.
Proof.
  revert acc. induction l as [| y l IH]; intros acc; cbn.
  - rewrite elem_of_nil. tauto.
  - rewrite IH, elem_of_cons. unfold set_add.
    destruct (decide (y ∈ acc)) as [Hin | Hnot].
    + split; [tauto |]. intros [? | [-> | ?]]; tauto.
    + rewrite elem_of_app, list_elem_of_singleton. tauto.
Qed.

Lemma fold_set_add_NoDup (l acc : list string) :
  NoDup acc -> NoDup (fold_left set_add l acc).
Proof.
  revert acc. induction l as [| y l IH]; intros acc Hacc; cbn; [exact Hacc |].
  apply IH. unfold set_add. destruct (decide (y ∈ acc)) as [Hin | Hnot]; [exact Hacc |].
  apply NoDup_app. split; [exact Hacc | split].
  - intros x Hx Hy. apply list_elem_of_singleton in Hy. subst. contradiction.
  - apply NoDup_singleton.
Qed.

(** [[...new Set(userIds)]] holds each identifier of [userIds] once. *)
Lemma spread_new_Set_count (userIds : list string) (uid : string) :
  count_occ string_dec (spread_new_Set userIds) uid
  = if decide (uid ∈ userIds) then 1%nat else 0%nat.
Proof.
  assert (Hmem : uid ∈ spread_new_Set userIds ↔ uid ∈ userIds).
  { unfold spread_new_Set. rewrite fold_set_add_elem, elem_of_nil. tauto. }
  destruct (decide (uid ∈ userIds)) as [Hin | Hnot].
  - apply NoDup_count_occ'.
    + apply NoDup_ListNoDup, fold_set_add_NoDup. constructor.
    + apply list_elem_of_In, Hmem, Hin.
  - apply count_occ_not_In. rewrite <- list_elem_of_In, Hmem. exact Hnot.
Qed.

Lemma fetches_app (l1 l2 : list Effect) :
  Trace.fetches (l1 ++ l2) = Trace.fetches l1 ++ Trace.fetches l2.
Proof. apply omap_app. Qed.

Lemma fetches_trigger_effects (h : Host) (p : Promise) (uids : list string) :
  Trace.fetches (trigger_effects h p uids)
  = (fun uid => (sync_url h, trigger_init uid)) <$> uids.
Proof.
  revert p. induction uids as [| uid uids IH]; intros p; cbn; [reflexivity |].
  f_equal. apply IH.
Qed.

Lemma no_await_trigger_effects (h : Host) (p : Promise) (uids : list string) :
  forallb (fun ev => negb (Trace.is_await ev)) (trigger_effects h p uids) = true.
Proof. revert p. induction uids as [| uid uids IH]; intros p; cbn; auto. Qed.

Section FanOut.

Context {CalState : Type}.
Context (events_insert : CalState -> string -> CalEvent -> Result unit * CalState).

Local Abbreviation exec := (run events_insert).

(** The trigger loop hands out one promise per identifier and looks at
    none of them. *)
Lemma trigger_all_run (h : Host) (uids : list string) (w : World CalState) :
  exec (trigger_all h uids) w =
  (Returned tt,
   emit_all (trigger_effects h (next_promise w) uids)
            (advance_promises (length uids) w)).
Proof.
  revert w. induction uids as [| uid uids IH]; intros w.
  - cbn. destruct w; unfold emit_all, advance_promises; cbn.
    rewrite app_nil_r. reflexivity.
  - cbn [trigger_all]. rewrite run_bind, run_call. cbn [perform]. rewrite IH.
    unfold emit_all, advance_promises, emit, fresh_promise.
    cbn [docs settings_hits cal settle next_promise trace trigger_effects length].
    rewrite <- app_assoc, Nat.add_succ_r. reflexivity.
Qed.

(** An authorized run over a non-empty discovery result whose records
    all have an owner. *)
Lemma sync_all_users_run (h : Host) (authorization : JsVal) (w : World CalState)
    (userIds : list string) :
  strict_eq_str authorization ("Bearer " +:+ to_string (CRON_SECRET h)) = true ->
  settings_hits w ≠ [] ->
  map_owner_id (settings_hits w) = inr userIds ->
  exec (sync_all_users h authorization) w =
  (Returned (mkResponse 200
     (users_line "Sync triggered for " (length (spread_new_Set userIds)) " users.")),
   emit_all
     ([EQuery;
       EConsoleLog (users_line "CRON: Found " (length (spread_new_Set userIds))
                      " users to sync.")]
      ++ trigger_effects h (next_promise w) (spread_new_Set userIds))
     (advance_promises (length (spread_new_Set userIds)) w)).
Proof.
  intros Hauth Hhits Hids.
  unfold sync_all_users, sync_all_users_with. rewrite Hauth. cbn [negb].
  rewrite run_try_catch. unfold sync_all_users_body.
  rewrite run_bind, run_call. cbn [perform].
  destruct (settings_hits w) as [| ref refs] eqn:Hrefs; [contradiction |].
  rewrite run_bind, Hids. cbn [lift run].
  rewrite run_bind, run_call. cbn [perform].
  rewrite run_bind, trigger_all_run.
  unfold emit_all, advance_promises, emit.
  cbn [docs settings_hits cal settle next_promise trace run].
  rewrite <- !app_assoc. reflexivity.
Qed.

(** C8. In an authorized fan-out whose discovered records all have an
    owner, the triggers issued are one [fetch] per entry of
    [[...new Set(userIds)]], all to the sync endpoint; among their
    bodies the body naming a user occurs exactly once when some
    discovered record resolves to that user, however many do, and not
    at all otherwise. *)
Theorem each_owner_is_triggered_once (h : Host) (authorization : JsVal)
    (w : World CalState) (userIds : list string)
    (Hauth : strict_eq_str authorization ("Bearer " +:+ to_string (CRON_SECRET h)) = true)
    (Hids : map_owner_id (settings_hits w) = inr userIds) :
  let out := exec (sync_all_users h authorization) w in
  ∃ triggers,
    Trace.fetches (trace out.2) = Trace.fetches (trace w) ++ triggers
    ∧ triggers = ((fun uid => (sync_url h, trigger_init uid)) <$> spread_new_Set userIds)
    ∧ (∀ uid, count_occ string_dec (spread_new_Set userIds) uid
              = if decide (uid ∈ userIds) then 1%nat else 0%nat)
    ∧ (∀ uid, count_occ string_dec ((fun t => fetch_body t.2) <$> triggers)
                        (fetch_body (trigger_init uid))
              = if decide (uid ∈ userIds) then 1%nat else 0%nat).
Proof.
  intros out. eexists. split; [| split; [reflexivity | split]].
  - subst out. destruct (settings_hits w) as [| ref refs] eqn:Hrefs.
    + injection Hids as <-.
      unfold sync_all_users, sync_all_users_with. rewrite Hauth. cbn [negb].
      rewrite run_try_catch. unfold sync_all_users_body.
      rewrite run_bind, run_call. cbn [perform]. rewrite Hrefs. cbn.
      rewrite fetches_app, !app_nil_r. reflexivity.
    + rewrite (sync_all_users_run h authorization w userIds Hauth);
        [| congruence | congruence].
      cbn [snd emit_all trace]. rewrite !fetches_app, fetches_trigger_effects.
      reflexivity.
  - apply spread_new_Set_count.
  - intros uid. rewrite <- list_fmap_compose.
    rewrite <- (spread_new_Set_count userIds uid).
    symmetry.
    apply (count_occ_map (fun u => fetch_body (trigger_init u)) string_dec string_dec
             trigger_body_inj).
Qed.

(** C9. An authorized fan-out over a non-empty discovery result whose
    records all have an owner returns the triggered-count response
    after one [fetch] per unique owner and without awaiting any of the
    promises: the run is never stuck on one, no effect of it is an
    await, and outcome and effects are the same whichever way, if at
    all, the triggered syncs settle. *)
Theorem fan_out_does_not_await (h : Host) (authorization : JsVal)
    (w : World CalState) (userIds : list string)
    (Hauth : strict_eq_str authorization ("Bearer " +:+ to_string (CRON_SECRET h)) = true)
    (Hhits : settings_hits w ≠ [])
    (Hids : map_owner_id (settings_hits w) = inr userIds) :
  let n := length (spread_new_Set userIds) in
  let out := exec (sync_all_users h authorization) w in
  out.1 = Returned (mkResponse 200 (users_line "Sync triggered for " n " users."))
  ∧ (∃ effects, trace out.2 = trace w ++ effects
       ∧ length (Trace.fetches effects) = n
       ∧ forallb (fun ev => negb (Trace.is_await ev)) effects = true)
  ∧ next_promise out.2 = (n + next_promise w)%nat
  ∧ ∀ fate, let out' := exec (sync_all_users h authorization) (with_settle fate w) in
            out'.1 = out.1 ∧ trace out'.2 = trace out.2.
Proof.
  intros n out. subst out n.
  rewrite (sync_all_users_run h authorization w userIds Hauth Hhits Hids).
  cbn [fst snd emit_all trace next_promise advance_promises].
  split; [reflexivity | split; [| split; [reflexivity |]]].
  - eexists. split; [reflexivity |].
    rewrite fetches_app, fetches_trigger_effects, forallb_app, no_await_trigger_effects.
    cbn. rewrite length_fmap. auto.
  - intros fate.
    rewrite (sync_all_users_run h authorization (with_settle fate w) userIds Hauth Hhits Hids).
    cbn. auto.
Qed.

End FanOut.

Lemma each_owner_is_triggered_once_witness :
  let out := run Examples.no_calendar
               (sync_all_users Examples.host_utc (JStr "Bearer s3cret"))
               (Examples.cron_world Examples.three_hits (fun _ => None)) in
  map_owner_id Examples.three_hits = inr ["u1"; "u2"; "u1"]
  ∧ Trace.fetches (trace out.2)
    = [(sync_url Examples.host_utc, trigger_init "u1");
       (sync_url Examples.host_utc, trigger_init "u2")]
  ∧ count_occ string_dec (spread_new_Set ["u1"; "u2"; "u1"]) "u1" = 1%nat.
Proof.
  intros out.
  pose proof (each_owner_is_triggered_once Examples.no_calendar Examples.host_utc
    (JStr "Bearer s3cret") (Examples.cron_world Examples.three_hits (fun _ => None))
    ["u1"; "u2"; "u1"] eq_refl eq_refl) as (triggers & Hfetch & -> & Hcount & _).
  split; [reflexivity | split; [exact Hfetch | exact (Hcount "u1")]].
Defined.

Lemma fan_out_does_not_await_witness :
  let rejected (p : Promise) : option (Result JsVal) := Some (inl TypeError) in
  let out := run Examples.no_calendar
               (sync_all_users Examples.host_utc (JStr "Bearer s3cret"))
               (Examples.cron_world Examples.three_hits rejected) in
  out.1 = Returned (mkResponse 200 "Sync triggered for 2 users.").
Proof.
  intros rejected out.
  refine (proj1 (fan_out_does_not_await Examples.no_calendar Examples.host_utc
    (JStr "Bearer s3cret") (Examples.cron_world Examples.three_hits rejected)
    ["u1"; "u2"; "u1"] eq_refl _ eq_refl)).
  discriminate.
Defined.

(** What awaiting would do: with [await fetch(...)] in the loop the
    handler hangs on a sync that never settles and answers 500 when
    one fails. *)
Lemma awaiting_fan_out_depends_on_the_syncs :
  let pending (p : Promise) : option (Result JsVal) := None in
  let rejected (p : Promise) : option (Result JsVal) := Some (inl TypeError) in
  let awaiting := sync_all_users_with trigger_all_awaiting Examples.host_utc
                    (JStr "Bearer s3cret") in
  (run Examples.no_calendar awaiting
       (Examples.cron_world Examples.three_hits pending)).1 = Stuck
  ∧ (run Examples.no_calendar awaiting
         (Examples.cron_world Examples.three_hits rejected)).1
    = Returned (mkResponse 500 "Cron job failed").
Proof. vm_compute. auto. Qed.

(** ** The in-memory calendar *)

Lemma play_cons {CalState} (ins : CalState -> string -> CalEvent -> Result unit * CalState)
    (c : CalState) (event : CalEvent) (events : list CalEvent) :
  play ins c (event :: events)
  = ((ins c "primary" event).1 :: (play ins (ins c "primary" event).2 events).1,
     (play ins (ins c "primary" event).2 events).2).
Proof.
  cbn [play]. destruct (ins c "primary" event) as [answer c']. cbn [fst snd].
  destruct (play ins c' events). reflexivity.
Qed.

Lemma mem_insert_held (c : gmap string CalEvent) (event : CalEvent) :
  is_Some ((Providers.mem_insert c "primary" event).2 !! id event).
Proof.
  unfold Providers.mem_insert. destruct (c !! id event) eqn:Hlook; cbn.
  - rewrite Hlook. eauto.
  - rewrite lookup_insert_eq. eauto.
Qed.

Lemma mem_insert_keeps (c : gmap string CalEvent) (event : CalEvent) (key : string) :
  is_Some (c !! key) -> is_Some ((Providers.mem_insert c "primary" event).2 !! key).
Proof.
  intros Hc. unfold Providers.mem_insert. destruct (c !! id event); cbn; [exact Hc |].
  rewrite lookup_insert. case_decide; [eauto | exact Hc].
Qed.

Lemma mem_insert_conflict (c : gmap string CalEvent) (event held : CalEvent) :
  c !! id event = Some held ->
  Providers.mem_insert c "primary" event = (inl Examples.already_exists, c).
Proof. intros Hheld. unfold Providers.mem_insert. rewrite Hheld. reflexivity. Qed.

Lemma mem_play_keeps (events : list CalEvent) (c : gmap string CalEvent) (key : string) :
  is_Some (c !! key) -> is_Some ((play Providers.mem_insert c events).2 !! key).
Proof.
  revert c. induction events as [| event events IH]; intros c Hc; [exact Hc |].
  rewrite play_cons. cbn [snd]. apply IH, mem_insert_keeps, Hc.
Qed.

Lemma mem_play_holds (events : list CalEvent) (c : gmap string CalEvent) :
  Forall (fun event => is_Some ((play Providers.mem_insert c events).2 !! id event)) events.
Proof.
  revert c. induction events as [| event events IH]; intros c; [constructor |].
  rewrite play_cons. cbn [snd]. constructor.
  - apply mem_play_keeps, mem_insert_held.
  - apply IH.
Qed.

Lemma mem_play_conflicts (events : list CalEvent) (c : gmap string CalEvent) :
  Forall (fun event => is_Some (c !! id event)) events ->
  Forall (fun answer => conflict answer = true) (play Providers.mem_insert c events).1
  ∧ (play Providers.mem_insert c events).2 = c.
Proof.
  induction 1 as [| event events [held Hheld] _ [IHa IHc]]; [split; constructor |].
  rewrite play_cons, (mem_insert_conflict c event held Hheld). cbn [fst snd].
  split; [constructor; [reflexivity | exact IHa] | exact IHc].
Qed.

(** Whatever the calendar held, once the events were fed to it a second
    pass meets a conflict at every insert and changes nothing. *)
Lemma mem_calendar_replay_conflicts (events : list CalEvent) (c : gmap string CalEvent) :
  let c' := (play Providers.mem_insert c events).2 in
  Forall (fun answer => conflict answer = true) (play Providers.mem_insert c' events).1
  ∧ (play Providers.mem_insert c' events).2 = c'.
Proof. apply mem_play_conflicts, mem_play_holds. Qed.

(** ** More on event identifiers *)

Lemma list_ascii_of_string_app (s1 s2 : string) :
  list_ascii_of_string (s1 +:+ s2) = list_ascii_of_string s1 ++ list_ascii_of_string s2.
Proof.
  induction s1 as [| c s1 IH]; [reflexivity |].
  change (c :: list_ascii_of_string (s1 +:+ s2)
          = c :: (list_ascii_of_string s1 ++ list_ascii_of_string s2)).
  f_equal. exact IH.
Qed.

Lemma sanitize_app (s1 s2 : string) : sanitize (s1 +:+ s2) = sanitize s1 +:+ sanitize s2.
Proof.
  induction s1 as [| c s1 IH]; [reflexivity |].
  change (sanitize (String c (s1 +:+ s2)) = sanitize (String c s1) +:+ sanitize s2).
  unfold sanitize in *. cbn [list_ascii_of_string List.filter].
  destruct (is_alnum c); cbn [string_of_list_ascii]; rewrite IH; reflexivity.
Qed.

Lemma event_id_of_string_id (task : JsVal) (eid : string) :
  eventId task = inr eid ->
  ∃ s, get task "id" = inr (JStr s) ∧ eid = "momentum" +:+ sanitize s.
Proof.
  unfold eventId. intros H.
  apply result_bind_inr in H as (v & Hv & H).
  apply result_bind_inr in H as (stripped & Hs & H).
  injection H as <-. destruct v; try discriminate. injection Hs as <-.
  rewrite replace_all_sanitize. eauto.
Qed.

(** X1. Whatever the task's id, an event identifier that is derived
    starts with "momentum", has at least eight characters and holds
    letters and digits only. *)
Theorem event_id_is_alphanumeric (task : JsVal) (eid : string)
    (Heid : eventId task = inr eid) :
  startsWith eid "momentum" = true
  ∧ (8 <= String.length eid)%nat
  ∧ Forall (fun c => is_alnum c = true) (list_ascii_of_string eid).
Proof.
  destruct (event_id_of_string_id task eid Heid) as (s & _ & ->).
  split; [reflexivity | split].
  - rewrite string_length_app. cbn. lia.
  - rewrite list_ascii_of_string_app. apply Forall_app. split.
    + repeat constructor.
    + unfold sanitize. rewrite list_ascii_of_string_of_list_ascii.
      apply Forall_forall. intros c Hc. apply list_elem_of_In, filter_In in Hc. tauto.
Qed.

Lemma event_id_is_alphanumeric_witness :
  Forall (fun c => is_alnum c = true) (list_ascii_of_string "momentumab12").
Proof.
  exact (proj2 (proj2 (event_id_is_alphanumeric
                         (JObj [("id", JStr "a_b/1 2")]) "momentumab12" eq_refl))).
Defined.

(** X2. A character outside [A-Za-z0-9] in a task id leaves no mark on
    the event identifier: two tasks whose ids differ only by such a
    character get the same identifier. *)
Theorem event_id_ignores_other_characters (task task' : JsVal) (s1 s2 : string)
    (c : ascii)
    (Hc : is_alnum c = false)
    (Hid : get task "id" = inr (JStr (s1 +:+ String c s2)))
    (Hid' : get task' "id" = inr (JStr (s1 +:+ s2))) :
  eventId task = eventId task'.
Proof.
  unfold eventId. rewrite Hid, Hid'. cbn. rewrite !replace_all_sanitize, !sanitize_app.
  unfold sanitize at 2. cbn [list_ascii_of_string List.filter]. rewrite Hc. reflexivity.
Qed.

Lemma event_id_ignores_other_characters_witness :
  eventId (JObj [("id", JStr "a-1")]) = eventId (JObj [("id", JStr "a1")]).
Proof.
  exact (event_id_ignores_other_characters (JObj [("id", JStr "a-1")])
           (JObj [("id", JStr "a1")]) "a" "1" "-" eq_refl eq_refl eq_refl).
Defined.

(** ** Which tasks map to an event *)

(** The event of a task object, case by case. *)
Lemma to_event_object (h : Host) (fields : list (string * JsVal)) :
  let text name :=
    to_string (lookup_field fields "dueDate") +:+ "T"
    +:+ to_string (lookup_field fields name) in
  to_event h (JObj fields) =
  match lookup_field fields "id" with
  | JStr s =>
      match JsDate.parse (local_tza h) (text "startTime"),
            JsDate.parse (local_tza h) (text "endTime") with
      | Some a, Some b =>
          inr (mkCalEvent (lookup_field fields "text")
                 ("Synced from Momentum: "
                  +:+ to_string (js_or (lookup_field fields "category") (JStr "Normal"))
                  +:+ " Task")
                 (mkEventTime (JsDate.iso_of_time a) "Asia/Kolkata")
                 (mkEventTime (JsDate.iso_of_time b) "Asia/Kolkata")
                 ("momentum" +:+ sanitize s))
      | _, _ => inl RangeError
      end
  | _ => inl TypeError
  end.
Proof.
  intros text. subst text.
  unfold to_event, eventId, event_time, JsDate.new_Date_toISOString. cbn [get ok].
  cbn [mbind result_bind].
  destruct (lookup_field fields "id") as [| | b | n | s | l | f]; try reflexivity.
  cbn [Regex.replace throw ok mbind result_bind mret result_ret].
  rewrite replace_all_sanitize.
  destruct (JsDate.parse (local_tza h)
              (to_string (lookup_field fields "dueDate") +:+ "T"
               +:+ to_string (lookup_field fields "startTime"))) as [a |];
    destruct (JsDate.parse (local_tza h)
                (to_string (lookup_field fields "dueDate") +:+ "T"
                 +:+ to_string (lookup_field fields "endTime"))) as [b |];
    reflexivity.
Qed.

Ltac settle_cases :=
  unfold not, is_Some; repeat split; intros;
  repeat match goal with
         | H : ex _ |- _ => destruct H
         | H : _ ∧ _ |- _ => destruct H
         end;
  try discriminate; try congruence; try solve [eauto 6]; try solve [exfalso; eauto 6].

(** *** Reading the dates of the data model *)

Lemma digit_of_range (c : ascii) (d : Z) : JsDate.digit_of c = Some d -> 0 <= d <= 9.
Proof.
  destruct c as [[] [] [] [] [] [] [] []]; vm_compute; intros [= <-]; split; discriminate.
Qed.

Lemma read_digits_app (n : nat) (acc : Z) (cs more rest : list ascii) (v : Z) :
  JsDate.read_digits n acc cs = Some (v, rest) ->
  JsDate.read_digits n acc (cs ++ more) = Some (v, rest ++ more).
Proof.
  revert acc cs. induction n as [| n IH]; intros acc cs; cbn [JsDate.read_digits].
  - intros [= <- <-]. reflexivity.
  - destruct cs as [| c cs]; [discriminate |]. cbn [app].
    destruct (JsDate.digit_of c); [apply IH | discriminate].
Qed.

Lemma read_digits_bounds (n : nat) (acc : Z) (cs rest : list ascii) (v : Z) :
  JsDate.read_digits n acc cs = Some (v, rest) ->
  acc * 10 ^ Z.of_nat n <= v < (acc + 1) * 10 ^ Z.of_nat n.
Proof.
  revert acc cs. induction n as [| n IH]; intros acc cs; cbn [JsDate.read_digits].
  - intros [= <- _]. cbn. lia.
  - destruct cs as [| c cs]; [discriminate |].
    destruct (JsDate.digit_of c) as [d |] eqn:Hd; [| discriminate].
    intros Hread. apply IH in Hread. apply digit_of_range in Hd.
    rewrite Nat2Z.inj_succ, Z.pow_succ_r by lia.
    assert (0 < 10 ^ Z.of_nat n) by (apply Z.pow_pos_nonneg; lia).
    nia.
Qed.

(** A text that starts with a digit has its year in four digits. *)
Lemma read_year_unsigned (c : ascii) (cs : list ascii) (d : Z) :
  JsDate.digit_of c = Some d ->
  JsDate.read_year (c :: cs) = JsDate.read_digits 4 0 (c :: cs).
Proof.
  intros H. destruct c as [[] [] [] [] [] [] [] []];
    first [discriminate H | reflexivity].
Qed.

Lemma make_day_bounds (y mo d : Z) :
  0 <= y <= 9999 -> 1 <= mo <= 12 -> 1 <= d <= 31 ->
  -720000 <= JsDate.make_day y mo d <= 2933000.
Proof.
  intros Hy Hmo Hd. unfold JsDate.make_day.
  destruct (mo <=? 2) eqn:Hle; Z.div_mod_to_equations; lia.
Qed.

Lemma on_clock_valid_time (h m : Z) :
  JsDate.valid_time h m 0 0 = on_clock (h, m).
Proof.
  unfold JsDate.valid_time, on_clock. cbn [Z.eqb].
  destruct (h <=? 23) eqn:H23, (h =? 24) eqn:H24, (m =? 0) eqn:H0, (m <=? 59) eqn:H59;
    cbn; try reflexivity; lia.
Qed.

(** The fields read from a due date written [YYYY-MM-DD] and a time
    written [HH:MM]. *)
Lemma read_fields_scheduled (d s : string) (y mo dd h m : Z) :
  date_text d = Some (y, mo, dd) ->
  clock_text s = Some (h, m) ->
  JsDate.read_fields (list_ascii_of_string (d +:+ "T" +:+ s))
  = if in_calendar (y, mo, dd) && on_clock (h, m)
    then Some (JsDate.mkFields y mo dd true h m 0 0 None)
    else None.
Proof.
  unfold date_text, clock_text. rewrite !list_ascii_of_string_app.
  generalize (list_ascii_of_string d) (list_ascii_of_string s). intros ld ls.
  change (list_ascii_of_string "T") with ["T"%char].
  destruct (JsDate.read_digits 4 0 ld) as [[y' [| c1 r1]] |] eqn:Hy; try discriminate.
  destruct (Ascii.eqb_spec c1 "-") as [-> | Hne].
  2:{ destruct c1 as [[] [] [] [] [] [] [] []]; try discriminate; contradiction. }
  destruct (JsDate.read_digits 2 0 r1) as [[mo' [| c2 r2]] |] eqn:Hmo; try discriminate.
  destruct (Ascii.eqb_spec c2 "-") as [-> | Hne].
  2:{ destruct c2 as [[] [] [] [] [] [] [] []]; try discriminate; contradiction. }
  destruct (JsDate.read_digits 2 0 r2) as [[dd' [| c3 r3]] |] eqn:Hd; try discriminate.
  intros [= -> -> ->].
  destruct (JsDate.read_digits 2 0 ls) as [[h' [| c4 r4]] |] eqn:Hh; try discriminate.
  destruct (Ascii.eqb_spec c4 ":") as [-> | Hne].
  2:{ destruct c4 as [[] [] [] [] [] [] [] []]; try discriminate; contradiction. }
  destruct (JsDate.read_digits 2 0 r4) as [[m' [| c5 r5]] |] eqn:Hm; try discriminate.
  intros [= -> ->].
  unfold JsDate.read_fields.
  destruct ld as [| c ld]; [discriminate |].
  assert (Hc : ∃ v, JsDate.digit_of c = Some v).
  { cbn [JsDate.read_digits] in Hy. destruct (JsDate.digit_of c); [eauto | discriminate]. }
  destruct Hc as (v & Hc). cbn [app].
  rewrite (read_year_unsigned c _ v Hc).
  pose proof (read_digits_app 4 0 (c :: ld) ("T"%char :: ls) _ _ Hy) as Hy'.
  cbn [app] in Hy'. cbn [app]. rewrite Hy'.
  cbn [JsDate.read_dash2].
  rewrite (read_digits_app 2 0 r1 ("T"%char :: ls) _ _ Hmo).
  cbn [app JsDate.read_dash2].
  rewrite (read_digits_app 2 0 r2 ("T"%char :: ls) _ _ Hd).
  cbn [app in_calendar].
  destruct ((1 <=? mo) && (mo <=? 12) && (1 <=? dd) && (dd <=? 31)); [| reflexivity].
  cbn [andb JsDate.read_time]. change (Ascii.eqb "T" "T" || Ascii.eqb "T" "t") with true.
  cbn match. rewrite Hh, Hm. cbn [JsDate.read_seconds JsDate.read_offset].
  rewrite on_clock_valid_time. reflexivity.
Qed.

(** [Date.parse] on such a text. *)
Lemma parse_scheduled (tza : Z -> Z) (d s : string) (date : Z * Z * Z) (time : Z * Z) :
  zone_within_a_day tza ->
  date_text d = Some date ->
  clock_text s = Some time ->
  JsDate.parse tza (d +:+ "T" +:+ s)
  = if in_calendar date && on_clock time
    then Some (local_instant tza date time)
    else None.
Proof.
  intros Hzone Hdate Htime. destruct date as [[y mo] dd], time as [h m].
  unfold JsDate.parse. rewrite (read_fields_scheduled d s y mo dd h m Hdate Htime).
  destruct (in_calendar (y, mo, dd) && on_clock (h, m)) eqn:Hok; [| reflexivity].
  cbn [JsDate.offset JsDate.time_part JsDate.year JsDate.month JsDate.day JsDate.hour
       JsDate.minute JsDate.second JsDate.millis local_instant].
  unfold JsDate.time_clip.
  set (t := JsDate.make_day y mo dd * JsDate.ms_per_day + JsDate.make_time h m 0 0).
  destruct (Z.abs (t - tza t) <=? 8640000000000000) eqn:Hclip; [reflexivity |].
  exfalso. apply Z.leb_gt in Hclip.
  apply andb_true_iff in Hok as [Hcal Hclock].
  unfold in_calendar in Hcal. unfold on_clock in Hclock.
  unfold date_text in Hdate. unfold clock_text in Htime.
  destruct (JsDate.read_digits 4 0 (list_ascii_of_string d)) as [[y' r] |] eqn:Hy;
    [| discriminate].
  assert (Hyb : 0 <= y' < 10000) by (apply read_digits_bounds in Hy; cbn in Hy; lia).
  assert (y' = y).
  { destruct r as [| c1 r1]; [discriminate |].
    destruct c1 as [[] [] [] [] [] [] [] []]; try discriminate.
    destruct (JsDate.read_digits 2 0 r1) as [[mo' [| c2 r2]] |]; try discriminate.
    destruct c2 as [[] [] [] [] [] [] [] []]; try discriminate.
    destruct (JsDate.read_digits 2 0 r2) as [[dd' [| c3 r3]] |]; try discriminate.
    injection Hdate as -> _ _. reflexivity. }
  subst y'.
  destruct (JsDate.read_digits 2 0 (list_ascii_of_string s)) as [[h' q] |] eqn:Hh;
    [| discriminate].
  assert (Hhb : 0 <= h' < 100) by (apply read_digits_bounds in Hh; cbn in Hh; lia).
  assert (h' = h ∧ 0 <= m).
  { destruct q as [| c1 r1]; [discriminate |].
    destruct c1 as [[] [] [] [] [] [] [] []]; try discriminate.
    destruct (JsDate.read_digits 2 0 r1) as [[m' [| c2 r2]] |] eqn:Hm; try discriminate.
    apply read_digits_bounds in Hm. cbn in Hm.
    injection Htime as -> ->. split; [reflexivity | lia]. }
  destruct H as [-> Hm0].
  pose proof (make_day_bounds y mo dd) as Hday.
  pose proof (Hzone t) as Hz.
  unfold JsDate.ms_per_day, JsDate.make_time in *. subst t.
  lia.
Qed.

(** X3. Which tasks of the data model map to an event. For a task
    whose due date is written [YYYY-MM-DD] and whose times are written
    [HH:MM], on a host at most a day away from UTC: the task maps to
    an event exactly when its id is a string, the month is 1 to 12,
    the day 1 to 31 and both times are on the clock (00:00 to 23:59,
    or 24:00); the error is a [TypeError] exactly for an id that is no
    string and a [RangeError] exactly for a string id with a date or a
    time off those ranges. The event's start and end are the instants
    at which the host's clock shows the due date at those times, so a
    day past the end of its month counts on into the next month. *)
Theorem scheduled_task_maps_to_event_iff (h : Host) (fields : list (string * JsVal))
    (d s e : string) (date : Z * Z * Z) (t1 t2 : Z * Z)
    (Hzone : zone_within_a_day (local_tza h))
    (Hdue : lookup_field fields "dueDate" = JStr d)
    (Hdate : date_text d = Some date)
    (Hstart : lookup_field fields "startTime" = JStr s)
    (Hs : clock_text s = Some t1)
    (Hend : lookup_field fields "endTime" = JStr e)
    (He : clock_text e = Some t2) :
  let string_id := ∃ i, lookup_field fields "id" = JStr i in
  let readable := in_calendar date && on_clock t1 && on_clock t2 in
  ((∃ event, to_event h (JObj fields) = inr event) ↔ string_id ∧ readable = true)
  ∧ (to_event h (JObj fields) = inl TypeError ↔ ¬ string_id)
  ∧ (to_event h (JObj fields) = inl RangeError ↔ string_id ∧ readable = false)
  ∧ (∀ event, to_event h (JObj fields) = inr event ->
       dateTime (start event)
       = JsDate.iso_of_time (local_instant (local_tza h) date t1)
       ∧ dateTime (end_ event)
         = JsDate.iso_of_time (local_instant (local_tza h) date t2)).
Proof.
  intros string_id readable. subst string_id readable.
  rewrite (to_event_object h fields). cbv beta zeta.
  rewrite Hdue, Hstart, Hend. cbn [to_string].
  rewrite (parse_scheduled (local_tza h) d s date t1 Hzone Hdate Hs).
  rewrite (parse_scheduled (local_tza h) d e date t2 Hzone Hdate He).
  destruct (lookup_field fields "id") as [| | b | n | i | l | f];
    destruct (in_calendar date), (on_clock t1), (on_clock t2); cbn [andb];
    (split; [| split; [| split]]);
    try solve [settle_cases];
    intros event H; first [discriminate H | injection H as <-; split; reflexivity].
Qed.

Lemma scheduled_task_maps_to_event_iff_witness :
  (∃ event, to_event Examples.host_kolkata Examples.t_leap = inr event)
  ∧ ∀ event, to_event Examples.host_kolkata Examples.t_leap = inr event ->
      dateTime (start event) = "2024-03-01T03:30:00.000Z".
Proof.
  destruct (scheduled_task_maps_to_event_iff Examples.host_kolkata
              [("id", JStr "t7"); ("dueDate", JStr "2024-02-30");
               ("startTime", JStr "09:00"); ("endTime", JStr "24:00");
               ("completed", JBool false)]
              "2024-02-30" "09:00" "24:00" (2024, 2, 30) (9, 0) (24, 0))
    as (Hmaps & _ & _ & Htimes);
    try reflexivity.
  - intros t. vm_compute. discriminate.
  - split.
    + apply Hmaps. split; [eexists; reflexivity | reflexivity].
    + intros event Hev. exact (proj1 (Htimes event Hev)).
Defined.

(** ** The task list as stored *)

Lemma is_eligible_not_nullish (task : JsVal) :
  is_nullish task = false -> is_eligible task = inr (eligible task).
Proof.
  intros Hnull.
  destruct task as [| | b | n | s | l | fields]; try discriminate Hnull;
    try reflexivity.
  apply is_eligible_object.
Qed.

Lemma filter_list_cases (l : list JsVal) :
  filter_list is_eligible l =
  if existsb is_nullish l then inl TypeError else inr (List.filter eligible l).
Proof.
  induction l as [| task l IH]; [reflexivity |].
  cbn [filter_list existsb List.filter].
  destruct (is_nullish task) eqn:Hnull.
  - destruct task; try discriminate; reflexivity.
  - rewrite (is_eligible_not_nullish task Hnull), IH. cbn.
    destruct (existsb is_nullish l); [reflexivity |].
    destruct (eligible task); reflexivity.
Qed.

Lemma tasksToSync_cases (data : list (string * JsVal)) :
  tasksToSync data =
  match lookup_field data "list" with
  | JArr elems => filter_list is_eligible elems
  | other => if to_boolean other then inl TypeError else inr []
  end.
Proof.
  unfold tasksToSync. cbn [get ok mbind result_bind].
  destruct (lookup_field data "list") as [| | [] | n | s | l | f]; try reflexivity.
  - unfold js_or. cbn [to_boolean]. destruct (negb (n =? 0)); reflexivity.
  - unfold js_or. cbn [to_boolean]. destruct (negb (String.eqb s "")); reflexivity.
Qed.

Lemma tasksToSync_throws_TypeError (data : list (string * JsVal)) (e : Exn) :
  tasksToSync data = inl e -> e = TypeError.
Proof.
  rewrite tasksToSync_cases.
  destruct (lookup_field data "list") as [| | b | n | s | l | f];
    try (destruct (to_boolean _); congruence).
  rewrite filter_list_cases. destruct (existsb is_nullish l); congruence.
Qed.

(** X4. A [list] entry that is absent or falsy gives no task to sync; a
    truthy one that is no array makes the filter throw a [TypeError];
    an array is filtered, and a filter that throws throws a
    [TypeError]. *)
Theorem stored_list_shapes (data : list (string * JsVal)) :
  tasksToSync data =
  match lookup_field data "list" with
  | JArr elems => array_filter is_eligible (JArr elems)
  | other => if to_boolean other then inl TypeError else inr []
  end
  ∧ (∀ e, tasksToSync data = inl e -> e = TypeError).
Proof.
  split; [apply tasksToSync_cases | apply tasksToSync_throws_TypeError].
Qed.

(** X5. The filter over any array: it throws a [TypeError] exactly when
    an element is [null] or [undefined], and otherwise keeps, in
    order, the elements that pass the test; elements that are no
    objects never pass. *)
Theorem array_filter_total (elems : list JsVal) :
  array_filter is_eligible (JArr elems)
  = (if existsb is_nullish elems then inl TypeError
     else inr (List.filter eligible elems))
  ∧ (∀ task, In task (List.filter eligible elems) -> is_object task).
Proof.
  split; [apply filter_list_cases |].
  intros task Hin. apply filter_In in Hin as [_ Hel].
  destruct task as [| | b | n | s | l | fields]; try discriminate.
  eexists. reflexivity.
Qed.

(** ** Owners and sets *)

Lemma parent_snoc (r : Firestore.Ref) (x y : string) :
  Firestore.parent (r ++ [x; y]) = Some (r ++ [x]).
Proof.
  replace (r ++ [x; y]) with ((r ++ [x]) ++ [y]) by (rewrite <- app_assoc; reflexivity).
  unfold Firestore.parent.
  destruct ((r ++ [x]) ++ [y]) as [| a [| b t]] eqn:E.
  - apply (f_equal length) in E. rewrite !length_app in E. cbn in E. lia.
  - apply (f_equal length) in E. rewrite !length_app in E. cbn in E. lia.
  - rewrite <- E, removelast_last. reflexivity.
Qed.

Lemma snoc_cases {A} (l : list A) : l = [] ∨ ∃ l' x, l = l' ++ [x].
Proof.
  induction l as [| a l IH]; [left; reflexivity | right].
  destruct IH as [-> | (l' & x & ->)].
  - exists [], a. reflexivity.
  - exists (a :: l'), x. reflexivity.
Qed.

(** X6. The owner of a discovered record is the segment third from
    the end of its path; a path of fewer than three segments has no
    owner and the read throws a [TypeError]. *)
Theorem owner_id_is_third_from_last (ref : Firestore.Ref) :
  (∀ uid, owner_id ref = inr uid ↔ ∃ pre c d, ref = pre ++ [uid; c; d])
  ∧ (owner_id ref = inl TypeError ↔ (length ref < 3)%nat).
Proof.
  destruct (snoc_cases ref) as [-> | (r1 & d & ->)].
  { split; [intros uid; split; [discriminate |] |].
    - intros (pre & c & d & H). destruct pre; discriminate.
    - cbn. split; [lia | reflexivity]. }
  destruct (snoc_cases r1) as [-> | (r2 & c & ->)].
  { split; [intros uid; split; [discriminate |] |].
    - intros (pre & c & d' & H). destruct pre as [| a [| b pre]]; discriminate.
    - cbn. split; [lia | reflexivity]. }
  destruct (snoc_cases r2) as [-> | (r3 & u & ->)].
  { split; [intros uid; split; [discriminate |] |].
    - intros (pre & c' & d' & H). destruct pre as [| a [| b [| e pre]]]; discriminate.
    - cbn. split; [lia | reflexivity]. }
  assert (Hown : owner_id (((r3 ++ [u]) ++ [c]) ++ [d]) = inr u).
  { unfold owner_id. rewrite <- (app_assoc (r3 ++ [u])). cbn [app].
    rewrite parent_snoc. rewrite <- (app_assoc r3). cbn [app]. rewrite parent_snoc.
    unfold Firestore.ref_id. rewrite last_last. reflexivity. }
  split.
  - intros uid. rewrite Hown. split.
    + intros [= <-]. exists r3, c, d. rewrite <- !app_assoc. reflexivity.
    + intros (pre & c' & d' & H).
      rewrite <- !app_assoc in H. cbn [app] in H.
      replace (pre ++ [uid; c'; d']) with ((pre ++ [uid]) ++ [c'; d']) in H
        by (rewrite <- app_assoc; reflexivity).
      replace (r3 ++ [u; c; d]) with ((r3 ++ [u]) ++ [c; d]) in H
        by (rewrite <- app_assoc; reflexivity).
      apply app_inj_2 in H as [H _]; [| reflexivity].
      apply app_inj_2 in H as [_ H]; [| reflexivity].
      congruence.
  - rewrite Hown. rewrite !length_app. cbn. split; [discriminate | lia].
Qed.

Lemma fold_set_add_sublist (l acc : list string) :
  ∃ k, fold_left set_add l acc = acc ++ k ∧ k `sublist_of` l.
Proof.
  revert acc. induction l as [| y l IH]; intros acc; cbn.
  - exists []. rewrite app_nil_r. split; [reflexivity | constructor].
  - unfold set_add at 2. destruct (decide (y ∈ acc)).
    + destruct (IH acc) as (k & -> & Hk). exists k.
      split; [reflexivity | apply sublist_cons, Hk].
    + destruct (IH (acc ++ [y])) as (k & -> & Hk). exists (y :: k).
      split; [rewrite <- app_assoc; reflexivity | apply sublist_skip, Hk].
Qed.

Lemma fold_set_add_NoDup_id (l acc : list string) :
  NoDup (acc ++ l) -> fold_left set_add l acc = acc ++ l.
Proof.
  revert acc. induction l as [| y l IH]; intros acc Hnd; cbn.
  - rewrite app_nil_r. reflexivity.
  - unfold set_add. destruct (decide (y ∈ acc)) as [Hin | Hnot].
    + exfalso. apply NoDup_app in Hnd as (_ & Hdis & _).
      apply (Hdis y Hin). left.
    + rewrite IH; [rewrite <- app_assoc; reflexivity |].
      rewrite <- app_assoc. exact Hnd.
Qed.

(** X7. [[...new Set(userIds)]] keeps the first occurrence of each
    identifier, in the order of the list: the result has no repeats,
    is a subsequence of the list with the same members, is no longer
    than the list, and is the list itself when the list has no
    repeats. *)
Theorem spread_new_Set_keeps_first_occurrences (userIds : list string) :
  NoDup (spread_new_Set userIds)
  ∧ spread_new_Set userIds `sublist_of` userIds
  ∧ (∀ uid, uid ∈ spread_new_Set userIds ↔ uid ∈ userIds)
  ∧ (length (spread_new_Set userIds) <= length userIds)%nat
  ∧ (NoDup userIds -> spread_new_Set userIds = userIds)
  ∧ spread_new_Set (spread_new_Set userIds) = spread_new_Set userIds.
Proof.
  assert (Hnd : NoDup (spread_new_Set userIds))
    by (apply fold_set_add_NoDup; constructor).
  assert (Hsub : spread_new_Set userIds `sublist_of` userIds).
  { unfold spread_new_Set. destruct (fold_set_add_sublist userIds []) as (k & -> & Hk).
    exact Hk. }
  assert (Hid : ∀ l, NoDup l -> spread_new_Set l = l).
  { intros l Hl. unfold spread_new_Set. rewrite fold_set_add_NoDup_id; auto. }
  split; [exact Hnd | split; [exact Hsub | split; [| split; [| split]]]].
  - intros uid. unfold spread_new_Set. rewrite fold_set_add_elem, elem_of_nil. tauto.
  - apply sublist_length, Hsub.
  - apply Hid.
  - apply Hid, Hnd.
Qed.

(** ** Triggers *)

(** X8. The request that triggers a user's sync is a POST with a JSON
    content type whose body tells the users apart: two triggers are
    the same only for the same user. *)
Theorem trigger_tells_users_apart (uid1 uid2 : string) :
  (trigger_init uid1 = trigger_init uid2 ↔ uid1 = uid2)
  ∧ method (trigger_init uid1) = "POST"
  ∧ headers (trigger_init uid1) = [("Content-Type", "application/json")]
  ∧ json_unescape (json_chars uid1) = uid1.
Proof.
  split; [split |].
  - intros H. apply trigger_body_inj. rewrite H. reflexivity.
  - intros ->. reflexivity.
  - split; [reflexivity | split; [reflexivity | apply json_unescape_json_chars]].
Qed.

(** ** Every run of the sync *)


(** A list of tasks either maps to events throughout or has a first
    task that does not. *)
Lemma mapped_or_first_unmapped (h : Host) (tasks : list JsVal) :
  (∃ events, Forall2 (fun task event => to_event h task = inr event) tasks events)
  ∨ (∃ before bad after events e,
       tasks = before ++ bad :: after
       ∧ Forall2 (fun task event => to_event h task = inr event) before events
       ∧ to_event h bad = inl e).
Proof.
  induction tasks as [| task tasks IH].
  - left. exists []. constructor.
  - destruct (to_event h task) as [e | event] eqn:Hev.
    + right. exists [], task, tasks, [], e. repeat split; [constructor | exact Hev].
    + destruct IH as [(events & Hmap) | (before & bad & after & events & e & -> & Hmap & Hbad)].
      * left. exists (event :: events). constructor; assumption.
      * right. exists (task :: before), bad, after, (event :: events), e.
        repeat split; [constructor; assumption | exact Hbad].
Qed.



Section EveryRun.

Context {CalState : Type}.
Context (events_insert : CalState -> string -> CalEvent -> Result unit * CalState).

Local Abbreviation exec := (run events_insert).

Lemma sync_calendar_no_uid (h : Host) (uid : JsVal) (w : World CalState) :
  to_boolean uid = false ->
  exec (sync_calendar h uid) w = (Returned (mkResponse 400 "No user ID provided."), w).
Proof. intros Huid. unfold sync_calendar. rewrite Huid. reflexivity. Qed.

Lemma sync_calendar_not_connected (h : Host) (uid : JsVal) (w : World CalState) :
  to_boolean uid = true ->
  (docs w !! integrations_path uid = None
   ∨ ∃ tokenData, docs w !! integrations_path uid = Some tokenData
       ∧ to_boolean (lookup_field tokenData "googleCalendar") = false) ->
  exec (sync_calendar h uid) w =
  (Returned (mkResponse 404 "User has not connected Google Calendar."),
   emit_all [EGet (integrations_path uid)] w).
Proof.
  intros Huid Hcred. unfold sync_calendar. rewrite Huid. cbn [negb].
  rewrite run_try_catch. unfold sync_calendar_body.
  rewrite run_bind, run_call. cbn [perform].
  destruct Hcred as [-> | (tokenData & -> & Htok)]; [reflexivity |].
  rewrite run_bind. cbn [get ok lift run]. rewrite Htok. reflexivity.
Qed.

Lemma sync_calendar_no_tasks (h : Host) (uid : JsVal) (w : World CalState)
    (tokenData : list (string * JsVal)) :
  to_boolean uid = true ->
  docs w !! integrations_path uid = Some tokenData ->
  to_boolean (lookup_field tokenData "googleCalendar") = true ->
  docs w !! tasks_path uid = None ->
  exec (sync_calendar h uid) w =
  (Returned (mkResponse 200 "No tasks to sync."),
   emit_all (prologue uid (lookup_field tokenData "googleCalendar")) w).
Proof.
  intros Huid Hcred Htok Htasks.
  unfold sync_calendar. rewrite Huid. cbn [negb].
  rewrite run_try_catch. unfold sync_calendar_body.
  rewrite run_bind, run_call. cbn [perform]. rewrite Hcred.
  rewrite run_bind. cbn [get ok lift run]. rewrite Htok. cbn [negb].
  rewrite run_bind, run_call. cbn [perform].
  rewrite run_bind, run_call. cbn [perform docs emit]. rewrite Htasks.
  cbn [run mret prog_ret]. f_equal.
  unfold emit_all, emit, prologue. cbn. rewrite <- !app_assoc. reflexivity.
Qed.

Lemma sync_calendar_bad_list (h : Host) (uid : JsVal) (w : World CalState)
    (tokenData data : list (string * JsVal)) (e : Exn) :
  to_boolean uid = true ->
  docs w !! integrations_path uid = Some tokenData ->
  to_boolean (lookup_field tokenData "googleCalendar") = true ->
  docs w !! tasks_path uid = Some data ->
  tasksToSync data = inl e ->
  exec (sync_calendar h uid) w =
  (Returned (mkResponse 500 "Sync failed."),
   emit_all (prologue uid (lookup_field tokenData "googleCalendar")
             ++ [EConsoleError ("Sync failed for " +:+ to_string uid +:+ ":") e]) w).
Proof.
  intros Huid Hcred Htok Htasks Hfilter.
  unfold sync_calendar. rewrite Huid. cbn [negb].
  rewrite run_try_catch. unfold sync_calendar_body.
  rewrite run_bind, run_call. cbn [perform]. rewrite Hcred.
  rewrite run_bind. cbn [get ok lift run]. rewrite Htok. cbn [negb].
  rewrite run_bind, run_call. cbn [perform].
  rewrite run_bind, run_call. cbn [perform docs emit]. rewrite Htasks.
  rewrite run_bind, Hfilter. cbn [lift run].
  rewrite run_bind, run_call. cbn [perform run mret prog_ret]. f_equal.
  unfold emit_all, emit, prologue. cbn. rewrite <- !app_assoc. reflexivity.
Qed.

(** A sync that reaches its loop: the events sent are those of the
    tasks before the first task that maps to none. *)
Lemma sync_calendar_loop_cases (h : Host) (uid : JsVal) (w : World CalState)
    (tokenData data : list (string * JsVal)) (tasks : list JsVal) :
  to_boolean uid = true ->
  docs w !! integrations_path uid = Some tokenData ->
  to_boolean (lookup_field tokenData "googleCalendar") = true ->
  docs w !! tasks_path uid = Some data ->
  tasksToSync data = inr tasks ->
  ∃ (k : nat) (events : list CalEvent) (tail : list Effect),
    Forall2 (fun task event => to_event h task = inr event) (take k tasks) events
    ∧ (exec (sync_calendar h uid) w).2
      = emit_all (prologue uid (lookup_field tokenData "googleCalendar")
                  ++ loop_effects (take k tasks) events
                       (play events_insert (cal w) events).1 ++ tail)
                 (set_cal (play events_insert (cal w) events).2 w)
    ∧ ((k = length tasks ∧ tail = []
        ∧ (exec (sync_calendar h uid) w).1
          = Returned (sync_complete uid
              (Z.of_nat (length (List.filter accepted
                                   (play events_insert (cal w) events).1)))))
       ∨ ((k < length tasks)%nat
          ∧ (∃ e, tail = [EConsoleError ("Sync failed for " +:+ to_string uid +:+ ":") e])
          ∧ (exec (sync_calendar h uid) w).1
            = Returned (mkResponse 500 "Sync failed."))).
Proof.
  intros Huid Hcred Htok Htasks Hfilter.
  destruct (mapped_or_first_unmapped h tasks)
    as [(events & Hmap) | (before & bad & after & events & e & -> & Hmap & Hbad)].
  - exists (length tasks), events, []. rewrite firstn_all.
    rewrite (sync_calendar_mapped events_insert h uid w tokenData data tasks events)
      by assumption.
    rewrite app_nil_r. split; [exact Hmap | split; [reflexivity |]].
    left. auto.
  - exists (length before), events,
      [EConsoleError ("Sync failed for " +:+ to_string uid +:+ ":") e].
    rewrite take_app_length.
    rewrite (sync_calendar_connected events_insert h uid w tokenData data
               (before ++ bad :: after)) by assumption.
    rewrite (sync_loop_stops_at_unmapped_task events_insert h before after bad e events
               Hmap Hbad).
    cbn [fst snd cal emit_all emit set_cal trace docs settings_hits settle next_promise].
    split; [exact Hmap | split].
    + unfold emit_all, set_cal, emit.
      cbn [docs settings_hits cal settle next_promise trace].
      rewrite <- !app_assoc. reflexivity.
    + right. rewrite length_app. cbn. split; [lia | eauto].
Qed.

(** X9. A connected user without a task document: the sync answers 200
    "No tasks to sync." after reading the two documents and handing
    the tokens to the OAuth client, and makes no insert. *)
Theorem missing_task_document_is_no_op (h : Host) (uid : JsVal) (w : World CalState)
    (tokenData : list (string * JsVal))
    (Huid : to_boolean uid = true)
    (Hcred : docs w !! integrations_path uid = Some tokenData)
    (Htok : to_boolean (lookup_field tokenData "googleCalendar") = true)
    (Htasks : docs w !! tasks_path uid = None) :
  exec (sync_calendar h uid) w =
  (Returned (mkResponse 200 "No tasks to sync."),
   emit_all (prologue uid (lookup_field tokenData "googleCalendar")) w).
Proof. apply sync_calendar_no_tasks; assumption. Qed.

(** X10. A task document whose list cannot be filtered (a truthy value
    that is no array, or an array holding [null]): the sync answers
    500 "Sync failed.", logs the error and makes no insert. *)
Theorem unusable_list_is_500 (h : Host) (uid : JsVal) (w : World CalState)
    (tokenData data : list (string * JsVal)) (e : Exn)
    (Huid : to_boolean uid = true)
    (Hcred : docs w !! integrations_path uid = Some tokenData)
    (Htok : to_boolean (lookup_field tokenData "googleCalendar") = true)
    (Htasks : docs w !! tasks_path uid = Some data)
    (Hfilter : tasksToSync data = inl e) :
  exec (sync_calendar h uid) w =
  (Returned (mkResponse 500 "Sync failed."),
   emit_all (prologue uid (lookup_field tokenData "googleCalendar")
             ++ [EConsoleError ("Sync failed for " +:+ to_string uid +:+ ":") e]) w)
  ∧ e = TypeError.
Proof.
  split; [apply (sync_calendar_bad_list h uid w tokenData data e); assumption |].
  apply (tasksToSync_throws_TypeError data e Hfilter).
Qed.



(** X12. In a sync that reaches its loop, with tasks that carry the
    scheduling fields of the data model: the events sent are those of
    an initial stretch of the tasks to sync, in order and one insert
    each; the answer is 200 when the stretch is the whole list and 500
    otherwise, and the number of created events it reports is the
    number of accepted inserts, which is at most the number of tasks
    to sync. *)
Theorem inserts_follow_the_task_list (h : Host) (uid : JsVal) (w : World CalState)
    (tokenData data : list (string * JsVal)) (tasks : list JsVal)
    (Huid : to_boolean uid = true)
    (Hcred : docs w !! integrations_path uid = Some tokenData)
    (Htok : to_boolean (lookup_field tokenData "googleCalendar") = true)
    (Htasks : docs w !! tasks_path uid = Some data)
    (Hfilter : tasksToSync data = inr tasks)
    (Hsched : Forall scheduled_task tasks) :
  let out := exec (sync_calendar h uid) w in
  ∃ (k : nat) (events : list CalEvent) (answers : list (Result unit)),
    Forall2 (fun task event => to_event h task = inr event) (take k tasks) events
    ∧ Trace.inserts (trace out.2) = Trace.inserts (trace w) ++ zip events answers
    ∧ length answers = length events
    ∧ (length (List.filter accepted answers) <= k <= length tasks)%nat
    ∧ (k = length tasks
       -> out.1 = Returned (sync_complete uid
                    (Z.of_nat (length (List.filter accepted answers)))))
    ∧ ((k < length tasks)%nat -> out.1 = Returned (mkResponse 500 "Sync failed.")).
Proof.
  intros out. subst out.
  destruct (sync_calendar_loop_cases h uid w tokenData data tasks Huid Hcred Htok Htasks
              Hfilter) as (k & events & tail & Hmap & Hworld & Hout).
  pose proof (play_length events_insert (cal w) events) as Hans.
  pose proof Hmap as Hlen. apply Forall2_length in Hlen.
  assert (Hk : (k <= length tasks)%nat)
    by (destruct Hout as [(-> & _) | (Hlt & _)]; lia).
  rewrite length_take in Hlen.
  exists k, events, (play events_insert (cal w) events).1.
  split; [exact Hmap | split; [| split; [exact Hans | split; [| split]]]].
  - rewrite Hworld. cbn [emit_all trace set_cal]. rewrite !inserts_app.
    rewrite inserts_loop_effects by (rewrite ?length_take; lia).
    change (Trace.inserts (prologue uid (lookup_field tokenData "googleCalendar")))
      with (@nil (CalEvent * Result unit)).
    replace (Trace.inserts tail) with (@nil (CalEvent * Result unit));
      [rewrite app_nil_r; reflexivity |].
    destruct Hout as [(_ & -> & _) | (_ & (e & ->) & _)]; reflexivity.
  - split; [| exact Hk].
    pose proof (List.filter_length_le accepted (play events_insert (cal w) events).1).
    lia.
  - intros Hall. destruct Hout as [(_ & _ & ->) | (Hlt & _)]; [reflexivity | lia].
  - intros Hlt. destruct Hout as [(Hall & _) | (_ & _ & ->)]; [lia | reflexivity].
Qed.

End EveryRun.

(** ** Every run of the fan-out *)

Lemma strict_eq_str_iff (v : JsVal) (s : string) :
  strict_eq_str v s = true ↔ v = JStr s.
Proof.
  destruct v as [| | b | n | t | l | f]; cbn; try (split; [discriminate | discriminate]).
  rewrite String.eqb_eq. split; [intros ->; reflexivity | intros [= ->]; reflexivity].
Qed.

Lemma owner_id_throws (ref : Firestore.Ref) (e : Exn) :
  owner_id ref = inl e -> e = TypeError ∧ (length ref < 3)%nat.
Proof.
  destruct ref as [| a [| b [| c r]]]; cbn; try (intros [= <-]; split; [reflexivity | lia]).
  discriminate.
Qed.

Lemma map_owner_id_throws (refs : list Firestore.Ref) (e : Exn) :
  map_owner_id refs = inl e ->
  e = TypeError ∧ Exists (fun ref => (length ref < 3)%nat) refs.
Proof.
  induction refs as [| ref refs IH]; [discriminate |].
  cbn [map_owner_id]. destruct (owner_id ref) as [e' | uid] eqn:Hown.
  - intros [= <-]. destruct (owner_id_throws ref e' Hown) as [-> Hshort].
    split; [reflexivity | left; exact Hshort].
  - cbn. destruct (map_owner_id refs) as [e' | uids]; [| discriminate].
    intros [= <-]. destruct (IH eq_refl) as [-> Hex]. split; [reflexivity | right; exact Hex].
Qed.

Lemma map_owner_id_length (refs : list Firestore.Ref) (uids : list string) :
  map_owner_id refs = inr uids -> length uids = length refs.
Proof.
  revert uids. induction refs as [| ref refs IH]; intros uids.
  - intros [= <-]. reflexivity.
  - cbn [map_owner_id]. destruct (owner_id ref) as [e | uid]; [discriminate |].
    cbn. destruct (map_owner_id refs) as [e | uids']; [discriminate |].
    intros [= <-]. cbn. rewrite (IH uids' eq_refl). reflexivity.
Qed.

Lemma trigger_effects_ok (h : Host) (p : Promise) (uids : list string) :
  Forall (fan_out_effect_ok h) (trigger_effects h p uids).
Proof.
  revert p. induction uids as [| uid uids IH]; intros p; cbn; constructor.
  - cbn. auto.
  - apply IH.
Qed.

Section EveryFanOut.

Context {CalState : Type}.
Context (events_insert : CalState -> string -> CalEvent -> Result unit * CalState).

Local Abbreviation exec := (run events_insert).

Lemma sync_all_users_unauthorized (h : Host) (authorization : JsVal) (w : World CalState) :
  strict_eq_str authorization ("Bearer " +:+ to_string (CRON_SECRET h)) = false ->
  exec (sync_all_users h authorization) w = (Returned (mkResponse 401 "Unauthorized"), w).
Proof.
  intros Hauth. unfold sync_all_users, sync_all_users_with. rewrite Hauth. reflexivity.
Qed.

Lemma sync_all_users_empty (h : Host) (authorization : JsVal) (w : World CalState) :
  strict_eq_str authorization ("Bearer " +:+ to_string (CRON_SECRET h)) = true ->
  settings_hits w = [] ->
  exec (sync_all_users h authorization) w =
  (Returned (mkResponse 200 "No users to sync."), emit_all [EQuery] w).
Proof.
  intros Hauth Hhits. unfold sync_all_users, sync_all_users_with. rewrite Hauth.
  cbn [negb]. rewrite run_try_catch. unfold sync_all_users_body.
  rewrite run_bind, run_call. cbn [perform]. rewrite Hhits. reflexivity.
Qed.

Lemma sync_all_users_bad_record (h : Host) (authorization : JsVal) (w : World CalState)
    (e : Exn) :
  strict_eq_str authorization ("Bearer " +:+ to_string (CRON_SECRET h)) = true ->
  map_owner_id (settings_hits w) = inl e ->
  exec (sync_all_users h authorization) w =
  (Returned (mkResponse 500 "Cron job failed"),
   emit_all [EQuery; EConsoleError "Cron job failed:" e] w).
Proof.
  intros Hauth Hids. unfold sync_all_users, sync_all_users_with. rewrite Hauth.
  cbn [negb]. rewrite run_try_catch. unfold sync_all_users_body.
  rewrite run_bind, run_call. cbn [perform].
  destruct (settings_hits w) as [| ref refs] eqn:Hhits; [discriminate |].
  rewrite run_bind, Hids. cbn [lift run].
  rewrite run_bind, run_call. cbn [perform run mret prog_ret]. f_equal.
  unfold emit_all, emit. cbn. rewrite <- !app_assoc. reflexivity.
Qed.

(** X13. The fan-out runs for one header only, the string "Bearer "
    followed by the secret as text: any other header, or none, is
    answered 401 with no effect at all, and that header never is.
    With the secret unset the text is "undefined", so the header
    "Bearer undefined" passes. *)
Theorem fan_out_needs_the_secret (h : Host) (authorization : JsVal) (w : World CalState) :
  let expected := JStr ("Bearer " +:+ to_string (CRON_SECRET h)) in
  (authorization ≠ expected
   -> exec (sync_all_users h authorization) w
      = (Returned (mkResponse 401 "Unauthorized"), w))
  ∧ (authorization = expected
     -> status_in [200; 500] (exec (sync_all_users h authorization) w).1 status)
  ∧ (CRON_SECRET h = JUndefined -> expected = JStr "Bearer undefined").
Proof.
  intros expected. subst expected. split; [| split].
  - intros Hne. apply sync_all_users_unauthorized.
    destruct (strict_eq_str authorization _) eqn:Heq; [| reflexivity].
    apply strict_eq_str_iff in Heq. contradiction.
  - intros Heq. apply strict_eq_str_iff in Heq.
    destruct (settings_hits w) as [| ref refs] eqn:Hhits.
    + rewrite (sync_all_users_empty h authorization w Heq Hhits). cbn. auto.
    + destruct (map_owner_id (settings_hits w)) as [e | userIds] eqn:Hids.
      * rewrite (sync_all_users_bad_record h authorization w e Heq Hids). cbn. auto.
      * rewrite (sync_all_users_run events_insert h authorization w userIds Heq);
          [cbn; auto | congruence | exact Hids].
  - intros ->. reflexivity.
Qed.

(** X14. An authorized fan-out that discovers no record answers 200
    "No users to sync." after the query alone: nothing is logged and
    nobody is triggered. *)
Theorem empty_discovery_triggers_nobody (h : Host) (authorization : JsVal)
    (w : World CalState)
    (Hauth : authorization = JStr ("Bearer " +:+ to_string (CRON_SECRET h)))
    (Hhits : settings_hits w = []) :
  exec (sync_all_users h authorization) w =
  (Returned (mkResponse 200 "No users to sync."), emit_all [EQuery] w).
Proof. apply sync_all_users_empty; [apply strict_eq_str_iff, Hauth | exact Hhits]. Qed.

(** X15. One discovered record whose path has fewer than three
    segments stops the whole fan-out: the owners are derived before
    the first trigger, so the answer is 500 "Cron job failed", the
    [TypeError] is logged and nobody is triggered, whatever the other
    records are. *)
Theorem short_record_stops_the_fan_out (h : Host) (authorization : JsVal)
    (w : World CalState) (before after : list Firestore.Ref) (ref : Firestore.Ref)
    (Hauth : authorization = JStr ("Bearer " +:+ to_string (CRON_SECRET h)))
    (Hhits : settings_hits w = before ++ ref :: after)
    (Hshort : (length ref < 3)%nat) :
  exec (sync_all_users h authorization) w =
  (Returned (mkResponse 500 "Cron job failed"),
   emit_all [EQuery; EConsoleError "Cron job failed:" TypeError] w)
  ∧ Trace.fetches (trace (exec (sync_all_users h authorization) w).2)
    = Trace.fetches (trace w).
Proof.
  assert (Hids : map_owner_id (settings_hits w) = inl TypeError).
  { rewrite Hhits. clear Hhits. induction before as [| r before IH]; cbn [app map_owner_id].
    - destruct ref as [| a [| b [| c r]]]; cbn in *; try reflexivity. lia.
    - destruct (owner_id r) as [e | uid] eqn:Hown.
      + destruct (owner_id_throws r e Hown) as [-> _]. reflexivity.
      + cbn. rewrite IH. reflexivity. }
  apply strict_eq_str_iff in Hauth.
  rewrite (sync_all_users_bad_record h authorization w TypeError Hauth Hids).
  split; [reflexivity |].
  cbn [snd emit_all trace]. rewrite fetches_app. cbn. rewrite app_nil_r. reflexivity.
Qed.

(** X16. Every run of the fan-out ends with an answer, of status 200,
    401 or 500, and never waits on a promise. Its effects are the
    discovery query, log lines and POST requests with a JSON body to
    the sync endpoint, at most one per discovered record; it reads no
    document and makes no insert. *)
Theorem fan_out_always_answers (h : Host) (authorization : JsVal) (w : World CalState) :
  let out := exec (sync_all_users h authorization) w in
  status_in [200; 401; 500] out.1 status
  ∧ ∃ effects, trace out.2 = trace w ++ effects
               ∧ Forall (fan_out_effect_ok h) effects
               ∧ (length (Trace.fetches effects) <= length (settings_hits w))%nat.
Proof.
  intros out. subst out.
  destruct (strict_eq_str authorization ("Bearer " +:+ to_string (CRON_SECRET h)))
    eqn:Hauth.
  2:{ rewrite (sync_all_users_unauthorized h authorization w Hauth).
      split; [cbn; auto |]. exists []. rewrite app_nil_r.
      split; [reflexivity | split; [constructor | cbn; lia]]. }
  destruct (settings_hits w) as [| ref refs] eqn:Hhits.
  { rewrite (sync_all_users_empty h authorization w Hauth Hhits).
    split; [cbn; auto |]. eexists. split; [reflexivity |].
    split; [repeat constructor | cbn; lia]. }
  destruct (map_owner_id (settings_hits w)) as [e | userIds] eqn:Hids.
  { rewrite (sync_all_users_bad_record h authorization w e Hauth Hids).
    split; [cbn; auto |]. eexists. split; [reflexivity |].
    split; [repeat constructor | cbn; lia]. }
  rewrite (sync_all_users_run events_insert h authorization w userIds Hauth);
    [| congruence | exact Hids].
  split; [cbn; auto |]. cbn [snd emit_all trace]. eexists. split; [reflexivity |].
  split.
  - apply Forall_app. split; [repeat constructor | apply trigger_effects_ok].
  - rewrite fetches_app, fetches_trigger_effects, length_app, length_fmap. cbn.
    pose proof (map_owner_id_length _ _ Hids) as Hlen. rewrite Hhits in Hlen.
    assert (Hsub : spread_new_Set userIds `sublist_of` userIds).
    { unfold spread_new_Set.
      destruct (fold_set_add_sublist userIds []) as (k & -> & Hk). exact Hk. }
    apply sublist_length in Hsub. cbn in Hlen. lia.
Qed.

End EveryFanOut.

(** ** The identity guard *)

Lemma strip_prefix_app (p s : string) : strip_prefix p (p +:+ s) = Some s.
Proof.
  induction p as [| c p IH]; [reflexivity |].
  change (strip_prefix (String c p) (String c (p +:+ s)) = Some s).
  cbn [strip_prefix]. rewrite Ascii.eqb_refl. exact IH.
Qed.

Lemma strip_prefix_sound (p s r : string) : strip_prefix p s = Some r -> s = p +:+ r.
Proof.
  revert s. induction p as [| c p IH]; intros s; cbn [strip_prefix].
  - intros [= ->]. reflexivity.
  - destruct s as [| b s]; [discriminate |].
    destruct (Ascii.eqb_spec c b) as [<- | Hne]; [| discriminate].
    intros H. apply IH in H. rewrite H. reflexivity.
Qed.

Lemma cut_sound (sep s before after : string) :
  cut sep s = Some (before, after) -> s = before +:+ sep +:+ after.
Proof.
  revert before. induction s as [| c s IH]; intros before.
  - cbn [cut]. destruct (strip_prefix sep "") as [r |] eqn:Hp; [| discriminate].
    intros [= <- <-]. apply strip_prefix_sound in Hp. exact Hp.
  - cbn [cut]. destruct (strip_prefix sep (String c s)) as [r |] eqn:Hp.
    + intros [= <- <-]. apply strip_prefix_sound in Hp. exact Hp.
    + destruct (cut sep s) as [[b a] |]; [| discriminate].
      intros [= <- <-]. rewrite (IH b eq_refl). reflexivity.
Qed.

Lemma split_bearer (rest : string) :
  at_index (split ("Bearer " +:+ rest) "Bearer ") 1 = JStr (bearer_token_of rest).
Proof.
  unfold split, bearer_token_of.
  change (String.length ("Bearer " +:+ rest)) with (7 + String.length rest)%nat.
  cbn [Nat.add split_fuel].
  change (cut "Bearer " ("Bearer " +:+ rest)) with (Some (EmptyString, rest)).
  cbn [split_fuel]. destruct (cut "Bearer " rest) as [[b a] |]; reflexivity.
Qed.

(** X17. A request whose [authorization] header is missing, empty or a
    string that does not start with "Bearer " is answered 403
    "Unauthorized: No token provided." and the verifier is not asked. *)
Theorem guard_rejects_without_bearer (verifyIdToken : JsVal -> Result JsVal)
    (authHeader : JsVal)
    (Hhead : authHeader = JUndefined
             ∨ ∃ s, authHeader = JStr s ∧ ∀ token, s ≠ "Bearer " +:+ token) :
  Auth.verifyFirebaseToken verifyIdToken authHeader
  = (Auth.Answered (mkResponse 403 "Unauthorized: No token provided."), []).
Proof.
  destruct Hhead as [-> | (s & -> & Hs)]; [reflexivity |].
  unfold Auth.verifyFirebaseToken. cbn [to_boolean].
  destruct (negb (negb (String.eqb s ""))); [reflexivity |].
  unfold startsWith. destruct (strip_prefix "Bearer " s) as [r |] eqn:Hp; [| reflexivity].
  apply strip_prefix_sound in Hp. exfalso. exact (Hs r Hp).
Qed.

Lemma guard_rejects_without_bearer_witness :
  Auth.verifyFirebaseToken (fun _ => inr (JObj [("uid", JStr "u1")])) (JStr "bearer abc")
  = (Auth.Answered (mkResponse 403 "Unauthorized: No token provided."), []).
Proof.
  apply guard_rejects_without_bearer. right. exists "bearer abc"%string.
  split; [reflexivity | intros token; discriminate].
Defined.

(** X18. For a header "Bearer " followed by some text the verifier is
    asked once, about the text up to the next "Bearer " (all of it
    when there is none; always a prefix of it). When the verifier
    accepts, the request goes on with the [uid] of the decoded token;
    when it rejects, or the decoded token cannot be read, the answer
    is 403 "Unauthorized: Invalid token." and the error is logged. *)
Theorem guard_verifies_the_bearer_token (verifyIdToken : JsVal -> Result JsVal)
    (rest : string) :
  let idToken := JStr (bearer_token_of rest) in
  Auth.verifyFirebaseToken verifyIdToken (JStr ("Bearer " +:+ rest))
  = match (decodedToken ← verifyIdToken idToken; get decodedToken "uid") with
    | inr uid => (Auth.Next uid, [Auth.AVerify idToken])
    | inl error =>
        (Auth.Answered (mkResponse 403 "Unauthorized: Invalid token."),
         [Auth.AVerify idToken; Auth.AConsoleError "Error verifying token:" error])
    end
  ∧ (∃ tail, rest = bearer_token_of rest +:+ tail)
  ∧ ((∀ pre post, rest ≠ pre +:+ "Bearer " +:+ post) -> bearer_token_of rest = rest).
Proof.
  intros idToken. subst idToken. split; [| split].
  - unfold Auth.verifyFirebaseToken.
    change (to_boolean (JStr ("Bearer " +:+ rest))) with true. cbn [negb].
    unfold startsWith. rewrite strip_prefix_app. cbn [negb].
    rewrite split_bearer. reflexivity.
  - unfold bearer_token_of. destruct (cut "Bearer " rest) as [[b a] |] eqn:Hcut.
    + apply cut_sound in Hcut. eauto.
    + exists EmptyString. clear. induction rest as [| c rest IH]; [reflexivity |].
      change (String c rest = String c (rest +:+ "")). f_equal. exact IH.
  - intros Hfree. unfold bearer_token_of.
    destruct (cut "Bearer " rest) as [[b a] |] eqn:Hcut; [| reflexivity].
    apply cut_sound in Hcut. exfalso. exact (Hfree b a Hcut).
Qed.

(** X19. [GET /api/get-auth-url] answers 200 only behind the guard: the
    verifier accepted a token of the request, and the consent URL in
    the answer was generated with [state] set to the [uid] of the
    decoded token, offline access and the calendar scope. *)
Theorem auth_url_carries_the_verified_uid (verifyIdToken : JsVal -> Result JsVal)
    (generateAuthUrl : Auth.AuthUrlOptions -> string) (authHeader : JsVal)
    (r : Response) (effects : list Auth.AuthEffect)
    (Hroute : Auth.get_auth_url_route verifyIdToken generateAuthUrl authHeader
              = (Auth.Answered r, effects))
    (Hstatus : status r = 200) :
  ∃ idToken decodedToken uid,
    effects = [Auth.AVerify idToken]
    ∧ verifyIdToken idToken = inr decodedToken
    ∧ get decodedToken "uid" = inr uid
    ∧ r = Auth.auth_url_json
            (generateAuthUrl
               (Auth.mkAuthUrlOptions "offline" "consent"
                  ["https://www.googleapis.com/auth/calendar"%string] uid)).
Proof.
  unfold Auth.get_auth_url_route, Auth.verifyFirebaseToken in Hroute.
  destruct (negb (to_boolean authHeader)).
  { injection Hroute as <- <-. discriminate. }
  destruct authHeader as [| | b | n | s | l | f]; try discriminate.
  destruct (negb (startsWith s "Bearer ")).
  { injection Hroute as <- <-. discriminate. }
  destruct (verifyIdToken (at_index (split s "Bearer ") 1)) as [e | decoded] eqn:Hv;
    cbn [mbind result_bind] in Hroute.
  { injection Hroute as <- <-. discriminate. }
  destruct (get decoded "uid") as [e | uid] eqn:Huid.
  { injection Hroute as <- <-. discriminate. }
  injection Hroute as <- <-. eauto 8.
Qed.

Lemma auth_url_carries_the_verified_uid_witness :
  let verify (t : JsVal) : Result JsVal :=
    if strict_eq_str t "good" then inr (JObj [("uid", JStr "u1")])
    else inl (ApiError (JStr "auth/argument-error") (JStr "Decoding failed")) in
  let generate (o : Auth.AuthUrlOptions) : string :=
    "https://accounts.example/auth?state=" +:+ to_string (Auth.state o) in
  ∃ idToken decodedToken uid,
    [Auth.AVerify (JStr "good")] = [Auth.AVerify idToken]
    ∧ verify idToken = inr decodedToken
    ∧ get decodedToken "uid" = inr uid
    ∧ Auth.auth_url_json "https://accounts.example/auth?state=u1"
      = Auth.auth_url_json
          (generate
             (Auth.mkAuthUrlOptions "offline" "consent"
                ["https://www.googleapis.com/auth/calendar"%string] uid)).
Proof.
  intros verify generate.
  exact (auth_url_carries_the_verified_uid verify generate (JStr "Bearer good")
           (Auth.auth_url_json "https://accounts.example/auth?state=u1")
           [Auth.AVerify (JStr "good")] eq_refl eq_refl).
Defined.

(** ** Writing with merge *)

Lemma lookup_upsert (k k' : string) (v : JsVal) (fields : list (string * JsVal)) :
  lookup_field (Store.upsert k v fields) k'
  = if String.eqb k k' then v else lookup_field fields k'.
Proof.
  induction fields as [| [k0 v0] fields IH]; cbn [Store.upsert lookup_field].
  - reflexivity.
  - destruct (String.eqb_spec k0 k) as [-> | Hne]; cbn [lookup_field].
    + destruct (String.eqb k k'); reflexivity.
    + rewrite IH. destruct (String.eqb_spec k0 k') as [-> | Hne'].
      * destruct (String.eqb_spec k k') as [-> | _]; [contradiction | reflexivity].
      * reflexivity.
Qed.

Lemma merge_fields_cons (old rest : list (string * JsVal)) (k : string) (v : JsVal) :
  Store.merge_fields old ((k, v) :: rest)
  = Store.merge_fields (Store.upsert k (Store.merge_value (lookup_field old k) v) old) rest.
Proof. destruct rest as [| [k' v'] rest]; reflexivity. Qed.

Lemma merge_value_leaf (old v : JsVal) : leaf v -> Store.merge_value old v = v.
Proof.
  intros Hleaf. destruct v as [| | b | n | s | l | f]; try reflexivity.
  exfalso. exact (Hleaf f eq_refl).
Qed.

(** What a merge leaves under each name. *)
Lemma lookup_merge_fields (new old : list (string * JsVal)) (name : string) :
  NoDup new.*1 ->
  lookup_field (Store.merge_fields old new) name
  = if decide (name ∈ new.*1)
    then Store.merge_value (lookup_field old name) (lookup_field new name)
    else lookup_field old name.
Proof.
  revert old. induction new as [| [k v] new IH]; intros old Hnd.
  - cbn. destruct (decide (name ∈ [])) as [Hin | _]; [inversion Hin | reflexivity].
  - rewrite merge_fields_cons. cbn [fmap list_fmap fst] in Hnd.
    apply NoDup_cons in Hnd as [Hk Hnd]. rewrite (IH _ Hnd).
    rewrite lookup_upsert. cbn [fmap list_fmap fst lookup_field].
    destruct (String.eqb_spec k name) as [-> | Hne].
    + destruct (decide (name ∈ new.*1)) as [Hin | _]; [contradiction |].
      destruct (decide (name ∈ name :: new.*1)) as [_ | Hnot]; [reflexivity |].
      exfalso. apply Hnot. left.
    + destruct (decide (name ∈ new.*1)) as [Hin | Hnot].
      * destruct (decide (name ∈ k :: new.*1)) as [_ | Hnot]; [reflexivity |].
        exfalso. apply Hnot. right. exact Hin.
      * destruct (decide (name ∈ k :: new.*1)) as [Hin | _]; [| reflexivity].
        apply elem_of_cons in Hin as [-> | Hin]; contradiction.
Qed.

Lemma merge_value_object (old : JsVal) (new : list (string * JsVal)) :
  ∃ fields, Store.merge_value old (JObj new) = JObj fields
            ∧ ∀ name, NoDup new.*1 -> name ∈ new.*1 -> leaf (lookup_field new name) ->
                      lookup_field fields name = lookup_field new name.
Proof.
  destruct new as [| entry new].
  { exists []. split; [reflexivity | intros name _ Hin; inversion Hin]. }
  destruct old as [| | b | n | s | l | f];
    try (exists (entry :: new); split; [reflexivity | reflexivity]).
  exists (Store.merge_fields f (entry :: new)). split; [reflexivity |].
  intros name Hnd Hin Hleaf. rewrite (lookup_merge_fields (entry :: new) f name Hnd).
  destruct (decide (name ∈ (entry :: new).*1)); [| contradiction].
  apply merge_value_leaf, Hleaf.
Qed.

(** ** Connecting an account *)

Lemma set_merge_inr (docs docs' : gmap string (list (string * JsVal))) (path : string)
    (data : list (string * JsVal)) :
  Store.set_merge docs path data = inr docs' ->
  docs' = <[path := match docs !! path with
                    | Some old => Store.merge_fields old data
                    | None => data
                    end]> docs.
Proof.
  unfold Store.set_merge. destruct (Store.has_undefined (JObj data)); [discriminate |].
  destruct (docs !! path); intros [= <-]; reflexivity.
Qed.

(** The callback, opened up at a redirect. *)
Lemma callback_redirected (g : OAuth.Google) (code uid : JsVal)
    (docs docs' : gmap string (list (string * JsVal))) (url : string)
    (effects : list OAuth.OEffect) :
  OAuth.callback g code uid docs = (OAuth.Redirected url, docs', effects) ->
  to_boolean code = true ∧ to_boolean uid = true
  ∧ ∃ tokens profile email data,
      (response ← OAuth.getToken g code; get response "tokens") = inr tokens
      ∧ OAuth.people_get g tokens = inr profile
      ∧ OAuth.userEmail profile = inr email
      ∧ Firestore.document_path (integrations_path uid) = true
      ∧ OAuth.integration_record (OAuth.server_time g) email tokens = inr data
      ∧ Store.set_merge docs (integrations_path uid) data = inr docs'
      ∧ effects = [OAuth.OGetToken code; OAuth.OSetCredentials tokens;
                   OAuth.OPeopleGet tokens;
                   OAuth.OSet (integrations_path uid) data true].
Proof.
  unfold OAuth.callback, OAuth.failed.
  destruct (to_boolean code); cbn [negb]; [| discriminate].
  destruct (to_boolean uid); cbn [negb]; [| discriminate].
  destruct (response ← OAuth.getToken g code; get response "tokens")
    as [e | tokens]; [discriminate |].
  destruct (OAuth.people_get g tokens) as [e | profile] eqn:Hprofile;
    cbn [mbind result_bind]; [discriminate |].
  destruct (OAuth.userEmail profile) as [e | email] eqn:Hemail;
    cbn [mbind result_bind]; [discriminate |].
  unfold Store.doc.
  destruct (Firestore.document_path (integrations_path uid)) eqn:Hpath;
    cbn [mbind result_bind ok throw]; [| discriminate].
  destruct (OAuth.integration_record (OAuth.server_time g) email tokens)
    as [e | data] eqn:Hdata; cbn [mbind result_bind mret result_ret]; [discriminate |].
  destruct (Store.set_merge docs (integrations_path uid) data) as [e | d] eqn:Hset;
    [discriminate |].
  intros [= _ <- <-]. repeat split. eauto 12.
Qed.

(** X20. The callback never writes by halves: it answers with a
    redirect to the settings page, having stored one record, or with a
    400 or a 500, having stored nothing; a 400 is given before anybody
    is contacted, and only when the code or the state is missing. *)
Theorem callback_stores_all_or_nothing (g : OAuth.Google) (code uid : JsVal)
    (docs : gmap string (list (string * JsVal))) :
  match OAuth.callback g code uid docs with
  | (OAuth.Redirected url, docs', effects) =>
      url = "http://localhost:3000/settings?google-connected=true"%string
      ∧ ∃ data, Store.set_merge docs (integrations_path uid) data = inr docs'
  | (OAuth.Sent r, docs', effects) =>
      docs' = docs
      ∧ (status r = 400 ∨ status r = 500)
      ∧ (status r = 400 ↔ to_boolean code = false ∨ to_boolean uid = false)
      ∧ (status r = 400 -> effects = [])
  end.
Proof.
  unfold OAuth.callback, OAuth.failed.
  destruct (to_boolean code); cbn [negb].
  2:{ cbn. repeat split; auto. }
  destruct (to_boolean uid); cbn [negb].
  2:{ cbn. repeat split; auto. }
  destruct (response ← OAuth.getToken g code; get response "tokens") as [e | tokens].
  { cbn. repeat split; auto; try discriminate; intros [|]; discriminate. }
  destruct (profile ← OAuth.people_get g tokens;
            email ← OAuth.userEmail profile;
            integrationRef ← Store.doc (integrations_path uid);
            data ← OAuth.integration_record (OAuth.server_time g) email tokens;
            mret (integrationRef, data))
    as [e | [ref data]] eqn:Hrec.
  { cbn. repeat split; auto; try discriminate; intros [|]; discriminate. }
  assert (Href : ref = integrations_path uid).
  { apply result_bind_inr in Hrec as (profile & _ & Hrec).
    apply result_bind_inr in Hrec as (email & _ & Hrec).
    apply result_bind_inr in Hrec as (ref' & Hdoc & Hrec).
    apply result_bind_inr in Hrec as (data' & _ & Hrec).
    injection Hrec as <- _. unfold Store.doc in Hdoc.
    destruct (Firestore.document_path (integrations_path uid)); [| discriminate].
    injection Hdoc as <-. reflexivity. }
  subst ref.
  destruct (Store.set_merge docs (integrations_path uid) data) as [e | d] eqn:Hset.
  { cbn. repeat split; auto; try discriminate; intros [|]; discriminate. }
  split; [reflexivity | eauto].
Qed.

Lemma integration_record_inr (now email tokens : JsVal) (data : list (string * JsVal)) :
  OAuth.integration_record now email tokens = inr data ->
  data = [("googleCalendar",
           JObj [("email", email); ("access_token", field tokens "access_token");
                 ("refresh_token", field tokens "refresh_token");
                 ("expiry_date", field tokens "expiry_date"); ("created_at", now)])].
Proof.
  unfold OAuth.integration_record, field.
  destruct (get tokens "access_token") as [e | a]; [discriminate |].
  destruct (get tokens "refresh_token") as [e | r]; [discriminate |].
  destruct (get tokens "expiry_date") as [e | x]; [discriminate |].
  intros [= <-]. reflexivity.
Qed.

Lemma userEmail_truthy (profile email : JsVal) :
  OAuth.userEmail profile = inr email -> to_boolean email = true.
Proof.
  unfold OAuth.userEmail. intros H.
  apply result_bind_inr in H as (data & _ & H).
  apply result_bind_inr in H as (emails & _ & H).
  apply result_bind_inr in H as (value & _ & H).
  injection H as <-. unfold js_or. destruct (to_boolean value) eqn:Hv; [exact Hv | reflexivity].
Qed.

(** The document that [set(..., { merge: true })] of one
    [googleCalendar] map leaves at [path]. *)
Lemma merged_calendar_record (before : gmap string (list (string * JsVal)))
    (path : string) (new calendar : list (string * JsVal)) :
  Store.merge_value
    (lookup_field (default [] (before !! path)) "googleCalendar") (JObj new)
  = JObj calendar ->
  ∃ stored,
    (<[path := match before !! path with
               | Some old => Store.merge_fields old [("googleCalendar", JObj new)]
               | None => [("googleCalendar", JObj new)]
               end]> before) !! path = Some stored
    ∧ lookup_field stored "googleCalendar" = JObj calendar
    ∧ ∀ name, name ≠ "googleCalendar"%string ->
              lookup_field stored name
              = lookup_field (default [] (before !! path)) name.
Proof.
  intros Hcal. rewrite lookup_insert_eq. eexists. split; [reflexivity |].
  set (data := [("googleCalendar", JObj new)]%string).
  assert (Hone : ∀ name, lookup_field data name
                         = if String.eqb "googleCalendar" name then JObj new else JUndefined)
    by (intros name; reflexivity).
  assert (Hkeys : data.*1 = ["googleCalendar"%string]) by reflexivity.
  assert (Hnd1 : NoDup data.*1) by (rewrite Hkeys; apply NoDup_singleton).
  clearbody data.
  destruct (before !! path) as [o |]; cbn [default] in *.
  - split.
    + rewrite (lookup_merge_fields data o "googleCalendar" Hnd1), Hkeys.
      destruct (decide _) as [_ | Hnot]; [| exfalso; apply Hnot; left].
      rewrite Hone, String.eqb_refl. exact Hcal.
    + intros name Hne.
      rewrite (lookup_merge_fields data o name Hnd1), Hkeys.
      destruct (decide _) as [Hin | _]; [| reflexivity].
      apply list_elem_of_singleton in Hin. contradiction.
  - split.
    + rewrite Hone, String.eqb_refl. rewrite <- Hcal. destruct new; reflexivity.
    + intros name Hne. rewrite Hone.
      destruct (String.eqb_spec "googleCalendar" name); [congruence | reflexivity].
Qed.


(** X21. After a callback that ends with the redirect, the user's
    integrations document holds a [googleCalendar] map in which the
    email, the three token entries Google issued and the server's time
    stand as written (an entry that is itself a map is merged into
    what was there); the email is never empty; every other entry of
    that document and every other document are as they were. *)
Theorem callback_stores_the_tokens (g : OAuth.Google) (code uid : JsVal)
    (docs docs' : gmap string (list (string * JsVal))) (url : string)
    (effects : list OAuth.OEffect)
    (Hdone : OAuth.callback g code uid docs = (OAuth.Redirected url, docs', effects)) :
  ∃ tokens profile email stored calendar,
    (response ← OAuth.getToken g code; get response "tokens") = inr tokens
    ∧ OAuth.people_get g tokens = inr profile
    ∧ OAuth.userEmail profile = inr email
    ∧ to_boolean email = true
    ∧ docs' !! integrations_path uid = Some stored
    ∧ lookup_field stored "googleCalendar" = JObj calendar
    ∧ (let record :=
         [("email", email); ("access_token", field tokens "access_token");
          ("refresh_token", field tokens "refresh_token");
          ("expiry_date", field tokens "expiry_date");
          ("created_at", OAuth.server_time g)]%string in
       ∀ name, name ∈ record.*1 -> leaf (lookup_field record name) ->
               lookup_field calendar name = lookup_field record name)
    ∧ (∀ name, name ≠ "googleCalendar"%string ->
               lookup_field stored name
               = lookup_field (default [] (docs !! integrations_path uid)) name)
    ∧ (∀ path, path ≠ integrations_path uid -> docs' !! path = docs !! path).
Proof.
  destruct (callback_redirected g code uid docs docs' url effects Hdone)
    as (_ & _ & tokens & profile & email & data & Htok & Hprofile & Hemail & _ & Hdata
        & Hset & _).
  apply integration_record_inr in Hdata. apply set_merge_inr in Hset.
  pose proof (userEmail_truthy profile email Hemail) as Htruthy.
  set (new := [("email", email); ("access_token", field tokens "access_token");
               ("refresh_token", field tokens "refresh_token");
               ("expiry_date", field tokens "expiry_date");
               ("created_at", OAuth.server_time g)]%string) in *.
  assert (Hnd : NoDup new.*1).
  { apply NoDup_ListNoDup. repeat (constructor; [cbn; intuition discriminate |]). constructor. }
  set (old := default [] (docs !! integrations_path uid)).
  destruct (merge_value_object (lookup_field old "googleCalendar") new)
    as (calendar & Hcal & Hnew).
  subst data docs'.
  destruct (merged_calendar_record docs (integrations_path uid) new calendar Hcal)
    as (stored & Hlook & Hgc & Hother).
  exists tokens, profile, email, stored, calendar.
  repeat (split; [assumption |]).
  split; [| split; [exact Hother |]].
  - intros record name Hin Hleaf. apply (Hnew name Hnd Hin Hleaf).
  - intros path Hne. apply lookup_insert_ne. congruence.
Qed.

(** A callback that gets as far as the record stores it only when
    none of its entries is [undefined]. *)
Lemma integration_record_defined (now email tokens : JsVal)
    (data : list (string * JsVal)) :
  OAuth.integration_record now email tokens = inr data ->
  Store.has_undefined (JObj data) = false ->
  field tokens "access_token" ≠ JUndefined
  ∧ field tokens "refresh_token" ≠ JUndefined
  ∧ field tokens "expiry_date" ≠ JUndefined.
Proof.
  intros Hdata Hdef. apply integration_record_inr in Hdata. subst data.
  cbn in Hdef. rewrite orb_false_r in Hdef.
  apply orb_false_elim in Hdef as [_ Hdef].
  apply orb_false_elim in Hdef as [Ha Hdef].
  apply orb_false_elim in Hdef as [Hr Hdef].
  apply orb_false_elim in Hdef as [Hx _].
  repeat split; intros Heq; rewrite Heq in *; discriminate.
Qed.

Lemma set_merge_defined (before after : gmap string (list (string * JsVal)))
    (path : string) (data : list (string * JsVal)) :
  Store.set_merge before path data = inr after -> Store.has_undefined (JObj data) = false.
Proof.
  unfold Store.set_merge. destruct (Store.has_undefined (JObj data)); [discriminate | reflexivity].
Qed.

(** X22. Google's answer is stored whole or not at all: when one of
    the access token, the refresh token and the expiry date is missing
    from it, the callback answers 500 and the store is as it was. *)
Theorem partial_tokens_are_not_stored (g : OAuth.Google) (code uid tokens : JsVal)
    (before : gmap string (list (string * JsVal))) (name : string)
    (Hcode : to_boolean code = true)
    (Huid : to_boolean uid = true)
    (Htok : (response ← OAuth.getToken g code; get response "tokens") = inr tokens)
    (Hname : name ∈ ["access_token"; "refresh_token"; "expiry_date"]%string)
    (Hmissing : field tokens name = JUndefined) :
  (OAuth.callback g code uid before).1
  = (OAuth.Sent (mkResponse 500 "Error connecting Google account."), before).
Proof.
  unfold OAuth.callback, OAuth.failed. rewrite Hcode, Huid, Htok. cbn [negb].
  destruct (profile ← OAuth.people_get g tokens;
            email ← OAuth.userEmail profile;
            integrationRef ← Store.doc (integrations_path uid);
            data ← OAuth.integration_record (OAuth.server_time g) email tokens;
            mret (integrationRef, data))
    as [e | [ref data]] eqn:Hrec; [reflexivity |].
  destruct (Store.set_merge before ref data) as [e | after] eqn:Hset;
    [reflexivity | exfalso].
  apply result_bind_inr in Hrec as (profile & _ & Hrec).
  apply result_bind_inr in Hrec as (email & _ & Hrec).
  apply result_bind_inr in Hrec as (ref' & _ & Hrec).
  apply result_bind_inr in Hrec as (data' & Hdata & Hrec).
  injection Hrec as -> ->.
  apply set_merge_defined in Hset.
  destruct (integration_record_defined _ _ _ _ Hdata Hset) as (Ha & Hr & Hx).
  repeat (apply elem_of_cons in Hname as [-> | Hname]; [contradiction |]).
  inversion Hname.
Qed.

(** ** The two callbacks and the sync *)

Lemma string_app_inv_suffix (s1 s2 t1 t2 : string) :
  String.length t1 = String.length t2 -> s1 +:+ t1 = s2 +:+ t2 -> t1 = t2.
Proof.
  intros Hlen. revert s2. induction s1 as [| c s1 IH]; intros [| c' s2] Heq.
  - exact Heq.
  - apply (f_equal String.length) in Heq.
    rewrite !string_length_app in Heq. cbn in Heq. lia.
  - apply (f_equal String.length) in Heq.
    rewrite !string_length_app in Heq. cbn in Heq. lia.
  - change (String c (s1 +:+ t1) = String c' (s2 +:+ t2)) in Heq.
    injection Heq as _ Heq. exact (IH s2 Heq).
Qed.

(** No user's credential record or task document lies where the first
    callback writes. *)
Lemma private_path_is_nobodys (uid : JsVal) :
  integrations_path uid ≠ OAuth.private_path ∧ tasks_path uid ≠ OAuth.private_path.
Proof.
  split; intros Heq.
  - assert (H : "/settings/integrations"%string = "ser/private/googleAuth"%string);
      [| discriminate].
    apply (string_app_inv_suffix ("users/" +:+ to_string uid) "users/testU");
      [reflexivity | exact Heq].
  - assert (H : "/data/tasks"%string = "/googleAuth"%string); [| discriminate].
    apply (string_app_inv_suffix ("users/" +:+ to_string uid) "users/testUser/private");
      [reflexivity | exact Heq].
Qed.

(** X23. The first callback stores under a fixed user, whoever signs
    in: it answers 200, 400 or 500 and never redirects; only a 200
    changes the store, and then by overwriting the one document
    [users/testUser/private/googleAuth] with the three token entries
    and the time, none of them [undefined]; no user's credential
    record and no user's task document is touched, so no sync is the
    wiser for it. *)
Theorem first_callback_stores_under_a_fixed_user (g : OAuth.Google) (code : JsVal)
    (before : gmap string (list (string * JsVal))) :
  match OAuth.callback_v1 g code before with
  | (OAuth.Sent r, after, effects) =>
      (status r = 200 ∨ status r = 400 ∨ status r = 500)
      ∧ (status r = 400 ↔ to_boolean code = false)
      ∧ (status r ≠ 200 -> after = before)
      ∧ (status r = 200
         -> ∃ data, after = <[OAuth.private_path := data]> before
                    ∧ data.*1 = ["access_token"; "refresh_token"; "expiry_date";
                                 "created_at"]%string
                    ∧ Store.has_undefined (JObj data) = false)
      ∧ (∀ path, path ≠ OAuth.private_path -> after !! path = before !! path)
      ∧ (∀ uid, after !! integrations_path uid = before !! integrations_path uid
                ∧ after !! tasks_path uid = before !! tasks_path uid
                ∧ connected after uid = connected before uid)
  | (OAuth.Redirected _, _, _) => False
  end.
Proof.
  unfold OAuth.callback_v1.
  destruct (to_boolean code); cbn [negb].
  2:{ cbn. repeat split; auto; try discriminate; intros; lia. }
  destruct (response ← OAuth.getToken g code;
            tokens ← get response "tokens";
            OAuth.private_record (OAuth.server_time g) tokens) as [e | data] eqn:Hrec.
  { cbn. repeat split; auto; try discriminate; intros; lia. }
  unfold Store.set.
  destruct (Store.has_undefined (JObj data)) eqn:Hdef.
  { cbn. repeat split; auto; try discriminate; intros; lia. }
  assert (Hkeys : data.*1 = ["access_token"; "refresh_token"; "expiry_date";
                             "created_at"]%string).
  { apply result_bind_inr in Hrec as (response & _ & Hrec).
    apply result_bind_inr in Hrec as (tokens & _ & Hrec).
    unfold OAuth.private_record in Hrec.
    apply result_bind_inr in Hrec as (a & _ & Hrec).
    apply result_bind_inr in Hrec as (r & _ & Hrec).
    apply result_bind_inr in Hrec as (x & _ & Hrec).
    injection Hrec as <-. reflexivity. }
  assert (Hframe : ∀ path, path ≠ OAuth.private_path
                           -> <[OAuth.private_path := data]> before !! path = before !! path).
  { intros path Hne. apply lookup_insert_ne. congruence. }
  assert (Hint : ∀ uid, <[OAuth.private_path := data]> before !! integrations_path uid
                        = before !! integrations_path uid).
  { intros uid. apply Hframe, private_path_is_nobodys. }
  cbn [ok status]. split; [auto |]. split; [split; discriminate |].
  split; [intros Hne; contradiction |]. split; [eauto |]. split; [exact Hframe |].
  intros uid. split; [apply Hint |]. split; [apply Hframe, private_path_is_nobodys |].
  unfold connected. rewrite Hint. reflexivity.
Qed.

(** X24. The address kept for a connected account: the [value] of the
    first entry of the profile's address list when that is there and
    truthy, and "Google User" otherwise, so never an empty one; the
    read fails only for a profile without [data]. *)
Theorem email_falls_back_to_a_placeholder (profile : JsVal) :
  let data := field profile "data" in
  let addresses := field data "emailAddresses" in
  let first := if is_nullish addresses then JUndefined else index0 addresses in
  let value := field first "value" in
  (is_nullish profile || is_nullish data = false
   -> OAuth.userEmail profile
      = inr (if to_boolean value then value else JStr "Google User"))
  ∧ (is_nullish profile || is_nullish data = true
     -> OAuth.userEmail profile = inl TypeError)
  ∧ (∀ email, OAuth.userEmail profile = inr email -> to_boolean email = true).
Proof.
  cbv zeta. split; [| split; [| intros email; apply userEmail_truthy]].
  - intros Hdata. apply orb_false_elim in Hdata as [Hp Hd].
    unfold OAuth.userEmail, field in *.
    destruct (get profile "data") as [e | data] eqn:Hget;
      [destruct profile; discriminate |].
    cbn [mbind result_bind].
    destruct (get data "emailAddresses") as [e | addresses] eqn:Hadd;
      [destruct data; discriminate |].
    cbn [mbind result_bind].
    destruct (is_nullish addresses); [reflexivity |].
    destruct (is_nullish (index0 addresses)) eqn:Hfirst.
    + destruct (index0 addresses); try discriminate; reflexivity.
    + destruct (get (index0 addresses) "value") as [e | value] eqn:Hvalue;
        [destruct (index0 addresses); discriminate | reflexivity].
  - intros Hdata. unfold OAuth.userEmail, field in *.
    destruct (get profile "data") as [e | data] eqn:Hget.
    + destruct profile; try discriminate; injection Hget as <-; reflexivity.
    + cbn [mbind result_bind].
      replace (is_nullish profile) with false in Hdata
        by (destruct profile; try reflexivity; discriminate).
      cbn [orb] in Hdata. destruct data; try discriminate; reflexivity.
Qed.

Section ConnectThenSync.

Context {CalState : Type}.
Context (events_insert : CalState -> string -> CalEvent -> Result unit * CalState).

Local Abbreviation exec := (run events_insert).

(** X25. What a refusal of the sync tells: the answer is 400 exactly
    when the request names no user, and then nothing at all was done;
    a 404 is given only to a named user whose credential record is
    missing or holds no truthy [googleCalendar] entry, and every such
    user of the data model gets it. *)
Theorem sync_refusal_tells_the_cause (h : Host) (uid : JsVal) (w : World CalState) :
  let out := exec (sync_calendar h uid) w in
  (status_in [400] out.1 status ↔ to_boolean uid = false)
  ∧ (to_boolean uid = false -> out.2 = w)
  ∧ (status_in [404] out.1 status
     -> to_boolean uid = true ∧ connected (docs w) uid = false)
  ∧ (user_id uid -> connected (docs w) uid = false -> status_in [404] out.1 status).
Proof.
  intros out. subst out. unfold connected.
  assert (Hid : user_id uid -> to_boolean uid = true) by apply user_id_truthy.
  destruct (to_boolean uid) eqn:Huid.
  2:{ rewrite (sync_calendar_no_uid events_insert h uid w Huid). cbn.
      intuition (first [discriminate | lia | congruence]). }
  destruct (docs w !! integrations_path uid) as [tokenData |] eqn:Hcred; cbn [default].
  2:{ rewrite (sync_calendar_not_connected events_insert h uid w Huid) by auto. cbn.
      intuition (first [discriminate | lia | congruence]). }
  destruct (to_boolean (lookup_field tokenData "googleCalendar")) eqn:Htok.
  2:{ rewrite (sync_calendar_not_connected events_insert h uid w Huid) by eauto. cbn.
      intuition (first [discriminate | lia | congruence]). }
  destruct (docs w !! tasks_path uid) as [data |] eqn:Htasks.
  2:{ rewrite (sync_calendar_no_tasks events_insert h uid w tokenData Huid Hcred Htok Htasks).
      cbn. intuition (first [discriminate | lia | congruence]). }
  destruct (tasksToSync data) as [e | tasks] eqn:Hfilter.
  { rewrite (sync_calendar_bad_list events_insert h uid w tokenData data e Huid Hcred Htok
               Htasks Hfilter).
    cbn. intuition (first [discriminate | lia | congruence]). }
  destruct (sync_calendar_loop_cases events_insert h uid w tokenData data tasks Huid Hcred
              Htok Htasks Hfilter) as (k & events & tail & _ & _ & Hout).
  destruct Hout as [(_ & _ & ->) | (_ & _ & ->)]; cbn;
    intuition (first [discriminate | lia | congruence]).
Qed.

(** X26. Connecting and then syncing: after a callback that ended with
    the redirect, a sync of the same user is never refused. It reads
    the record the callback stored, hands the stored [googleCalendar]
    map to the OAuth client and goes on to the task document, which
    the callback left as it was; the answer is 200 or 500. *)
Theorem connected_account_syncs (g : OAuth.Google) (code uid : JsVal)
    (before after : gmap string (list (string * JsVal))) (url : string)
    (effects : list OAuth.OEffect) (h : Host) (w : World CalState)
    (Hdone : OAuth.callback g code uid before = (OAuth.Redirected url, after, effects))
    (Hdocs : docs w = after) :
  let out := exec (sync_calendar h uid) w in
  ∃ stored calendar rest,
    after !! integrations_path uid = Some stored
    ∧ lookup_field stored "googleCalendar" = JObj calendar
    ∧ trace out.2 = trace w ++ prologue uid (JObj calendar) ++ rest
    ∧ status_in [200; 500] out.1 status
    ∧ after !! tasks_path uid = before !! tasks_path uid.
Proof.
  intros out. subst out.
  destruct (callback_redirected g code uid before after url effects Hdone)
    as (_ & Huid & tokens & profile & email & data & _ & _ & _ & _ & Hdata & Hset & _).
  apply integration_record_inr in Hdata. apply set_merge_inr in Hset.
  subst data.
  match type of Hset with context [JObj ?fields] => set (new := fields) in * end.
  destruct (merge_value_object
              (lookup_field (default [] (before !! integrations_path uid))
                 "googleCalendar") new) as (calendar & Hcal & _).
  destruct (merged_calendar_record before (integrations_path uid) new calendar Hcal)
    as (stored & Hlook & Hgc & _).
  rewrite <- Hset in Hlook.
  assert (Htasks' : after !! tasks_path uid = before !! tasks_path uid).
  { rewrite Hset. apply lookup_insert_ne, integrations_path_not_tasks_path. }
  assert (Hcred : docs w !! integrations_path uid = Some stored) by (rewrite Hdocs; exact Hlook).
  assert (Htok : to_boolean (lookup_field stored "googleCalendar") = true)
    by (rewrite Hgc; reflexivity).
  exists stored, calendar. rewrite <- Hgc.
  destruct (docs w !! tasks_path uid) as [tasksDoc |] eqn:Htasks.
  2:{ rewrite (sync_calendar_no_tasks events_insert h uid w stored Huid Hcred Htok Htasks).
      exists []. rewrite app_nil_r. cbn. auto 10. }
  destruct (tasksToSync tasksDoc) as [e | tasks] eqn:Hfilter.
  { rewrite (sync_calendar_bad_list events_insert h uid w stored tasksDoc e Huid Hcred Htok
               Htasks Hfilter).
    eexists. cbn. auto 10. }
  destruct (sync_calendar_loop_cases events_insert h uid w stored tasksDoc tasks Huid Hcred
              Htok Htasks Hfilter) as (k & events & tail & _ & Hworld & Hout).
  eexists. rewrite Hworld. cbn [emit_all trace set_cal].
  repeat split; [exact Hlook | | exact Htasks'].
  destruct Hout as [(_ & _ & ->) | (_ & _ & ->)]; cbn; auto.
Qed.

End ConnectThenSync.

(** ** One OAuth client for all requests *)

Lemma inserts_use_app (tokens : JsVal) (cur : option JsVal) (e1 e2 : list Effect) :
  inserts_use tokens cur e1 ->
  inserts_use tokens (client_credentials cur e1) e2 ->
  inserts_use tokens cur (e1 ++ e2).
Proof.
  revert cur. induction e1 as [| ev e1 IH]; intros cur H1 H2; [exact H2 |].
  destruct ev; cbn in *; try (apply IH; assumption).
  destruct H1 as [Hcur H1]. split; [exact Hcur | apply IH; assumption].
Qed.

Lemma client_credentials_app (cur : option JsVal) (e1 e2 : list Effect) :
  client_credentials cur (e1 ++ e2) = client_credentials (client_credentials cur e1) e2.
Proof.
  revert cur. induction e1 as [| ev e1 IH]; intros cur; [reflexivity |].
  destruct ev; cbn; apply IH.
Qed.

(** The loop hands no credentials over, and inserts under those in force. *)
Lemma loop_effects_credentials (tokens : JsVal) (tasks : list JsVal)
    (events : list CalEvent) (answers : list (Result unit)) :
  client_credentials (Some tokens) (loop_effects tasks events answers) = Some tokens
  ∧ inserts_use tokens (Some tokens) (loop_effects tasks events answers).
Proof.
  revert events answers. induction tasks as [| task tasks IH]; intros events answers.
  - destruct events, answers; cbn; auto.
  - destruct events as [| event events]; [cbn; auto |].
    destruct answers as [| answer answers]; [cbn; auto |].
    cbn [loop_effects]. destruct (IH events answers) as [Hc Hi].
    unfold attempt_effects.
    destruct (reported task answer) as [[prefix e] |]; cbn; auto.
Qed.

Section SharedClient.

Context {CalState : Type}.
Context (events_insert : CalState -> string -> CalEvent -> Result unit * CalState).

Local Abbreviation exec := (run events_insert).

(** Served alone, a handler's turns add up to its run. *)
Lemma turns_reach_run {R} (p : Prog R) (w : World CalState) :
  ∃ n, ∀ m, (n <= m)%nat ->
    turns events_insert m (Running p) w = (Done (exec p w).1, (exec p w).2).
Proof.
  revert w. induction p as [r | e | A c k IH]; intros w.
  - exists 1%nat. intros [| m] Hm; [lia |]. cbn. clear Hm.
    induction m as [| m IHm]; [reflexivity | exact IHm].
  - exists 1%nat. intros [| m] Hm; [lia |]. cbn. clear Hm.
    induction m as [| m IHm]; [reflexivity | exact IHm].
  - cbn [run]. destruct (perform events_insert c w) as [[a |] w'] eqn:Hperf.
    + destruct (IH a w') as (n & Hn). exists (S n). intros [| m] Hm; [lia |].
      cbn [turns resume turn]. rewrite Hperf.
      destruct (awaited c).
      * apply Hn. lia.
      * specialize (Hn (S m) ltac:(lia)). cbn [turns resume] in Hn. exact Hn.
    + exists 1%nat. intros [| m] Hm; [lia |]. cbn [turns resume turn]. rewrite Hperf.
      clear Hm. cbn [fst snd]. induction m as [| m IHm]; [reflexivity | exact IHm].
Qed.

Lemma turn_bind {A B} (p : Prog A) (f : A -> Prog B) (w : World CalState) :
  turn events_insert (p ≫= f) w
  = match turn events_insert p w with
    | (Running p', w') => (Running (p' ≫= f), w')
    | (Done (Returned a), w') => turn events_insert (f a) w'
    | (Done (Threw e), w') => (Done (Threw e), w')
    | (Done Stuck, w') => (Done Stuck, w')
    end.
Proof.
  revert w. induction p as [a | e | X c k IH]; intros w; try reflexivity.
  change (Vis c k ≫= f) with (Vis c (fun x => k x ≫= f)). cbn [turn].
  destruct (perform events_insert c w) as [[x |] w']; [| reflexivity].
  destruct (awaited c); [reflexivity | apply IH].
Qed.

Lemma turn_try_catch {R} (p : Prog R) (handler : Exn -> Prog R) (w : World CalState) :
  turn events_insert (try_catch p handler) w
  = match turn events_insert p w with
    | (Running p', w') => (Running (try_catch p' handler), w')
    | (Done (Threw e), w') => turn events_insert (handler e) w'
    | (Done o, w') => (Done o, w')
    end.
Proof.
  revert w. induction p as [a | e | X c k IH]; intros w; try reflexivity.
  cbn [try_catch turn].
  destruct (perform events_insert c w) as [[x |] w']; [| reflexivity].
  destruct (awaited c); [reflexivity | apply IH].
Qed.

(** The first three turns of the sync of a connected user: the read of
    the credential record; the hand-over of the tokens and the read of
    the task document; the first insert. *)
Lemma sync_calendar_turns (h : Host) (uid : JsVal)
    (store : gmap string (list (string * JsVal))) (tokenData : list (string * JsVal)) :
  to_boolean uid = true ->
  store !! integrations_path uid = Some tokenData ->
  to_boolean (lookup_field tokenData "googleCalendar") = true ->
  ∃ k1 k2,
    (∀ w, docs w = store ->
       turn events_insert (sync_calendar h uid) w
       = (Running k1, emit_all [EGet (integrations_path uid)] w))
    ∧ (∀ w, docs w = store ->
         turn events_insert k1 w
         = (Running k2,
            emit_all [ESetCredentials (lookup_field tokenData "googleCalendar");
                      EGet (tasks_path uid)] w))
    ∧ (∀ data task rest event,
         store !! tasks_path uid = Some data ->
         tasksToSync data = inr (task :: rest) ->
         to_event h task = inr event ->
         ∀ w, ∃ k3,
           turn events_insert k2 w
           = (Running k3,
              emit_all [EInsert "primary" event (events_insert (cal w) "primary" event).1]
                (set_cal (events_insert (cal w) "primary" event).2 w))).
Proof.
  intros Huid Hcred Htok.
  eexists. eexists. split; [| split].
  - intros w Hw. unfold sync_calendar. rewrite Huid. cbn [negb].
    rewrite turn_try_catch. unfold sync_calendar_body. rewrite turn_bind.
    cbn [call turn perform awaited]. rewrite Hw, Hcred. reflexivity.
  - intros w Hw. rewrite turn_try_catch, turn_bind. cbn [turn mret prog_ret].
    rewrite turn_bind. cbn [get ok lift turn]. rewrite Htok. cbn [negb].
    rewrite turn_bind. cbn [call turn perform awaited].
    rewrite turn_bind. cbn [call turn perform awaited docs emit]. rewrite Hw.
    unfold emit_all, emit. cbn [docs settings_hits cal settle next_promise trace].
    rewrite <- app_assoc. reflexivity.
  - intros data task rest event Htasks Hfilter Hevent w.
    destruct (events_insert (cal w) "primary" event) as [answer c'] eqn:Hins.
    eexists. rewrite Htasks. rewrite turn_try_catch, turn_bind. cbn [turn mret prog_ret].
    rewrite turn_bind, Hfilter. cbn [lift turn]. rewrite turn_bind.
    cbn [sync_loop]. rewrite turn_bind, Hevent. cbn [lift turn].
    rewrite turn_bind, turn_try_catch, turn_bind. unfold await.
    cbn [turn perform awaited]. rewrite Hins. cbn [fst snd]. reflexivity.
Qed.

(** X27. A sync served alone inserts with the user's own tokens:
    whatever the OAuth client held before, every insert of the run is
    made after the hand-over of the [googleCalendar] entry stored for
    the user and of nothing else; and the turns of the handler,
    taken one after the other, end with the outcome of the run. *)
Theorem sync_alone_inserts_with_own_tokens (h : Host) (uid : JsVal) (w : World CalState) :
  let out := exec (sync_calendar h uid) w in
  (∃ effects, trace out.2 = trace w ++ effects
              ∧ ∀ cur, inserts_use (stored_tokens (docs w) uid) cur effects)
  ∧ ∃ n, ∀ m, (n <= m)%nat ->
      turns events_insert m (Running (sync_calendar h uid)) w = (Done out.1, out.2).
Proof.
  intros out. subst out. split; [| apply turns_reach_run].
  unfold stored_tokens.
  destruct (to_boolean uid) eqn:Huid.
  2:{ rewrite (sync_calendar_no_uid events_insert h uid w Huid).
      exists []. rewrite app_nil_r. split; [reflexivity | intros cur; exact I]. }
  destruct (docs w !! integrations_path uid) as [tokenData |] eqn:Hcred.
  2:{ rewrite (sync_calendar_not_connected events_insert h uid w Huid) by auto.
      eexists. split; [reflexivity | intros cur; exact I]. }
  cbn.
  destruct (to_boolean (lookup_field tokenData "googleCalendar")) eqn:Htok.
  2:{ rewrite (sync_calendar_not_connected events_insert h uid w Huid) by eauto.
      eexists. split; [reflexivity | intros cur; exact I]. }
  destruct (docs w !! tasks_path uid) as [data |] eqn:Htasks.
  2:{ rewrite (sync_calendar_no_tasks events_insert h uid w tokenData Huid Hcred Htok Htasks).
      eexists. split; [reflexivity | intros cur; exact I]. }
  destruct (tasksToSync data) as [e | tasks] eqn:Hfilter.
  { rewrite (sync_calendar_bad_list events_insert h uid w tokenData data e Huid Hcred Htok
               Htasks Hfilter).
    eexists. split; [reflexivity | intros cur; exact I]. }
  destruct (sync_calendar_loop_cases events_insert h uid w tokenData data tasks Huid Hcred
              Htok Htasks Hfilter) as (k & events & tail & _ & Hworld & Hout).
  rewrite Hworld. cbn [emit_all trace set_cal]. eexists. split; [reflexivity |].
  intros cur. unfold prologue. cbn [app inserts_use].
  destruct (loop_effects_credentials (lookup_field tokenData "googleCalendar")
              (take k tasks) events (play events_insert (cal w) events).1) as [Hc Hi].
  apply inserts_use_app; [exact Hi |]. rewrite Hc.
  destruct Hout as [(_ & -> & _) | (_ & (e & ->) & _)]; exact I.
Qed.

(** X28. Two syncs served side by side share the one OAuth client: for
    two connected users, the first of whom has a task to sync, there
    is an order of turns in which the first user's event is inserted
    while the client holds the second user's tokens. *)
Theorem two_syncs_can_mix_credentials (h : Host) (uidA uidB : JsVal) (w : World CalState)
    (data : list (string * JsVal)) (task : JsVal) (rest : list JsVal) (event : CalEvent)
    (HuidA : to_boolean uidA = true)
    (HuidB : to_boolean uidB = true)
    (HconA : connected (docs w) uidA = true)
    (HconB : connected (docs w) uidB = true)
    (Htasks : docs w !! tasks_path uidA = Some data)
    (Hfilter : tasksToSync data = inr (task :: rest))
    (Hevent : to_event h task = inr event) :
  let out := interleave events_insert [true; true; false; false; true]
               (Running (sync_calendar h uidA)) (Running (sync_calendar h uidB)) w in
  let before :=
    [EGet (integrations_path uidA); ESetCredentials (stored_tokens (docs w) uidA);
     EGet (tasks_path uidA);
     EGet (integrations_path uidB); ESetCredentials (stored_tokens (docs w) uidB);
     EGet (tasks_path uidB)] in
  let insert := EInsert "primary" event (events_insert (cal w) "primary" event).1 in
  trace out.2 = trace w ++ before ++ [insert]
  ∧ client_credentials None before = Some (stored_tokens (docs w) uidB)
  ∧ (stored_tokens (docs w) uidA ≠ stored_tokens (docs w) uidB
     -> ¬ inserts_use (stored_tokens (docs w) uidA) None (before ++ [insert])).
Proof.
  intros out before insert.
  split; [| split; [reflexivity |]].
  2:{ intros Hne Huse. cbn in Huse. destruct Huse as [Heq _]. congruence. }
  subst out before insert. unfold connected, stored_tokens in *.
  destruct (docs w !! integrations_path uidA) as [tdA |] eqn:HcredA; [| discriminate].
  destruct (docs w !! integrations_path uidB) as [tdB |] eqn:HcredB; [| discriminate].
  cbn in HconA, HconB |- *.
  destruct (sync_calendar_turns h uidA (docs w) tdA HuidA HcredA HconA)
    as (a1 & a2 & HA1 & HA2 & HA3).
  destruct (sync_calendar_turns h uidB (docs w) tdB HuidB HcredB HconB)
    as (b1 & b2 & HB1 & HB2 & _).
  cbn [interleave resume].
  rewrite HA1 by reflexivity. cbn [interleave resume].
  rewrite HA2 by reflexivity. cbn [interleave resume].
  rewrite HB1 by reflexivity. cbn [interleave resume].
  rewrite HB2 by reflexivity. cbn [interleave resume].
  match goal with
  | |- context [turn events_insert a2 ?w0] =>
      destruct (HA3 data task rest event Htasks Hfilter Hevent w0) as (a3 & ->)
  end.
  cbn [snd emit_all trace set_cal cal]. rewrite <- !app_assoc. reflexivity.
Qed.

End SharedClient.

Lemma two_syncs_can_mix_credentials_witness :
  let w := mkWorld Accounts.two_users [] ∅ (fun _ => None) 0%nat [] in
  let out := interleave Providers.mem_insert [true; true; false; false; true]
               (Running (sync_calendar Examples.host_kolkata (JStr "u1")))
               (Running (sync_calendar Examples.host_kolkata (JStr "u2"))) w in
  let before :=
    [EGet (integrations_path (JStr "u1"));
     ESetCredentials (stored_tokens (docs w) (JStr "u1"));
     EGet (tasks_path (JStr "u1"));
     EGet (integrations_path (JStr "u2"));
     ESetCredentials (stored_tokens (docs w) (JStr "u2"));
     EGet (tasks_path (JStr "u2"))] in
  let insert :=
    EInsert "primary" (Examples.event_of Examples.host_kolkata Examples.t1)
      (Providers.mem_insert (cal w) "primary"
         (Examples.event_of Examples.host_kolkata Examples.t1)).1 in
  trace out.2 = trace w ++ before ++ [insert]
  ∧ client_credentials None before = Some (stored_tokens (docs w) (JStr "u2"))
  ∧ (stored_tokens (docs w) (JStr "u1") ≠ stored_tokens (docs w) (JStr "u2")
     -> ¬ inserts_use (stored_tokens (docs w) (JStr "u1")) None (before ++ [insert])).
Proof.
  intros w.
  apply (two_syncs_can_mix_credentials Providers.mem_insert Examples.host_kolkata
           (JStr "u1") (JStr "u2") w [("list", JArr [Examples.t1])] Examples.t1 []
           (Examples.event_of Examples.host_kolkata Examples.t1));
    vm_compute; reflexivity.
Defined.

(** ** Sample runs *)

Lemma missing_task_document_is_no_op_witness :
  run Examples.no_calendar (sync_calendar Examples.host_utc (JStr "u1"))
      (world_of Accounts.connected_only)
  = (Returned (mkResponse 200 "No tasks to sync."),
     emit_all (prologue (JStr "u1") (lookup_field Examples.credentials "googleCalendar"))
              (world_of Accounts.connected_only)).
Proof.
  apply (missing_task_document_is_no_op Examples.no_calendar Examples.host_utc (JStr "u1")
           (world_of Accounts.connected_only) Examples.credentials);
    vm_compute; reflexivity.
Defined.

Lemma unusable_list_is_500_witness :
  let w := Examples.world tt [("list", JArr [Examples.t1; JNull])] in
  run Examples.no_calendar (sync_calendar Examples.host_utc (JStr "u1")) w
  = (Returned (mkResponse 500 "Sync failed."),
     emit_all (prologue (JStr "u1") (lookup_field Examples.credentials "googleCalendar")
               ++ [EConsoleError "Sync failed for u1:" TypeError]) w)
  ∧ TypeError = TypeError.
Proof.
  intros w.
  apply (unusable_list_is_500 Examples.no_calendar Examples.host_utc (JStr "u1") w
           Examples.credentials [("list", JArr [Examples.t1; JNull])] TypeError);
    vm_compute; reflexivity.
Defined.

Lemma inserts_follow_the_task_list_witness :
  let tasks := [Examples.t1; Examples.t_off_clock; Examples.t3] in
  let w := Examples.world ∅ [("list", JArr tasks)] in
  let out := run Providers.mem_insert (sync_calendar Examples.host_kolkata (JStr "u1")) w in
  ∃ (k : nat) (events : list CalEvent) (answers : list (Result unit)),
    Forall2 (fun task event => to_event Examples.host_kolkata task = inr event)
            (take k tasks) events
    ∧ Trace.inserts (trace out.2) = Trace.inserts (trace w) ++ zip events answers
    ∧ length answers = length events
    ∧ (length (List.filter accepted answers) <= k <= length tasks)%nat
    ∧ (k = length tasks
       -> out.1 = Returned (sync_complete (JStr "u1")
                    (Z.of_nat (length (List.filter accepted answers)))))
    ∧ ((k < length tasks)%nat -> out.1 = Returned (mkResponse 500 "Sync failed.")).
Proof.
  intros tasks w.
  apply (inserts_follow_the_task_list Providers.mem_insert Examples.host_kolkata
           (JStr "u1") w Examples.credentials [("list", JArr tasks)] tasks);
    try (vm_compute; reflexivity).
  repeat constructor.
  - exists [("id", JStr "t1"); ("dueDate", JStr "2024-01-01");
            ("startTime", JStr "09:00"); ("endTime", JStr "10:00");
            ("completed", JBool false)], "2024-01-01"%string, "09:00"%string,
      "10:00"%string.
    repeat split; try reflexivity; try (eexists; reflexivity). left. reflexivity.
  - eexists _, "2024-01-02"%string, "25:00"%string, "26:00"%string.
    repeat split; try reflexivity; try (eexists; reflexivity). right. eexists. reflexivity.
  - eexists _, "2024-01-02"%string, "14:00"%string, "15:30"%string.
    repeat split; try reflexivity; try (eexists; reflexivity). right. eexists. reflexivity.
Defined.

Lemma empty_discovery_triggers_nobody_witness :
  let w := Examples.cron_world [] (fun _ => None) in
  run Examples.no_calendar (sync_all_users Examples.host_utc (JStr "Bearer s3cret")) w
  = (Returned (mkResponse 200 "No users to sync."), emit_all [EQuery] w).
Proof.
  intros w.
  apply (empty_discovery_triggers_nobody Examples.no_calendar Examples.host_utc
           (JStr "Bearer s3cret") w); reflexivity.
Defined.

Lemma short_record_stops_the_fan_out_witness :
  let w := Examples.cron_world
             [["users"; "u1"; "settings"; "integrations"]; ["integrations"]]%string
             (fun _ => None) in
  let out := run Examples.no_calendar
               (sync_all_users Examples.host_utc (JStr "Bearer s3cret")) w in
  out = (Returned (mkResponse 500 "Cron job failed"),
         emit_all [EQuery; EConsoleError "Cron job failed:" TypeError] w)
  ∧ Trace.fetches (trace out.2) = Trace.fetches (trace w).
Proof.
  intros w.
  apply (short_record_stops_the_fan_out Examples.no_calendar Examples.host_utc
           (JStr "Bearer s3cret") w [["users"; "u1"; "settings"; "integrations"]]%string
           [] ["integrations"]%string); [reflexivity | reflexivity | cbn; lia].
Defined.

Lemma callback_stores_the_tokens_witness :
  let g := Accounts.google Accounts.tokens_full Accounts.one_address in
  ∃ tokens profile email stored calendar,
    (response ← OAuth.getToken g Accounts.code; get response "tokens") = inr tokens
    ∧ OAuth.people_get g tokens = inr profile
    ∧ OAuth.userEmail profile = inr email
    ∧ to_boolean email = true
    ∧ Accounts.connecting.1.2 !! integrations_path (JStr "u1") = Some stored
    ∧ lookup_field stored "googleCalendar" = JObj calendar
    ∧ (let record :=
         [("email", email); ("access_token", field tokens "access_token");
          ("refresh_token", field tokens "refresh_token");
          ("expiry_date", field tokens "expiry_date");
          ("created_at", OAuth.server_time g)]%string in
       ∀ name, name ∈ record.*1 -> leaf (lookup_field record name) ->
               lookup_field calendar name = lookup_field record name)
    ∧ (∀ name, name ≠ "googleCalendar"%string ->
               lookup_field stored name
               = lookup_field
                   (default [] (Accounts.store !! integrations_path (JStr "u1"))) name)
    ∧ (∀ path, path ≠ integrations_path (JStr "u1")
               -> Accounts.connecting.1.2 !! path = Accounts.store !! path).
Proof.
  intros g.
  apply (callback_stores_the_tokens g Accounts.code (JStr "u1") Accounts.store
           Accounts.connecting.1.2
           "http://localhost:3000/settings?google-connected=true"
           Accounts.connecting.2).
  vm_compute. reflexivity.
Defined.

Lemma partial_tokens_are_not_stored_witness :
  (OAuth.callback (Accounts.google Accounts.tokens_no_refresh Accounts.one_address)
     Accounts.code (JStr "u1") Accounts.store).1
  = (OAuth.Sent (mkResponse 500 "Error connecting Google account."), Accounts.store).
Proof.
  apply (partial_tokens_are_not_stored
           (Accounts.google Accounts.tokens_no_refresh Accounts.one_address)
           Accounts.code (JStr "u1") Accounts.tokens_no_refresh Accounts.store
           "refresh_token" eq_refl eq_refl eq_refl);
    [right; left | reflexivity].
Defined.

Lemma connected_account_syncs_witness :
  let w := mkWorld Accounts.connecting.1.2 [] ∅ (fun _ => None) 0%nat [] in
  let out := run Providers.mem_insert (sync_calendar Examples.host_kolkata (JStr "u1")) w in
  ∃ stored calendar rest,
    Accounts.connecting.1.2 !! integrations_path (JStr "u1") = Some stored
    ∧ lookup_field stored "googleCalendar" = JObj calendar
    ∧ trace out.2 = trace w ++ prologue (JStr "u1") (JObj calendar) ++ rest
    ∧ status_in [200; 500] out.1 status
    ∧ Accounts.connecting.1.2 !! tasks_path (JStr "u1")
      = Accounts.store !! tasks_path (JStr "u1").
Proof.
  intros w.
  apply (connected_account_syncs Providers.mem_insert
           (Accounts.google Accounts.tokens_full Accounts.one_address)
           Accounts.code (JStr "u1") Accounts.store Accounts.connecting.1.2
           "http://localhost:3000/settings?google-connected=true"
           Accounts.connecting.2 Examples.host_kolkata w);
    [vm_compute; reflexivity | reflexivity].
Defined.
